(** * A singly linked list of integers (list.c)

    The C module keeps a [list_t] holding a [head] pointer to a chain of
    heap-allocated [node_t] cells.  This development embeds the module in
    Rocq as programs of a small monad over an explicit heap, an allocation
    script, and the two output streams, and proves the properties the
    specification states about it. *)

From Stdlib Require Import ZArith Ascii String Lia.
From stdpp Require Import base tactics option list gmap fin_maps fin_sets.

Local Open Scope Z_scope.

(** * Part I: the model *)

(** ** Machine integers *)

Module MachineInt.

Definition INT_MAX : Z := 2147483647.
Definition INT_MIN : Z := -2147483648.
Definition SIZE_MOD : Z := 2 ^ 64.

(** A value of C type [int]: two's complement on 32 bits. *)
Definition int_wrap (z : Z) : Z := (z + 2 ^ 31) mod 2 ^ 32 - 2 ^ 31.

(** A value of C type [size_t]: unsigned on 64 bits. *)
Definition size_wrap (z : Z) : Z := z mod SIZE_MOD.

Definition is_int (z : Z) : Prop := INT_MIN <= z <= INT_MAX.

End MachineInt.
Export MachineInt.

(** ** Text *)

Module Text.

(** C character arrays are lists of characters; string literals of the
    source are written with [str]. *)
Definition str (s : string) : list ascii := list_ascii_of_string s.

Definition newline : list ascii := [ascii_of_nat 10].
Definition NUL : ascii := ascii_of_nat 0.

Definition digit_char (d : Z) : ascii := ascii_of_nat (48 + Z.to_nat d).

(** Decimal digits of a non-negative number, most significant first, in
    front of [acc]. *)
Fixpoint dec_digits (fuel : nat) (n : Z) (acc : list ascii) : list ascii :=
  match fuel with
  | O => acc
  | S f =>
      if n <? 10 then digit_char n :: acc
      else dec_digits f (n / 10) (digit_char (n mod 10) :: acc)
  end.

Definition dec_unsigned (n : Z) : list ascii :=
  dec_digits (S (Z.to_nat (Z.log2 n))) n [].

(** What the conversion [%d] writes for an [int]. *)
Definition fmt_d (v : Z) : list ascii :=
  if v <? 0 then "-"%char :: dec_unsigned (- v) else dec_unsigned v.

(** Reading decimal digits back, for checking [fmt_d]. *)
Definition digit_value (c : ascii) : Z := Z.of_nat (nat_of_ascii c) - 48.

Definition read_from (start : Z) (text : list ascii) : Z :=
  fold_left (λ a c, 10 * a + digit_value c) text start.

Definition read_unsigned (text : list ascii) : Z := read_from 0 text.

(** The values in decimal with [arrow] after each one. *)
Definition chain_text (arrow : list ascii) (vs : list Z) : list ascii :=
  concat ((λ v, fmt_d v ++ arrow) <$> vs).

End Text.
Export Text.

(** ** Memory, process state and the program monad *)

Module Machine.

Definition loc := positive.

(** A pointer is [NULL] or the address of a live or freed object. *)
Definition ptr := option loc.
Abbreviation NULL := (@None loc).

(** Modelled from the spec: the type [elem] is declared in list.h, which
    is not part of the sources.  The spec calls it a signed integer-like
    value; the source prints it with [%d] and returns [-1] as an [elem], so
    it is taken to be [int]. *)
Definition elem := Z.

(** Modelled from the spec: [node_t] is declared in list.h.  A node holds
    one value and the link to its successor; the source uses the fields
    [value] and [next]. *)
Record node_t := mk_node { value : elem; next : ptr }.

(** Modelled from the spec: [list_t] is declared in list.h.  A list holds
    the reference to its first node; the source uses the field [head]. *)
Record list_t := mk_list { head : ptr }.

Inductive object :=
| Onode (n : node_t)
| Olist (l : list_t).

(** The state of the process: the heap of live objects, the outcomes of
    the coming allocation requests ([false] is a failing request; once the
    script is used up every request succeeds), and what has been written
    to the two output streams. *)
Record world := World {
  heap : gmap loc object;
  mallocs : list bool;
  stdout : list ascii;
  stderr : list ascii
}.

Definition set_heap (h : gmap loc object) (w : world) : world :=
  World h (mallocs w) (stdout w) (stderr w).

(** How running a piece of C ends. *)
Inductive outcome (A : Type) :=
| Ok (a : A) (w : world)          (* returns to the caller *)
| Exit (status : Z) (w : world)   (* the process called exit *)
| Undef                           (* undefined behaviour *)
| Diverge.                        (* the loop never ends *)
Arguments Ok {A} a w.
Arguments Exit {A} status w.
Arguments Undef {A}.
Arguments Diverge {A}.

Definition M (A : Type) : Type := world -> outcome A.

Definition ret {A} (a : A) : M A := fun w => Ok a w.

Definition bind {A B} (m : M A) (k : A -> M B) : M B :=
  fun w =>
    match m w with
    | Ok a w' => k a w'
    | Exit c w' => Exit c w'
    | Undef => Undef
    | Diverge => Diverge
    end.

Definition undef {A} : M A := fun _ => Undef.
Definition diverge {A} : M A := fun _ => Diverge.
Definition exit {A} (status : Z) : M A := fun w => Exit status w.

(** A loop over the nodes of a chain leaves through its exit test within
    one round more than there are live objects, or it runs round a cycle
    for ever; loops are given that many rounds. *)
Definition with_fuel {A} (body : nat -> M A) : M A :=
  fun w => body (S (size (heap w))) w.

(** The coming allocation request: does it succeed, and the script after
    it. *)
Definition next_alloc (w : world) : bool * list bool :=
  match mallocs w with
  | [] => (true, [])
  | b :: rest => (b, rest)
  end.

(** [malloc] of an object together with the stores that initialise it. *)
Definition malloc (init : object) : M ptr :=
  fun w =>
    let '(ok, rest) := next_alloc w in
    if ok then
      let l := fresh (dom (heap w)) in
      Ok (Some l) (World (<[l := init]> (heap w)) rest (stdout w) (stderr w))
    else Ok NULL (World (heap w) rest (stdout w) (stderr w)).

(** [malloc] and [realloc] of a character buffer, which lives outside the
    object heap: only whether the request succeeds. *)
Definition alloc_bytes : M bool :=
  fun w =>
    let '(ok, rest) := next_alloc w in
    Ok ok (World (heap w) rest (stdout w) (stderr w)).

Definition free (p : ptr) : M unit :=
  fun w =>
    match p with
    | None => Ok tt w
    | Some l =>
        match heap w !! l with
        | Some _ => Ok tt (set_heap (delete l (heap w)) w)
        | None => Undef
        end
    end.

Definition load_node (p : ptr) : M node_t :=
  fun w =>
    match p with
    | Some l =>
        match heap w !! l with
        | Some (Onode n) => Ok n w
        | _ => Undef
        end
    | None => Undef
    end.

Definition load_list (p : ptr) : M list_t :=
  fun w =>
    match p with
    | Some l =>
        match heap w !! l with
        | Some (Olist t) => Ok t w
        | _ => Undef
        end
    | None => Undef
    end.

(** [p->next = q] *)
Definition store_next (p q : ptr) : M unit :=
  fun w =>
    match p with
    | Some l =>
        match heap w !! l with
        | Some (Onode n) =>
            Ok tt (set_heap (<[l := Onode (mk_node (value n) q)]> (heap w)) w)
        | _ => Undef
        end
    | None => Undef
    end.

(** [p->head = q] *)
Definition store_head (p q : ptr) : M unit :=
  fun w =>
    match p with
    | Some l =>
        match heap w !! l with
        | Some (Olist _) => Ok tt (set_heap (<[l := Olist (mk_list q)]> (heap w)) w)
        | _ => Undef
        end
    | None => Undef
    end.

Definition printf (text : list ascii) : M unit :=
  fun w => Ok tt (World (heap w) (mallocs w) (stdout w ++ text) (stderr w)).

Definition fprintf_stderr (text : list ascii) : M unit :=
  fun w => Ok tt (World (heap w) (mallocs w) (stdout w) (stderr w ++ text)).

Declare Scope prog_scope.
Delimit Scope prog_scope with prog.
Notation "'let!' x := m 'in' k" := (bind m (fun x => k))
  (at level 10, x name, m at level 100, k at level 200) : prog_scope.
Notation "'do!' m 'in' k" := (bind m (fun _ => k))
  (at level 10, m at level 100, k at level 200) : prog_scope.

End Machine.
Export Machine.
Local Open Scope prog_scope.

(** ** The functions of list.c *)

Module ListC.

Definition EXIT_FAILURE : Z := 1.

(** list_alloc: a new empty list, or NULL when the allocation fails. *)
Definition list_alloc : M ptr :=
  let! new_list := malloc (Olist (mk_list NULL)) in
  match new_list with
  | None =>
      do! fprintf_stderr (str "list_alloc: malloc failed" ++ newline) in
      ret NULL
  | Some _ => ret new_list
  end.

Fixpoint list_free_loop (fuel : nat) (current : ptr) : M unit :=
  match fuel with
  | O => diverge
  | S f =>
      match current with
      | None => ret tt
      | Some _ =>
          let! n := load_node current in
          let next_node := next n in
          do! free current in
          list_free_loop f next_node
      end
  end.

(** list_free: release every node, then the list itself. *)
Definition list_free (list : ptr) : M unit :=
  match list with
  | None => ret tt
  | Some _ =>
      let! l := load_list list in
      do! with_fuel (fun fuel => list_free_loop fuel (head l)) in
      free list
  end.

Fixpoint list_print_loop (fuel : nat) (cursor : ptr) : M unit :=
  match fuel with
  | O => diverge
  | S f =>
      match cursor with
      | None => ret tt
      | Some _ =>
          let! n := load_node cursor in
          do! printf (fmt_d (value n) ++ str " ->") in
          list_print_loop f (next n)
      end
  end.

(** list_print: write the chain to standard output. *)
Definition list_print (list : ptr) : M unit :=
  match list with
  | None => printf (str "LIST IS NULL" ++ newline)
  | Some _ =>
      let! l := load_list list in
      match head l with
      | None => printf (str "LIST IS EMPTY" ++ newline)
      | Some _ =>
          do! with_fuel (fun fuel => list_print_loop fuel (head l)) in
          printf (str "NULL" ++ newline)
      end
  end.

(** A character buffer obtained from malloc: its allocated size and the
    C string it holds (the bytes before the terminating NUL). *)
Record buffer := mk_buffer { buf_size : Z; content : list ascii }.

(** [snprintf(tmp, 32, "%d->", v)]: the length the full text has, and the
    bytes of [tmp] that are written (at most 31 characters and a NUL). *)
Definition snprintf_tmp (v : elem) : Z * list ascii :=
  let full := fmt_d v ++ str "->" in
  (Z.of_nat (length full), take 31 full ++ [NUL]).

(** [memcpy(buf + used, src, n)]: undefined when it reads past the written
    part of [src] or writes past the end of [buf]; the bytes of [buf] in
    front of [used] are the text written so far. *)
Definition memcpy_at (buf : buffer) (used : Z) (src : list ascii) (n : Z)
  : M buffer :=
  if (n <=? Z.of_nat (length src)) && (used + n <=? buf_size buf)
     && (used <=? Z.of_nat (length (content buf)))
  then ret (mk_buffer (buf_size buf)
              (take (Z.to_nat used) (content buf) ++ take (Z.to_nat n) src))
  else undef.

(** [buf[used] = 0]: undefined outside the buffer. *)
Definition store_nul (buf : buffer) (used : Z) : M buffer :=
  if (used <? buf_size buf) && (used <=? Z.of_nat (length (content buf)))
  then ret (mk_buffer (buf_size buf) (take (Z.to_nat used) (content buf)))
  else undef.

Definition realloc_buf (buf : buffer) (newsize : Z) : buffer :=
  mk_buffer newsize (take (Z.to_nat newsize) (content buf)).

(** [while (need >= newcap) newcap *= 2;]  A [size_t] that has been doubled
    64 times is zero and stays zero, so a loop still running after 65
    tests never ends. *)
Fixpoint grow_loop (fuel : nat) (need newcap : Z) : M Z :=
  match fuel with
  | O => diverge
  | S f =>
      if need >=? newcap then grow_loop f need (size_wrap (newcap * 2))
      else ret newcap
  end.

(** The loop of listToString; [None] is the early [return NULL]. *)
Fixpoint listToString_loop (fuel : nat) (cur : ptr) (buf : buffer)
    (capacity used : Z) : M (option (buffer * Z * Z)) :=
  match fuel with
  | O => diverge
  | S f =>
      match cur with
      | None => ret (Some (buf, capacity, used))
      | Some _ =>
          let! node := load_node cur in
          let '(n, tmp) := snprintf_tmp (value node) in
          if n <? 0 then ret None
          else
            let! grown :=
              (if size_wrap (used + n + 1) >=? capacity then
                 let! newcap :=
                   grow_loop 66 (size_wrap (used + n + 1))
                     (size_wrap (capacity * 2)) in
                 let! ok := alloc_bytes in
                 if ok then ret (Some (realloc_buf buf newcap, newcap))
                 else ret None
               else ret (Some (buf, capacity))) in
            match grown with
            | None => ret None
            | Some (buf, capacity) =>
                let! buf := memcpy_at buf used tmp n in
                let used := size_wrap (used + n) in
                let! buf := store_nul buf used in
                listToString_loop f (next node) buf capacity used
            end
      end
  end.

(** listToString: the list as a freshly allocated string, or NULL. *)
Definition listToString (list : ptr) : M (option (Datatypes.list ascii)) :=
  match list with
  | None => ret None
  | Some _ =>
      let capacity := 256 in
      let used := 0 in
      let! ok := alloc_bytes in
      if negb ok then ret None
      else
        let buf := mk_buffer capacity [] in
        let! l := load_list list in
        let! r := with_fuel (fun fuel =>
                    listToString_loop fuel (head l) buf capacity used) in
        match r with
        | None => ret None
        | Some (buf, capacity, used) =>
            let tail := str "NULL" in
            let tail_len := Z.of_nat (length tail) in
            let! grown :=
              (if size_wrap (used + tail_len + 1) >=? capacity then
                 let! ok := alloc_bytes in
                 if ok
                 then ret (Some (realloc_buf buf (size_wrap (used + tail_len + 1))))
                 else ret None
               else ret (Some buf)) in
            match grown with
            | None => ret None
            | Some buf =>
                let! buf := memcpy_at buf used tail tail_len in
                let used := size_wrap (used + tail_len) in
                let! buf := store_nul buf used in
                ret (Some (content buf))
            end
        end
  end.

Fixpoint list_length_loop (fuel : nat) (cursor : ptr) (count : Z) : M Z :=
  match fuel with
  | O => diverge
  | S f =>
      match cursor with
      | None => ret count
      | Some _ =>
          let! n := load_node cursor in
          list_length_loop f (next n) (int_wrap (count + 1))
      end
  end.

(** list_length: the number of nodes; 0 for a NULL list. *)
Definition list_length (list : ptr) : M Z :=
  match list with
  | None => ret 0
  | Some _ =>
      let! l := load_list list in
      with_fuel (fun fuel => list_length_loop fuel (head l) 0)
  end.

(** create_node: a new node holding [value]; exits when malloc fails. *)
Definition create_node (value : elem) : M ptr :=
  let! n := malloc (Onode (mk_node value NULL)) in
  match n with
  | None =>
      do! fprintf_stderr (str "create_node: malloc failed" ++ newline) in
      exit EXIT_FAILURE
  | Some _ => ret n
  end.

(** [while (cursor->next != NULL) cursor = cursor->next;] *)
Fixpoint add_to_back_loop (fuel : nat) (cursor : ptr) : M ptr :=
  match fuel with
  | O => diverge
  | S f =>
      let! n := load_node cursor in
      match next n with
      | None => ret cursor
      | Some _ => add_to_back_loop f (next n)
      end
  end.

Definition list_add_to_back (list : ptr) (value : elem) : M unit :=
  match list with
  | None => ret tt
  | Some _ =>
      let! new_node := create_node value in
      let! l := load_list list in
      match head l with
      | None => store_head list new_node
      | Some _ =>
          let! cursor := with_fuel (fun fuel => add_to_back_loop fuel (head l)) in
          store_next cursor new_node
      end
  end.

Definition list_add_to_front (list : ptr) (value : elem) : M unit :=
  match list with
  | None => ret tt
  | Some _ =>
      let! new_node := create_node value in
      let! l := load_list list in
      do! store_next new_node (head l) in
      store_head list new_node
  end.

(** [while (cursor != NULL && pos < index - 1) { cursor = cursor->next; pos++; }]
    as it stands in list_add_at_index and in list_remove_at_index; both
    reach it with [index >= 2]. *)
Fixpoint seek_loop (fuel : nat) (cursor : ptr) (pos index : Z) : M ptr :=
  match fuel with
  | O => diverge
  | S f =>
      match cursor with
      | None => ret cursor
      | Some _ =>
          if pos <? index - 1 then
            let! n := load_node cursor in
            seek_loop f (next n) (int_wrap (pos + 1)) index
          else ret cursor
      end
  end.

Definition list_add_at_index (list : ptr) (value : elem) (index : Z) : M unit :=
  match list with
  | None => ret tt
  | Some _ =>
      if index <? 1 then ret tt
      else if index =? 1 then list_add_to_front list value
      else
        let! l := load_list list in
        let! cursor := with_fuel (fun fuel => seek_loop fuel (head l) 1 index) in
        match cursor with
        | None => ret tt
        | Some _ =>
            let! new_node := create_node value in
            let! c := load_node cursor in
            do! store_next new_node (next c) in
            store_next cursor new_node
        end
  end.

(** [while (cursor->next->next != NULL) cursor = cursor->next;] *)
Fixpoint remove_from_back_loop (fuel : nat) (cursor : ptr) : M ptr :=
  match fuel with
  | O => diverge
  | S f =>
      let! n := load_node cursor in
      let! nn := load_node (next n) in
      match next nn with
      | None => ret cursor
      | Some _ => remove_from_back_loop f (next n)
      end
  end.

Definition list_remove_from_back (list : ptr) : M elem :=
  match list with
  | None => ret (-1)
  | Some _ =>
      let! l := load_list list in
      match head l with
      | None => ret (-1)
      | Some _ =>
          let! h := load_node (head l) in
          match next h with
          | None =>
              let v := value h in
              do! free (head l) in
              do! store_head list NULL in
              ret v
          | Some _ =>
              let! cursor :=
                with_fuel (fun fuel => remove_from_back_loop fuel (head l)) in
              let! c := load_node cursor in
              let last := next c in
              let! ln := load_node last in
              let v := value ln in
              do! store_next cursor NULL in
              do! free last in
              ret v
          end
      end
  end.

Definition list_remove_from_front (list : ptr) : M elem :=
  match list with
  | None => ret (-1)
  | Some _ =>
      let! l := load_list list in
      match head l with
      | None => ret (-1)
      | Some _ =>
          let to_remove := head l in
          let! n := load_node to_remove in
          let v := value n in
          do! store_head list (next n) in
          do! free to_remove in
          ret v
      end
  end.

Definition list_remove_at_index (list : ptr) (index : Z) : M elem :=
  match list with
  | None => ret (-1)
  | Some _ =>
      let! l := load_list list in
      match head l with
      | None => ret (-1)
      | Some _ =>
          if index <? 1 then ret (-1)
          else if index =? 1 then list_remove_from_front list
          else
            let! cursor :=
              with_fuel (fun fuel => seek_loop fuel (head l) 1 index) in
            match cursor with
            | None => ret (-1)
            | Some _ =>
                let! c := load_node cursor in
                match next c with
                | None => ret (-1)
                | Some _ =>
                    let to_remove := next c in
                    let! r := load_node to_remove in
                    let v := value r in
                    do! store_next cursor (next r) in
                    do! free to_remove in
                    ret v
                end
            end
      end
  end.

Fixpoint list_is_in_loop (fuel : nat) (cursor : ptr) (value0 : elem) : M bool :=
  match fuel with
  | O => diverge
  | S f =>
      match cursor with
      | None => ret false
      | Some _ =>
          let! n := load_node cursor in
          if value n =? value0 then ret true
          else list_is_in_loop f (next n) value0
      end
  end.

Definition list_is_in (list : ptr) (value : elem) : M bool :=
  match list with
  | None => ret false
  | Some _ =>
      let! l := load_list list in
      with_fuel (fun fuel => list_is_in_loop fuel (head l) value)
  end.

Fixpoint list_get_elem_at_loop (fuel : nat) (cursor : ptr) (pos index : Z)
  : M elem :=
  match fuel with
  | O => diverge
  | S f =>
      match cursor with
      | None => ret (-1)
      | Some _ =>
          let! n := load_node cursor in
          if pos =? index then ret (value n)
          else list_get_elem_at_loop f (next n) (int_wrap (pos + 1)) index
      end
  end.

Definition list_get_elem_at (list : ptr) (index : Z) : M elem :=
  match list with
  | None => ret (-1)
  | Some _ =>
      if index <? 1 then ret (-1)
      else
        let! l := load_list list in
        with_fuel (fun fuel => list_get_elem_at_loop fuel (head l) 1 index)
  end.

Fixpoint list_get_index_of_loop (fuel : nat) (cursor : ptr) (pos : Z)
    (value0 : elem) : M Z :=
  match fuel with
  | O => diverge
  | S f =>
      match cursor with
      | None => ret (-1)
      | Some _ =>
          let! n := load_node cursor in
          if value n =? value0 then ret pos
          else list_get_index_of_loop f (next n) (int_wrap (pos + 1)) value0
      end
  end.

Definition list_get_index_of (list : ptr) (value : elem) : M Z :=
  match list with
  | None => ret (-1)
  | Some _ =>
      let! l := load_list list in
      with_fuel (fun fuel => list_get_index_of_loop fuel (head l) 1 value)
  end.

End ListC.
Export ListC.

(** ** Chains of nodes in the heap *)

Module Repr.

(** The cells of a chain: the address of each node and the value in it. *)
Abbreviation cells := (list (loc * elem)).

Definition start (cs : cells) : ptr :=
  match cs with
  | [] => None
  | (l, _) :: _ => Some l
  end.

(** [lseg h p cs q]: following [next] from [p] walks through the nodes
    [cs] and arrives at [q]. *)
Fixpoint lseg (h : gmap loc object) (p : ptr) (cs : cells) (q : ptr) : Prop :=
  match cs with
  | [] => p = q
  | (l, v) :: rest =>
      p = Some l ∧ ∃ n, h !! l = Some (Onode (mk_node v n)) ∧ lseg h n rest q
  end.

(** A chain is a segment that ends in NULL. *)
Definition chain (h : gmap loc object) (p : ptr) (cs : cells) : Prop :=
  lseg h p cs None.

(** The list object at [list] heads the chain [cs]. *)
Definition list_at (h : gmap loc object) (list : ptr) (cs : cells) : Prop :=
  ∃ l, list = Some l ∧ h !! l = Some (Olist (mk_list (start cs)))
       ∧ chain h (start cs) cs.

(** [list] is a list that holds the values [vs], in this order. *)
Definition is_list (w : world) (list : ptr) (vs : Datatypes.list elem) : Prop :=
  ∃ cs, list_at (heap w) list cs ∧ cs.*2 = vs.

End Repr.
Export Repr.

(** ** Allocation scripts *)

Module Alloc.

(** No coming allocation request fails. *)
Definition never_fails (w : world) : Prop := Forall (eq true) (mallocs w).

Definition alloc_ok (w : world) : bool := fst (next_alloc w).
Definition alloc_rest (w : world) : Datatypes.list bool := snd (next_alloc w).

End Alloc.
Export Alloc.

(** ** Callers *)

Module Clients.

(** [list_add_to_back] called with each value of [vs] in turn. *)
Fixpoint add_all (list : ptr) (vs : Datatypes.list elem) : M unit :=
  match vs with
  | [] => ret tt
  | v :: rest => do! list_add_to_back list v in add_all list rest
  end.

(** A fresh list filled by [list_add_to_back] with [vs]. *)
Definition build (vs : Datatypes.list elem) : M ptr :=
  let! list := list_alloc in
  do! add_all list vs in
  ret list.

(** [list_remove_from_back] called [n] times; the values it returned. *)
Fixpoint remove_back_times (n : nat) (list : ptr) : M (Datatypes.list elem) :=
  match n with
  | O => ret []
  | S n' =>
      let! v := list_remove_from_back list in
      let! rest := remove_back_times n' list in
      ret (v :: rest)
  end.

(** A world to try things in: nothing allocated, nothing written, no
    allocation failure ahead. *)
Definition empty_world : world := World ∅ [] [] [].

(** A world in which the second allocation request fails. *)
Definition second_alloc_fails : world := World ∅ [true; false] [] [].

(** A world holding the list 7, 8, 9 at address 1. *)
Definition sample_world : world :=
  World {[ 1%positive := Olist (mk_list (Some 2%positive));
           2%positive := Onode (mk_node 7 (Some 3%positive));
           3%positive := Onode (mk_node 8 (Some 4%positive));
           4%positive := Onode (mk_node 9 NULL) ]} [] [] [].

(** The same list, with no memory left for the next allocation. *)
Definition sample_no_memory : world :=
  World (heap sample_world) [false] [] [].

(** A world holding an empty list at address 1. *)
Definition sample_empty : world :=
  World {[ 1%positive := Olist (mk_list NULL) ]} [] [] [].

End Clients.
Export Clients.

(** ** The buffer of listToString *)

Module Buffer.

(** The text fits a [size_t] with room to double the capacity. *)
Definition text_fits (vs : Datatypes.list elem) : Prop :=
  Z.of_nat (length (chain_text (str "->") vs)) + 32 < 2 ^ 63.

(** What the loop of listToString keeps true of its buffer. *)
Record buf_inv (buf : buffer) (capacity used : Z) : Prop := {
  inv_size : buf_size buf = capacity;
  inv_used : used = Z.of_nat (length (content buf));
  inv_cap : 256 <= capacity;
  inv_room : used + 1 < capacity
}.

End Buffer.
Export Buffer.

(** ** Blanks in a text *)

Module Blanks.

Definition is_blank (c : ascii) : bool :=
  (c =? " ")%char || (c =? ascii_of_nat 10)%char.

(** The text without its spaces and newlines. *)
Definition strip_blanks (text : Datatypes.list ascii) : Datatypes.list ascii :=
  List.filter (λ c, negb (is_blank c)) text.

End Blanks.
Export Blanks.

(** ** Properties of programs *)

Module Effects.

(** [m] never calls exit, in whatever state it is run. *)
Definition no_exit {A} (m : M A) : Prop := ∀ w c w', m w ≠ Exit c w'.

(** [m] leaves the state as it is whenever it returns. *)
Definition read_only {A} (m : M A) : Prop := ∀ w a w', m w = Ok a w' -> w' = w.

End Effects.
Export Effects.

(** ** Sequences of calls and the list they stand for *)

Module Model.

(** A call of one of the six functions that change the list. *)
Inductive op :=
| AddToBack (v : elem)
| AddToFront (v : elem)
| AddAtIndex (v : elem) (index : Z)
| RemoveFromBack
| RemoveFromFront
| RemoveAtIndex (index : Z).

(** The call itself; an insertion returns nothing, a removal its value. *)
Definition run_op (list : ptr) (o : op) : M (option elem) :=
  match o with
  | AddToBack v => do! list_add_to_back list v in ret None
  | AddToFront v => do! list_add_to_front list v in ret None
  | AddAtIndex v index => do! list_add_at_index list v index in ret None
  | RemoveFromBack => let! r := list_remove_from_back list in ret (Some r)
  | RemoveFromFront => let! r := list_remove_from_front list in ret (Some r)
  | RemoveAtIndex index =>
      let! r := list_remove_at_index list index in ret (Some r)
  end.

Fixpoint run_ops (list : ptr) (os : Datatypes.list op)
  : M (Datatypes.list (option elem)) :=
  match os with
  | [] => ret []
  | o :: rest =>
      let! r := run_op list o in
      let! rs := run_ops list rest in
      ret (r :: rs)
  end.

(** What a call returns and what it makes of the values [vs]. *)
Definition apply_op (o : op) (vs : Datatypes.list elem)
  : option elem * Datatypes.list elem :=
  match o with
  | AddToBack v => (None, vs ++ [v])
  | AddToFront v => (None, v :: vs)
  | AddAtIndex v index =>
      if (1 <=? index) && (index <=? Z.of_nat (length vs) + 1)
      then (None, take (Z.to_nat (index - 1)) vs
                  ++ v :: drop (Z.to_nat (index - 1)) vs)
      else (None, vs)
  | RemoveFromBack =>
      match last vs with
      | Some v => (Some v, take (length vs - 1) vs)
      | None => (Some (-1), vs)
      end
  | RemoveFromFront =>
      match vs with
      | v :: rest => (Some v, rest)
      | [] => (Some (-1), vs)
      end
  | RemoveAtIndex index =>
      match (if 1 <=? index then vs !! Z.to_nat (index - 1) else None) with
      | Some v =>
          (Some v, take (Z.to_nat (index - 1)) vs ++ drop (Z.to_nat index) vs)
      | None => (Some (-1), vs)
      end
  end.

Fixpoint apply_ops (os : Datatypes.list op) (vs : Datatypes.list elem)
  : Datatypes.list (option elem) * Datatypes.list elem :=
  match os with
  | [] => ([], vs)
  | o :: rest =>
      let '(r, vs1) := apply_op o vs in
      let '(rs, vs2) := apply_ops rest vs1 in
      (r :: rs, vs2)
  end.

(** The index a call passes is a value of type [int]. *)
Definition op_int (o : op) : Prop :=
  match o with
  | AddAtIndex _ index | RemoveAtIndex index => is_int index
  | _ => True
  end.

(** The heap after the nodes at [ls] have been freed. *)
Definition free_all (ls : Datatypes.list loc) (h : gmap loc object)
  : gmap loc object :=
  foldl (λ h l, delete l h) h ls.

(** [list] owns the list object and nodes it is made of: they are objects
    allocated since the heap was [h0], and nothing else of [h0] has
    changed. *)
Definition owns (h0 h : gmap loc object) (list : ptr) (cs : cells) : Prop :=
  ∃ l0, list = Some l0 ∧ list_at h list cs
        ∧ (∀ l, l ∈ l0 :: cs.*1 -> h0 !! l = None)
        ∧ (∀ l, l ∉ l0 :: cs.*1 -> h !! l = h0 !! l).

(** A world holding the list -1, 5 at address 1. *)
Definition sample_sentinel : world :=
  World {[ 1%positive := Olist (mk_list (Some 2%positive));
           2%positive := Onode (mk_node (-1) (Some 3%positive));
           3%positive := Onode (mk_node 5 NULL) ]} [] [] [].

(** Does the call get as far as creating a node? *)
Definition needs_node (o : op) (vs : list elem) : bool :=
  match o with
  | AddToBack _ | AddToFront _ => true
  | AddAtIndex _ index =>
      (1 <=? index) && (index <=? Z.of_nat (length vs) + 1)
  | _ => false
  end.

(** A list made, worked on and freed. *)
Definition session (os : list op) : M (list (option elem)) :=
  let! list := list_alloc in
  let! rs := run_ops list os in
  do! list_free list in
  ret rs.

(** A world holding two lists: 7 at address 1, and 8, 9 at address 3. *)
Definition sample_two_lists : world :=
  World {[ 1%positive := Olist (mk_list (Some 2%positive));
           2%positive := Onode (mk_node 7 NULL);
           3%positive := Olist (mk_list (Some 4%positive));
           4%positive := Onode (mk_node 8 (Some 5%positive));
           5%positive := Onode (mk_node 9 NULL) ]} [] [] [].

End Model.
Export Model.

(** * Part II: the proofs *)

(** ** Facts about lists *)

Module ListFacts.

(** Dropping the element behind position [length l1 + 1]. *)
Lemma take_drop_skip {A} (l1 : list A) (x y : A) (l2 : list A) :
  take (S (length l1)) (l1 ++ x :: y :: l2)
  ++ drop (S (S (length l1))) (l1 ++ x :: y :: l2)
  = l1 ++ x :: l2.
Proof. induction l1 as [|a l1 IH]; simpl; [done|by f_equal]. Qed.

(** Putting an element behind position [length l1 + 1]. *)
Lemma take_drop_put {A} (l1 : list A) (x y : A) (l2 : list A) :
  take (S (length l1)) (l1 ++ x :: l2)
  ++ y :: drop (S (length l1)) (l1 ++ x :: l2)
  = l1 ++ x :: y :: l2.
Proof. induction l1 as [|a l1 IH]; simpl; [done|by f_equal]. Qed.

End ListFacts.
Export ListFacts.

(** ** Facts about machine integers *)

Module MachineIntFacts.

Lemma int_wrap_id z : is_int z -> int_wrap z = z.
Proof.
  unfold is_int, INT_MIN, INT_MAX, int_wrap. intros Hz.
  rewrite Z.mod_small by lia. lia.
Qed.

Lemma int_wrap_range z : is_int (int_wrap z).
Proof.
  unfold is_int, INT_MIN, INT_MAX, int_wrap.
  pose proof (Z.mod_pos_bound (z + 2 ^ 31) (2 ^ 32)). lia.
Qed.

Lemma int_wrap_add_l a b : int_wrap (int_wrap a + b) = int_wrap (a + b).
Proof.
  unfold int_wrap.
  replace ((a + 2 ^ 31) mod 2 ^ 32 - 2 ^ 31 + b + 2 ^ 31)
    with ((a + 2 ^ 31) mod 2 ^ 32 + b) by lia.
  replace (a + b + 2 ^ 31) with ((a + 2 ^ 31) + b) by lia.
  by rewrite Zplus_mod_idemp_l.
Qed.

Lemma size_wrap_id z : 0 <= z < SIZE_MOD -> size_wrap z = z.
Proof. intros Hz. unfold size_wrap. by rewrite Z.mod_small. Qed.

End MachineIntFacts.
Export MachineIntFacts.

(** ** Facts about the decimal text *)

Module TextFacts.

Lemma chain_text_cons arrow v vs :
  chain_text arrow (v :: vs) = (fmt_d v ++ arrow) ++ chain_text arrow vs.
Proof. done. Qed.

Lemma digit_value_digit_char d : 0 <= d < 10 -> digit_value (digit_char d) = d.
Proof.
  intros Hd.
  assert (d = 0 ∨ d = 1 ∨ d = 2 ∨ d = 3 ∨ d = 4 ∨ d = 5 ∨ d = 6 ∨ d = 7
          ∨ d = 8 ∨ d = 9) as Hcases by lia.
  repeat (destruct Hcases as [->|Hcases]; [reflexivity|]). by subst d.
Qed.

Lemma read_dec_digits fuel : ∀ n acc,
  0 <= n < 2 ^ Z.of_nat fuel ->
  read_from 0 (dec_digits fuel n acc) = read_from n acc.
Proof.
  induction fuel as [|f IH]; intros n acc Hn.
  - change (2 ^ Z.of_nat 0) with 1 in Hn. by replace n with 0 by lia.
  - cbn [dec_digits]. rewrite Nat2Z.inj_succ, Z.pow_succ_r in Hn by lia.
    destruct (Z.ltb_spec n 10).
    + unfold read_from. cbn [fold_left].
      rewrite digit_value_digit_char by lia. f_equal.
    + rewrite IH.
      * unfold read_from. cbn [fold_left].
        rewrite digit_value_digit_char by (apply Z.mod_pos_bound; lia).
        f_equal. pose proof (Z.div_mod n 10). lia.
      * split; [apply Z.div_pos; lia|].
        apply Z.div_lt_upper_bound; lia.
Qed.

(** [dec_unsigned] writes the decimal digits of its argument. *)
Lemma read_dec_unsigned n : 0 <= n -> read_unsigned (dec_unsigned n) = n.
Proof.
  intros Hn. unfold read_unsigned, dec_unsigned. rewrite read_dec_digits; [done|].
  split; [done|]. rewrite Nat2Z.inj_succ, Z2Nat.id by apply Z.log2_nonneg.
  destruct (Z.eq_dec n 0) as [->|Hne]; [done|].
  apply Z.log2_spec. lia.
Qed.

(** [fmt_d] at the ends of the range of [int], and at zero. *)
Lemma fmt_d_examples :
  fmt_d 0 = str "0" ∧ fmt_d 2147483647 = str "2147483647"
  ∧ fmt_d (-2147483648) = str "-2147483648" ∧ fmt_d (-1) = str "-1".
Proof. repeat split. Qed.

Lemma dec_digits_length k : ∀ fuel n acc,
  (1 <= k)%nat -> 0 <= n < 10 ^ Z.of_nat k ->
  (length (dec_digits fuel n acc) <= k + length acc)%nat.
Proof.
  induction k as [|k IH]; intros fuel n acc Hk Hn; [lia|].
  destruct fuel as [|f]; simpl; [lia|].
  destruct (Z.ltb_spec n 10) as [Hlt|Hge]; simpl; [lia|].
  destruct k as [|k'].
  { simpl in Hn. lia. }
  etrans.
  - apply (IH f (n / 10) (digit_char (n mod 10) :: acc)); [lia|].
    split; [apply Z.div_pos; lia|].
    apply Z.div_lt_upper_bound; [lia|].
    rewrite <- Z.pow_succ_r by lia. rewrite <- Nat2Z.inj_succ. lia.
  - simpl. lia.
Qed.

Lemma fmt_d_length v : is_int v -> (length (fmt_d v) <= 11)%nat.
Proof.
  unfold is_int, INT_MIN, INT_MAX, fmt_d, dec_unsigned. intros Hv.
  destruct (Z.ltb_spec v 0); simpl length.
  - pose proof (dec_digits_length 10 (S (Z.to_nat (Z.log2 (- v)))) (- v) []).
    simpl length in *. change (10 ^ Z.of_nat 10) with 10000000000 in *. lia.
  - pose proof (dec_digits_length 10 (S (Z.to_nat (Z.log2 v))) v []).
    simpl length in *. change (10 ^ Z.of_nat 10) with 10000000000 in *. lia.
Qed.

End TextFacts.
Export TextFacts.

(** ** Facts about chains *)

Module ReprFacts.

Lemma lseg_start h p cs q : lseg h p cs q -> cs ≠ [] -> p = start cs.
Proof. destruct cs as [|[l v] rest]; simpl; [done|]. by intros [-> _]. Qed.

Lemma chain_start h p cs : chain h p cs -> p = start cs.
Proof.
  destruct cs as [|[l v] rest]; simpl; [done|]. by intros [-> _].
Qed.

Lemma lseg_app h p c1 c2 q :
  lseg h p (c1 ++ c2) q ↔ ∃ m, lseg h p c1 m ∧ lseg h m c2 q.
Proof.
  revert p. induction c1 as [|[l v] c1 IH]; intros p; simpl.
  - split; [intros H; by exists p|]. by intros (m & -> & H).
  - split.
    + intros (-> & n & Hl & Hrest). apply IH in Hrest as (m & H1 & H2).
      exists m. split; [|done]. split; [done|]. by exists n.
    + intros (m & (-> & n & Hl & H1) & H2). split; [done|].
      exists n. split; [done|]. apply IH. by exists m.
Qed.

Lemma lseg_agree h h' p cs q :
  lseg h p cs q -> (∀ l, l ∈ cs.*1 -> h' !! l = h !! l) -> lseg h' p cs q.
Proof.
  revert p. induction cs as [|[l v] cs IH]; intros p; simpl; [done|].
  intros (-> & n & Hl & Hrest) Hsame. split; [done|]. exists n. split.
  - rewrite Hsame; [done|]. simpl. apply list_elem_of_here.
  - apply IH; [done|]. intros l' Hl'. apply Hsame. simpl. by apply list_elem_of_further.
Qed.

Lemma lseg_in_heap h p cs q l :
  lseg h p cs q -> l ∈ cs.*1 -> ∃ n, h !! l = Some (Onode n).
Proof.
  revert p. induction cs as [|[l' v] cs IH]; intros p; simpl.
  - intros _ Hin. by apply elem_of_nil in Hin.
  - intros (-> & n & Hl & Hrest) Hin.
    apply elem_of_cons in Hin as [->|Hin]; [by eexists|]. by eapply IH.
Qed.

Lemma chain_functional h p c1 c2 : chain h p c1 -> chain h p c2 -> c1 = c2.
Proof.
  unfold chain. revert p c2.
  induction c1 as [|[l v] c1 IH]; intros p [|[l' v'] c2]; simpl; try done.
  - by intros -> [? _].
  - by intros [-> _] ?.
  - intros (-> & n & Hl & H1) (Heq & n' & Hl' & H2).
    injection Heq as <-. rewrite Hl in Hl'. injection Hl' as <- <-.
    f_equal. by eapply IH.
Qed.

Lemma chain_NoDup h p cs : chain h p cs -> NoDup cs.*1.
Proof.
  revert p. induction cs as [|[l v] cs IH]; intros p Hc; simpl.
  - constructor.
  - pose proof Hc as (-> & n & Hl & Hrest). constructor; [|by eapply IH].
    intros Hin. apply list_elem_of_fmap in Hin as ([l' v'] & Heq & Hin).
    simpl in Heq. subst l'.
    apply list_elem_of_split in Hin as (r1 & r2 & ->).
    apply lseg_app in Hrest as (m & _ & Hm).
    pose proof Hm as [-> _].
    pose proof (chain_functional _ _ _ _ Hc Hm) as Heq.
    apply (f_equal length) in Heq. simpl in Heq.
    rewrite length_app in Heq. simpl in Heq. lia.
Qed.

Lemma chain_length_le h p cs : chain h p cs -> (length cs <= size h)%nat.
Proof.
  intros Hc. pose proof (chain_NoDup _ _ _ Hc) as Hnd.
  rewrite <- (length_fmap fst cs).
  rewrite <- (size_list_to_set (C := gset loc) _ Hnd), <- size_dom.
  apply subseteq_size. intros l Hl. apply elem_of_list_to_set in Hl.
  destruct (lseg_in_heap _ _ _ _ _ Hc Hl) as [n Hn].
  apply elem_of_dom. by eexists.
Qed.

(** The list object itself is not one of the nodes. *)
Lemma list_at_not_node h l cs :
  list_at h (Some l) cs -> l ∉ cs.*1.
Proof.
  intros (l' & Heq & Hl & Hc) Hin. simplify_eq.
  destruct (lseg_in_heap _ _ _ _ _ Hc Hin) as [n Hn]. congruence.
Qed.

Lemma list_at_fuel h list cs : list_at h list cs -> (length cs < S (size h))%nat.
Proof.
  intros (l & _ & _ & Hc). pose proof (chain_length_le _ _ _ Hc). lia.
Qed.

End ReprFacts.
Export ReprFacts.

(** ** Running the primitives *)

Module Exec.

Lemma next_alloc_eq w : next_alloc w = (alloc_ok w, alloc_rest w).
Proof. unfold alloc_ok, alloc_rest. by destruct (next_alloc w). Qed.

Lemma never_fails_ok w : never_fails w -> alloc_ok w = true.
Proof.
  unfold never_fails, alloc_ok, next_alloc.
  destruct (mallocs w) as [|b rest]; [done|]. by inversion 1.
Qed.

Lemma never_fails_rest w : never_fails w -> Forall (eq true) (alloc_rest w).
Proof.
  unfold never_fails, alloc_rest, next_alloc.
  destruct (mallocs w) as [|b rest]; [done|]. by inversion 1.
Qed.

Lemma bind_ok {A B} (m : M A) (k : A -> M B) w a w' :
  m w = Ok a w' -> bind m k w = k a w'.
Proof. unfold bind. by intros ->. Qed.

Lemma bind_exit {A B} (m : M A) (k : A -> M B) w c w' :
  m w = Exit c w' -> bind m k w = Exit c w'.
Proof. unfold bind. by intros ->. Qed.

Lemma load_node_eq w l n :
  heap w !! l = Some (Onode n) -> load_node (Some l) w = Ok n w.
Proof. unfold load_node. by intros ->. Qed.

Lemma load_list_eq w l t :
  heap w !! l = Some (Olist t) -> load_list (Some l) w = Ok t w.
Proof. unfold load_list. by intros ->. Qed.

Lemma store_next_eq w l n q :
  heap w !! l = Some (Onode n) ->
  store_next (Some l) q w
  = Ok tt (set_heap (<[l := Onode (mk_node (value n) q)]> (heap w)) w).
Proof. unfold store_next. by intros ->. Qed.

Lemma store_head_eq w l t q :
  heap w !! l = Some (Olist t) ->
  store_head (Some l) q w
  = Ok tt (set_heap (<[l := Olist (mk_list q)]> (heap w)) w).
Proof. unfold store_head. by intros ->. Qed.

Lemma free_eq w l o :
  heap w !! l = Some o ->
  free (Some l) w = Ok tt (set_heap (delete l (heap w)) w).
Proof. unfold free. by intros ->. Qed.

Lemma malloc_eq w init :
  alloc_ok w = true ->
  malloc init w
  = Ok (Some (fresh (dom (heap w))))
      (World (<[fresh (dom (heap w)) := init]> (heap w)) (alloc_rest w)
         (stdout w) (stderr w)).
Proof. unfold malloc. rewrite next_alloc_eq. by intros ->. Qed.

Lemma malloc_fail w init :
  alloc_ok w = false ->
  malloc init w
  = Ok NULL (World (heap w) (alloc_rest w) (stdout w) (stderr w)).
Proof. unfold malloc. rewrite next_alloc_eq. by intros ->. Qed.

Lemma fresh_not_in_heap (h : gmap loc object) : h !! fresh (dom h) = None.
Proof. apply not_elem_of_dom, is_fresh. Qed.

Lemma create_node_eq w v :
  alloc_ok w = true ->
  create_node v w
  = Ok (Some (fresh (dom (heap w))))
      (World (<[fresh (dom (heap w)) := Onode (mk_node v NULL)]> (heap w))
         (alloc_rest w) (stdout w) (stderr w)).
Proof. intros Hok. unfold create_node. by rewrite (bind_ok _ _ _ _ _ (malloc_eq _ _ Hok)). Qed.

Lemma create_node_fail w v :
  alloc_ok w = false ->
  create_node v w
  = Exit EXIT_FAILURE
      (World (heap w) (alloc_rest w) (stdout w)
         (stderr w ++ str "create_node: malloc failed" ++ newline)).
Proof. intros Hok. unfold create_node. by rewrite (bind_ok _ _ _ _ _ (malloc_fail _ _ Hok)). Qed.

End Exec.
Export Exec.

(** ** What the loops compute on a chain *)

Module Loops.

Lemma last_cell_lookup h p c1 ll lv :
  chain h p (c1 ++ [(ll, lv)]) ->
  lseg h p c1 (Some ll) ∧ h !! ll = Some (Onode (mk_node lv NULL)).
Proof.
  intros Hc. apply lseg_app in Hc as (m & H1 & H2).
  destruct H2 as (-> & n & Hl & Hn). simpl in Hn. subst n. done.
Qed.

Lemma list_length_loop_spec w cs : ∀ fuel p count,
  chain (heap w) p cs -> (length cs < fuel)%nat -> is_int count ->
  list_length_loop fuel p count w
  = Ok (int_wrap (count + Z.of_nat (length cs))) w.
Proof.
  induction cs as [|[l v] cs IH]; intros fuel p count Hc Hfuel Hcount;
    (destruct fuel as [|f]; [simpl in Hfuel; lia|]); simpl.
  - red in Hc. simpl in Hc. subst p.
    rewrite Z.add_0_r, int_wrap_id; done.
  - destruct Hc as (-> & n & Hl & Hrest).
    rewrite (bind_ok _ _ _ _ _ (load_node_eq _ _ _ Hl)). simpl.
    rewrite (IH f n (int_wrap (count + 1))); [|done|simpl in Hfuel; lia|apply int_wrap_range].
    rewrite int_wrap_add_l. do 2 f_equal. lia.
Qed.

Lemma list_get_elem_at_loop_found w cs : ∀ fuel p pos k l v,
  chain (heap w) p cs -> (length cs < fuel)%nat ->
  cs !! k = Some (l, v) -> is_int pos -> is_int (pos + Z.of_nat k) ->
  list_get_elem_at_loop fuel p pos (pos + Z.of_nat k) w = Ok v w.
Proof.
  induction cs as [|[l0 v0] cs IH];
    intros fuel p pos k l v Hc Hfuel Hk Hpos Hint; [done|].
  destruct fuel as [|f]; [simpl in Hfuel; lia|].
  destruct Hc as (-> & n & Hl & Hrest). simpl.
  rewrite (bind_ok _ _ _ _ _ (load_node_eq _ _ _ Hl)). simpl.
  destruct k as [|k]; simpl in Hk.
  - injection Hk as -> ->. by rewrite Z.add_0_r, Z.eqb_refl.
  - destruct (Z.eqb_spec pos (pos + Z.of_nat (S k))) as [Heq|_]; [lia|].
    assert (Hnext : is_int (pos + 1)) by (unfold is_int in *; lia).
    rewrite (int_wrap_id _ Hnext).
    replace (pos + Z.of_nat (S k)) with (pos + 1 + Z.of_nat k) in * by lia.
    eapply IH; [done|simpl in Hfuel; lia|done|done|done].
Qed.

Lemma add_to_back_loop_spec w c1 : ∀ fuel p ll lv,
  chain (heap w) p (c1 ++ [(ll, lv)]) -> (length c1 < fuel)%nat ->
  add_to_back_loop fuel p w = Ok (Some ll) w.
Proof.
  induction c1 as [|[l v] c1 IH]; intros fuel p ll lv Hc Hfuel;
    (destruct fuel as [|f]; [simpl in Hfuel; lia|]); simpl.
  - destruct Hc as (-> & n & Hl & Hn). simpl in Hn. subst n.
    by rewrite (bind_ok _ _ _ _ _ (load_node_eq _ _ _ Hl)).
  - destruct Hc as (-> & n & Hl & Hrest).
    rewrite (bind_ok _ _ _ _ _ (load_node_eq _ _ _ Hl)). simpl.
    assert (n = start (c1 ++ [(ll, lv)])) as Hn.
    { eapply lseg_start; [done|]. by destruct c1. }
    destruct n as [l'|]; [|by destruct c1 as [|[??]?]].
    eapply IH; [done|simpl in Hfuel; lia].
Qed.

Lemma int_wrap_succ_le pos : is_int pos -> int_wrap (pos + 1) <= pos + 1.
Proof.
  intros Hpos. destruct (Z.eq_dec pos INT_MAX) as [->|Hne]; [by vm_compute|].
  rewrite int_wrap_id; [lia|]. unfold is_int in *. lia.
Qed.

(** The search runs off the end of a chain that is shorter than
    [index - 1]. *)
Lemma seek_loop_off_end w cs : ∀ fuel p pos index,
  chain (heap w) p cs -> (length cs < fuel)%nat -> is_int pos ->
  pos + Z.of_nat (length cs) <= index - 1 ->
  seek_loop fuel p pos index w = Ok NULL w.
Proof.
  induction cs as [|[l v] cs IH]; intros fuel p pos index Hc Hfuel Hpos Hlen;
    (destruct fuel as [|f]; [simpl in Hfuel; lia|]); simpl.
  - red in Hc. simpl in Hc. by subst p.
  - destruct Hc as (-> & n & Hl & Hrest). simpl in Hlen.
    destruct (Z.ltb_spec pos (index - 1)); [|lia].
    rewrite (bind_ok _ _ _ _ _ (load_node_eq _ _ _ Hl)). simpl.
    apply IH; [done|simpl in Hfuel; lia|apply int_wrap_range|].
    pose proof (int_wrap_succ_le pos Hpos). lia.
Qed.

(** The search stops on the node at position [index - 1]. *)
Lemma seek_loop_found w c1 : ∀ fuel p pos index lc,
  lseg (heap w) p c1 (Some lc) -> (length c1 < fuel)%nat -> is_int pos ->
  pos + Z.of_nat (length c1) = index - 1 -> is_int index ->
  seek_loop fuel p pos index w = Ok (Some lc) w.
Proof.
  induction c1 as [|[l v] c1 IH]; intros fuel p pos index lc Hs Hfuel Hpos Hlen Hidx;
    (destruct fuel as [|f]; [simpl in Hfuel; lia|]); simpl.
  - simpl in Hs. subst p. simpl in Hlen.
    destruct (Z.ltb_spec pos (index - 1)); [lia|done].
  - destruct Hs as (-> & n & Hl & Hrest). simpl in Hlen.
    destruct (Z.ltb_spec pos (index - 1)); [|lia].
    rewrite (bind_ok _ _ _ _ _ (load_node_eq _ _ _ Hl)). simpl.
    assert (Hnext : is_int (pos + 1)) by (unfold is_int in *; lia).
    rewrite (int_wrap_id _ Hnext).
    apply IH; [done|simpl in Hfuel; lia|done|lia|done].
Qed.

Lemma remove_from_back_loop_spec w c1 : ∀ fuel p lc vc ll lv,
  chain (heap w) p (c1 ++ [(lc, vc); (ll, lv)]) -> (length c1 < fuel)%nat ->
  remove_from_back_loop fuel p w = Ok (Some lc) w.
Proof.
  induction c1 as [|[l v] c1 IH]; intros fuel p lc vc ll lv Hc Hfuel;
    (destruct fuel as [|f]; [simpl in Hfuel; lia|]); simpl.
  - destruct Hc as (-> & n & Hl & -> & n' & Hl' & Hn). simpl in Hn. subst n'.
    rewrite (bind_ok _ _ _ _ _ (load_node_eq _ _ _ Hl)). simpl.
    by rewrite (bind_ok _ _ _ _ _ (load_node_eq _ _ _ Hl')).
  - pose proof Hc as (-> & n & Hl & Hrest).
    rewrite (bind_ok _ _ _ _ _ (load_node_eq _ _ _ Hl)). simpl.
    assert (∃ l1 v1 l2 v2 rest,
               c1 ++ [(lc, vc); (ll, lv)] = (l1, v1) :: (l2, v2) :: rest)
      as (l1 & v1 & l2 & v2 & rest & Heq).
    { destruct c1 as [|[l1 v1] [|[l2 v2] c1]]; simpl; by repeat eexists. }
    pose proof Hrest as Hrest'. rewrite Heq in Hrest'.
    destruct Hrest' as (-> & n1 & Hl1 & -> & _).
    rewrite (bind_ok _ _ _ _ _ (load_node_eq _ _ _ Hl1)). simpl.
    eapply IH; [done|simpl in Hfuel; lia].
Qed.

Lemma list_print_loop_spec cs : ∀ fuel p w,
  chain (heap w) p cs -> (length cs < fuel)%nat ->
  list_print_loop fuel p w
  = Ok tt (World (heap w) (mallocs w)
             (stdout w ++ chain_text (str " ->") cs.*2) (stderr w)).
Proof.
  induction cs as [|[l v] cs IH]; intros fuel p w Hc Hfuel;
    (destruct fuel as [|f]; [simpl in Hfuel; lia|]); simpl.
  - red in Hc. simpl in Hc. subst p.
    change (chain_text ?a []) with (@nil ascii).
    rewrite (right_id_L [] (++)). by destruct w.
  - destruct Hc as (-> & n & Hl & Hrest).
    rewrite (bind_ok _ _ _ _ _ (load_node_eq _ _ _ Hl)). simpl.
    unfold bind at 1. unfold printf at 1.
    rewrite IH; [|done|simpl in Hfuel; lia]. simpl.
    change (chain_text ?a (v :: ?r)) with ((fmt_d v ++ a) ++ chain_text a r).
    by rewrite <- !(assoc_L (++)).
Qed.

End Loops.
Export Loops.

(** ** What the operations do to a well-formed list *)

Module Ops.

Ltac run H := rewrite (bind_ok _ _ _ _ _ H); simpl.

#[local] Arguments bind : simpl never.
#[local] Arguments malloc : simpl never.
#[local] Arguments free : simpl never.
#[local] Arguments load_node : simpl never.
#[local] Arguments load_list : simpl never.
#[local] Arguments store_next : simpl never.
#[local] Arguments store_head : simpl never.
#[local] Arguments create_node : simpl never.
#[local] Arguments with_fuel : simpl never.

Lemma start_snoc (c1 : cells) c : start (c1 ++ [c]) ≠ None.
Proof. by destruct c1 as [|[??]?], c. Qed.

Lemma start_app (c1 c2 : cells) : c1 ≠ [] -> start (c1 ++ c2) = start c1.
Proof. by destruct c1 as [|[??]?]. Qed.

Lemma list_alloc_spec w :
  alloc_ok w = true ->
  ∃ l h', list_alloc w = Ok (Some l) (World h' (alloc_rest w) (stdout w) (stderr w))
          ∧ list_at h' (Some l) [].
Proof.
  intros Hok. exists (fresh (dom (heap w))), (<[fresh (dom (heap w)) := Olist (mk_list NULL)]> (heap w)).
  split.
  - unfold list_alloc. by run (malloc_eq w (Olist (mk_list NULL)) Hok).
  - eexists. split; [done|]. split; [by rewrite lookup_insert_eq|done].
Qed.

Lemma list_alloc_fail w :
  alloc_ok w = false ->
  list_alloc w
  = Ok NULL (World (heap w) (alloc_rest w) (stdout w)
               (stderr w ++ str "list_alloc: malloc failed" ++ newline)).
Proof.
  intros Hok. unfold list_alloc. by run (malloc_fail w (Olist (mk_list NULL)) Hok).
Qed.

Lemma list_length_spec w list cs :
  list_at (heap w) list cs ->
  list_length list w = Ok (int_wrap (Z.of_nat (length cs))) w.
Proof.
  intros Hat. pose proof (list_at_fuel _ _ _ Hat) as Hfuel.
  destruct Hat as (l & -> & Hl & Hc). unfold list_length.
  run (load_list_eq _ _ _ Hl). unfold with_fuel.
  by rewrite (list_length_loop_spec w cs _ _ 0 Hc Hfuel).
Qed.

Lemma list_get_elem_at_spec w list cs k l v :
  list_at (heap w) list cs -> cs !! k = Some (l, v) ->
  is_int (Z.of_nat k + 1) ->
  list_get_elem_at list (Z.of_nat k + 1) w = Ok v w.
Proof.
  intros Hat Hk Hint. pose proof (list_at_fuel _ _ _ Hat) as Hfuel.
  destruct Hat as (l0 & -> & Hl & Hc). unfold list_get_elem_at.
  destruct (Z.ltb_spec (Z.of_nat k + 1) 1); [lia|].
  run (load_list_eq _ _ _ Hl). unfold with_fuel.
  rewrite Z.add_comm.
  apply (list_get_elem_at_loop_found w cs _ _ 1 k l v Hc Hfuel Hk); [done|].
  by rewrite Z.add_comm.
Qed.

Lemma list_add_to_back_spec w list cs v :
  list_at (heap w) list cs -> alloc_ok w = true ->
  ∃ new h',
    list_add_to_back list v w
    = Ok tt (World h' (alloc_rest w) (stdout w) (stderr w))
    ∧ list_at h' list (cs ++ [(new, v)]).
Proof.
  intros (l0 & -> & Hl0 & Hc) Hok.
  set (new := fresh (dom (heap w))).
  assert (Hnew : heap w !! new = None) by apply fresh_not_in_heap.
  assert (Hne : new ≠ l0) by congruence.
  assert (Hfresh : new ∉ cs.*1).
  { intros Hin. destruct (lseg_in_heap _ _ _ _ _ Hc Hin) as [n Hn]. congruence. }
  exists new. unfold list_add_to_back.
  run (create_node_eq w v Hok). fold new.
  set (h1 := <[new := Onode (mk_node v NULL)]> (heap w)).
  set (w1 := World h1 (alloc_rest w) (stdout w) (stderr w)).
  assert (Hl1 : heap w1 !! l0 = Some (Olist (mk_list (start cs)))).
  { simpl. unfold h1. by rewrite lookup_insert_ne. }
  assert (Hc1 : chain h1 (start cs) cs).
  { eapply lseg_agree; [exact Hc|]. intros l Hl. unfold h1.
    rewrite lookup_insert_ne; [done|]. congruence. }
  run (load_list_eq _ _ _ Hl1).
  destruct cs as [|c cs'] using rev_ind; simpl.
  - rewrite (store_head_eq _ _ _ _ Hl1). eexists. split; [done|].
    exists l0. split; [done|]. simpl. split; [by rewrite lookup_insert_eq|].
    split; [done|]. exists NULL. split; [|done].
    rewrite lookup_insert_ne by done. unfold h1. by rewrite lookup_insert_eq.
  - clear IHcs'. destruct c as [ll lv].
    destruct (start (cs' ++ [(ll, lv)])) as [s|] eqn:Hs;
      [|by apply start_snoc in Hs].
    assert (Hfuel : (length cs' < S (size (heap w1)))%nat).
    { pose proof (chain_length_le _ _ _ Hc1) as Hle.
      rewrite length_app in Hle. simpl in *. lia. }
    assert (Hloop : with_fuel (λ fuel, add_to_back_loop fuel (Some s)) w1
                    = Ok (Some ll) w1)
      by exact (add_to_back_loop_spec w1 cs' _ _ ll lv Hc1 Hfuel).
    run Hloop.
    apply last_cell_lookup in Hc1 as [Hseg Hll].
    rewrite (store_next_eq w1 ll _ (Some new) Hll). simpl.
    eexists. split; [done|].
    assert (Hnd : NoDup (cs' ++ [(ll, lv)]).*1) by by eapply chain_NoDup.
    rewrite fmap_app in Hnd, Hfresh. simpl in Hnd, Hfresh.
    apply NoDup_app in Hnd as (_ & Hdisj & _).
    assert (ll ≠ new) by set_solver.
    assert (ll ≠ l0).
    { intros ->. simpl in Hl1. congruence. }
    exists l0. split; [done|]. rewrite <- (assoc_L (++)).
    assert (Hst : start (cs' ++ [(ll, lv)] ++ [(new, v)]) = Some s).
    { rewrite <- Hs. by destruct cs' as [|[??]?]. }
    rewrite Hst. split; [by rewrite lookup_insert_ne|].
    apply lseg_app. exists (Some ll). split.
    + eapply lseg_agree; [exact Hseg|]. intros l Hl.
      rewrite lookup_insert_ne; [done|]. intros Heq. apply (Hdisj l Hl).
      rewrite <- Heq. apply list_elem_of_here.
    + split; [done|]. exists (Some new). split; [by rewrite lookup_insert_eq|].
      split; [done|]. exists NULL. split; [|done].
      rewrite lookup_insert_ne by done. unfold h1. by rewrite lookup_insert_eq.
Qed.

Lemma list_add_at_index_out_of_range w list cs v index :
  list_at (heap w) list cs ->
  index < 1 ∨ index > Z.of_nat (length cs) + 1 ->
  list_add_at_index list v index w = Ok tt w.
Proof.
  intros Hat Hidx. pose proof (list_at_fuel _ _ _ Hat) as Hfuel.
  destruct Hat as (l0 & -> & Hl0 & Hc). unfold list_add_at_index.
  destruct (Z.ltb_spec index 1); [done|].
  destruct (Z.eqb_spec index 1); [lia|].
  run (load_list_eq _ _ _ Hl0).
  assert (Hloop : with_fuel (λ fuel, seek_loop fuel (start cs) 1 index) w
                  = Ok NULL w).
  { apply (seek_loop_off_end w cs _ _ 1 index Hc Hfuel); [done|lia]. }
  by run Hloop.
Qed.

Lemma list_remove_from_back_spec w list cs ll lv :
  list_at (heap w) list (cs ++ [(ll, lv)]) ->
  ∃ h', list_remove_from_back list w = Ok lv (set_heap h' w)
        ∧ list_at h' list cs.
Proof.
  intros Hat. pose proof (list_at_fuel _ _ _ Hat) as Hfuel.
  pose proof Hat as (l0 & -> & Hl0 & Hc).
  pose proof (list_at_not_node _ _ _ Hat) as Hl0n.
  pose proof (chain_NoDup _ _ _ Hc) as Hnd.
  unfold list_remove_from_back. run (load_list_eq _ _ _ Hl0).
  destruct (start (cs ++ [(ll, lv)])) as [s|] eqn:Hs;
    [|by apply start_snoc in Hs].
  destruct cs as [|c cs' _] using rev_ind.
  - (* a single node *)
    simpl in Hs. injection Hs as <-.
    destruct Hc as (_ & n & Hll & Hn). simpl in Hn. subst n.
    run (load_node_eq _ _ _ Hll).
    run (free_eq _ _ _ Hll).
    assert (Hl0' : heap (set_heap (delete ll (heap w)) w) !! l0
                   = Some (Olist (mk_list (Some ll)))).
    { simpl. rewrite lookup_delete_ne; [done|]. intros ->. congruence. }
    run (store_head_eq _ _ _ NULL Hl0').
    eexists. split; [done|]. exists l0. split; [done|].
    split; [by rewrite lookup_insert_eq|done].
  - (* the last of several *)
    destruct c as [lc vc]. rewrite <- (assoc_L (++)) in *. simpl in *.
    pose proof Hc as Hc'. apply lseg_app in Hc' as (m & Hseg & Htail).
    destruct Htail as (-> & n & Hlc & -> & n' & Hll & Hn'). simpl in Hn'.
    subst n'.
    assert (∃ hn, heap w !! s = Some (Onode hn) ∧ next hn ≠ None)
      as (hn & Hhn & Hnext).
    { destruct cs' as [|[l1 v1] cs'].
      - simpl in Hs. injection Hs as <-. by eexists.
      - simpl in Hs. injection Hs as <-.
        destruct Hseg as (_ & n1 & Hl1 & Hrest). eexists. split; [done|].
        simpl. intros ->.
        destruct cs' as [|[??]?]; simpl in Hrest; [done|by destruct Hrest]. }
    run (load_node_eq _ _ _ Hhn).
    destruct (next hn) as [hn'|]; [|done].
    assert (Hloop : with_fuel (λ fuel, remove_from_back_loop fuel (Some s)) w
                    = Ok (Some lc) w).
    { apply (remove_from_back_loop_spec w cs' _ _ lc vc ll lv Hc).
      rewrite length_app in Hfuel. simpl in Hfuel. lia. }
    run Hloop. run (load_node_eq _ _ _ Hlc). run (load_node_eq _ _ _ Hll).
    run (store_next_eq _ _ _ NULL Hlc).
    rewrite !fmap_app in Hnd, Hl0n. simpl in Hnd, Hl0n.
    apply NoDup_app in Hnd as (_ & Hdisj & Hnd2).
    assert (lc ≠ ll).
    { intros ->. apply NoDup_cons in Hnd2 as [Hnd2 _]. apply Hnd2, list_elem_of_here. }
    assert (Hll' : heap (set_heap (<[lc := Onode (mk_node vc NULL)]> (heap w)) w)
                   !! ll = Some (Onode (mk_node lv NULL))).
    { simpl. by rewrite lookup_insert_ne. }
    run (free_eq _ _ _ Hll').
    eexists. split; [done|]. exists l0. split; [done|].
    assert (Hst : start (cs' ++ [(lc, vc)]) = Some s).
    { rewrite <- Hs. by destruct cs' as [|[??]?]. }
    rewrite Hst. split.
    + rewrite lookup_delete_ne, lookup_insert_ne; [done| |].
      * intros ->. apply Hl0n. apply elem_of_app. right. apply list_elem_of_here.
      * intros ->. apply Hl0n. apply elem_of_app. right.
        apply list_elem_of_further, list_elem_of_here.
    + apply lseg_app. exists (Some lc). split.
      * eapply lseg_agree; [exact Hseg|]. intros l Hl.
        rewrite lookup_delete_ne, lookup_insert_ne; [done| |].
        -- intros Heq. apply (Hdisj l Hl). rewrite <- Heq. apply list_elem_of_here.
        -- intros Heq. apply (Hdisj l Hl). rewrite <- Heq.
           apply list_elem_of_further, list_elem_of_here.
      * split; [done|]. exists NULL. split; [|done].
        rewrite lookup_delete_ne by done. by rewrite lookup_insert_eq.
Qed.

Lemma list_remove_at_index_spec w list c1 lc vc lr vr c2 index :
  list_at (heap w) list (c1 ++ (lc, vc) :: (lr, vr) :: c2) ->
  index = Z.of_nat (length c1) + 2 -> is_int index ->
  ∃ h', list_remove_at_index list index w = Ok vr (set_heap h' w)
        ∧ list_at h' list (c1 ++ (lc, vc) :: c2).
Proof.
  intros Hat Hidx Hint. pose proof (list_at_fuel _ _ _ Hat) as Hfuel.
  pose proof Hat as (l0 & -> & Hl0 & Hc).
  pose proof (list_at_not_node _ _ _ Hat) as Hl0n.
  pose proof (chain_NoDup _ _ _ Hc) as Hnd.
  unfold list_remove_at_index. run (load_list_eq _ _ _ Hl0).
  destruct (start (c1 ++ (lc, vc) :: (lr, vr) :: c2)) as [s|] eqn:Hs;
    [|by destruct c1 as [|[??]?]].
  destruct (Z.ltb_spec index 1); [lia|].
  destruct (Z.eqb_spec index 1); [lia|].
  pose proof Hc as Hc'. apply lseg_app in Hc' as (m & Hseg & Htail).
  destruct Htail as (-> & nc & Hlc & -> & nr & Hlr & Hc2).
  assert (Hloop : with_fuel (λ fuel, seek_loop fuel (Some s) 1 index) w
                  = Ok (Some lc) w).
  { apply (seek_loop_found w c1 _ _ 1 index lc Hseg); [|done|lia|done].
    rewrite length_app in Hfuel. lia. }
  run Hloop. run (load_node_eq _ _ _ Hlc). run (load_node_eq _ _ _ Hlr).
  run (store_next_eq _ _ _ nr Hlc).
  rewrite !fmap_app in Hnd, Hl0n. simpl in Hnd, Hl0n.
  apply NoDup_app in Hnd as (_ & Hdisj & Hnd2).
  apply NoDup_cons in Hnd2 as [Hlc2 Hnd2].
  apply NoDup_cons in Hnd2 as [Hlr2 _].
  assert (lc ≠ lr) by (intros ->; apply Hlc2, list_elem_of_here).
  assert (Hlr' : heap (set_heap (<[lc := Onode (mk_node vc nr)]> (heap w)) w)
                 !! lr = Some (Onode (mk_node vr nr))).
  { simpl. by rewrite lookup_insert_ne. }
  run (free_eq _ _ _ Hlr').
  eexists. split; [done|]. exists l0. split; [done|].
  assert (Hst : start (c1 ++ (lc, vc) :: c2) = Some s).
  { rewrite <- Hs. by destruct c1 as [|[??]?]. }
  rewrite Hst. split.
  - rewrite lookup_delete_ne, lookup_insert_ne; [done| |].
    + intros ->. apply Hl0n. apply elem_of_app. right. apply list_elem_of_here.
    + intros ->. apply Hl0n. apply elem_of_app. right.
      apply list_elem_of_further, list_elem_of_here.
  - apply lseg_app. exists (Some lc). split.
    + eapply lseg_agree; [exact Hseg|]. intros l Hl.
      rewrite lookup_delete_ne, lookup_insert_ne; [done| |].
      * intros Heq. apply (Hdisj l Hl). rewrite <- Heq. apply list_elem_of_here.
      * intros Heq. apply (Hdisj l Hl). rewrite <- Heq.
        apply list_elem_of_further, list_elem_of_here.
    + split; [done|]. exists nr. split.
      * rewrite lookup_delete_ne by done. by rewrite lookup_insert_eq.
      * eapply lseg_agree; [exact Hc2|]. intros l Hl.
        rewrite lookup_delete_ne, lookup_insert_ne; [done| |].
        -- intros ->. apply Hlc2. by apply list_elem_of_further.
        -- by intros ->.
Qed.

Lemma list_print_spec w list cs :
  list_at (heap w) list cs -> cs ≠ [] ->
  list_print list w
  = Ok tt (World (heap w) (mallocs w)
             (stdout w ++ chain_text (str " ->") cs.*2
                ++ str "NULL" ++ newline)
             (stderr w)).
Proof.
  intros Hat Hne. pose proof (list_at_fuel _ _ _ Hat) as Hfuel.
  destruct Hat as (l0 & -> & Hl0 & Hc). unfold list_print.
  run (load_list_eq _ _ _ Hl0).
  destruct (start cs) as [s|] eqn:Hs; [|by destruct cs as [|[??]?]].
  assert (Hloop : with_fuel (λ fuel, list_print_loop fuel (Some s)) w
                  = Ok tt (World (heap w) (mallocs w)
                             (stdout w ++ chain_text (str " ->") cs.*2)
                             (stderr w)))
    by exact (list_print_loop_spec cs _ _ w Hc Hfuel).
  run Hloop. unfold printf. simpl. by rewrite <- !(assoc_L (++)).
Qed.

(** list_add_to_front puts a new first node in front of the chain. *)
Lemma list_add_to_front_spec w list cs v :
  list_at (heap w) list cs -> alloc_ok w = true ->
  ∃ new h',
    list_add_to_front list v w
    = Ok tt (World h' (alloc_rest w) (stdout w) (stderr w))
    ∧ list_at h' list ((new, v) :: cs).
Proof.
  intros (l0 & -> & Hl0 & Hc) Hok.
  set (new := fresh (dom (heap w))).
  assert (Hnew : heap w !! new = None) by apply fresh_not_in_heap.
  assert (Hne : new ≠ l0) by congruence.
  exists new. unfold list_add_to_front.
  run (create_node_eq w v Hok). fold new.
  set (h1 := <[new := Onode (mk_node v NULL)]> (heap w)).
  set (w1 := World h1 (alloc_rest w) (stdout w) (stderr w)).
  assert (Hl1 : heap w1 !! l0 = Some (Olist (mk_list (start cs)))).
  { simpl. unfold h1. by rewrite lookup_insert_ne. }
  assert (Hnew1 : heap w1 !! new = Some (Onode (mk_node v NULL))).
  { simpl. unfold h1. by rewrite lookup_insert_eq. }
  run (load_list_eq _ _ _ Hl1).
  run (store_next_eq _ _ _ (start cs) Hnew1).
  assert (Hl2 : heap (set_heap (<[new := Onode (mk_node v (start cs))]> (heap w1)) w1)
                !! l0 = Some (Olist (mk_list (start cs)))).
  { simpl. by rewrite lookup_insert_ne. }
  rewrite (store_head_eq _ _ _ _ Hl2). simpl.
  eexists. split; [done|]. exists l0. split; [done|].
  split; [by rewrite lookup_insert_eq|]. split; [done|].
  exists (start cs). split.
  - rewrite lookup_insert_ne by done. by rewrite lookup_insert_eq.
  - eapply lseg_agree; [exact Hc|]. intros l Hl.
    assert (l ≠ new).
    { intros ->. destruct (lseg_in_heap _ _ _ _ _ Hc Hl) as [n Hn]. congruence. }
    assert (l ≠ l0).
    { intros ->. destruct (lseg_in_heap _ _ _ _ _ Hc Hl) as [n Hn]. congruence. }
    unfold h1. by rewrite !lookup_insert_ne.
Qed.

(** list_remove_from_front unlinks and frees the first node. *)
Lemma list_remove_from_front_spec w list l1 v1 cs :
  list_at (heap w) list ((l1, v1) :: cs) ->
  ∃ h', list_remove_from_front list w = Ok v1 (set_heap h' w)
        ∧ list_at h' list cs.
Proof.
  intros Hat. pose proof Hat as (l0 & -> & Hl0 & Hc).
  pose proof (list_at_not_node _ _ _ Hat) as Hl0n.
  pose proof (chain_NoDup _ _ _ Hc) as Hnd.
  simpl in Hl0, Hl0n, Hnd. destruct Hc as (_ & n & Hl1 & Hrest).
  pose proof (chain_start _ _ _ Hrest) as ->.
  apply NoDup_cons in Hnd as [Hl1n _].
  assert (l0 ≠ l1) by (intros ->; apply Hl0n, list_elem_of_here).
  unfold list_remove_from_front.
  run (load_list_eq _ _ _ Hl0). run (load_node_eq _ _ _ Hl1).
  run (store_head_eq _ _ _ (start cs) Hl0).
  assert (Hl1' : heap (set_heap (<[l0 := Olist (mk_list (start cs))]> (heap w)) w)
                 !! l1 = Some (Onode (mk_node v1 (start cs)))).
  { simpl. by rewrite lookup_insert_ne. }
  run (free_eq _ _ _ Hl1').
  eexists. split; [done|]. exists l0. split; [done|]. split.
  - rewrite lookup_delete_ne by done. by rewrite lookup_insert_eq.
  - eapply lseg_agree; [exact Hrest|]. intros l Hl.
    rewrite lookup_delete_ne by (by intros ->).
    rewrite lookup_insert_ne; [done|]. intros ->. apply Hl0n.
    by apply list_elem_of_further.
Qed.

(** list_add_at_index at a position from 2 to length + 1 links a new node
    behind the node at the position before. *)
Lemma list_add_at_index_spec w list c1 lc vc c2 v index :
  list_at (heap w) list (c1 ++ (lc, vc) :: c2) -> alloc_ok w = true ->
  index = Z.of_nat (length c1) + 2 -> is_int index ->
  ∃ new h',
    list_add_at_index list v index w
    = Ok tt (World h' (alloc_rest w) (stdout w) (stderr w))
    ∧ list_at h' list (c1 ++ (lc, vc) :: (new, v) :: c2).
Proof.
  intros Hat Hok Hidx Hint. pose proof (list_at_fuel _ _ _ Hat) as Hfuel.
  pose proof Hat as (l0 & -> & Hl0 & Hc).
  pose proof (list_at_not_node _ _ _ Hat) as Hl0n.
  pose proof (chain_NoDup _ _ _ Hc) as Hnd.
  set (new := fresh (dom (heap w))).
  assert (Hnew : heap w !! new = None) by apply fresh_not_in_heap.
  assert (Hfresh : ∀ l, l ∈ (c1 ++ (lc, vc) :: c2).*1 -> l ≠ new).
  { intros l Hl ->. destruct (lseg_in_heap _ _ _ _ _ Hc Hl) as [n Hn]. congruence. }
  exists new. unfold list_add_at_index.
  destruct (Z.ltb_spec index 1); [lia|].
  destruct (Z.eqb_spec index 1); [lia|].
  run (load_list_eq _ _ _ Hl0).
  destruct (start (c1 ++ (lc, vc) :: c2)) as [s|] eqn:Hs;
    [|by destruct c1 as [|[??]?]].
  pose proof Hc as Hc'. apply lseg_app in Hc' as (m & Hseg & Htail).
  destruct Htail as (-> & nc & Hlc & Hc2).
  assert (Hloop : with_fuel (λ fuel, seek_loop fuel (Some s) 1 index) w
                  = Ok (Some lc) w).
  { apply (seek_loop_found w c1 _ _ 1 index lc Hseg); [|done|lia|done].
    rewrite length_app in Hfuel. lia. }
  run Hloop. run (create_node_eq w v Hok). fold new.
  set (h1 := <[new := Onode (mk_node v NULL)]> (heap w)).
  set (w1 := World h1 (alloc_rest w) (stdout w) (stderr w)).
  rewrite !fmap_app in Hnd, Hl0n, Hfresh. simpl in Hnd, Hl0n, Hfresh.
  apply NoDup_app in Hnd as (_ & Hdisj & Hnd2).
  apply NoDup_cons in Hnd2 as [Hlc2 _].
  assert (lc ≠ new).
  { apply Hfresh, elem_of_app. right. apply list_elem_of_here. }
  assert (lc ≠ l0).
  { intros ->. apply Hl0n, elem_of_app. right. apply list_elem_of_here. }
  assert (new ≠ l0) by congruence.
  assert (Hlc1 : heap w1 !! lc = Some (Onode (mk_node vc nc))).
  { simpl. unfold h1. by rewrite lookup_insert_ne. }
  assert (Hnew1 : heap w1 !! new = Some (Onode (mk_node v NULL))).
  { simpl. unfold h1. by rewrite lookup_insert_eq. }
  run (load_node_eq _ _ _ Hlc1).
  run (store_next_eq _ _ _ nc Hnew1).
  assert (Hlc2' : heap (set_heap (<[new := Onode (mk_node v nc)]> (heap w1)) w1)
                  !! lc = Some (Onode (mk_node vc nc))).
  { simpl. by rewrite lookup_insert_ne. }
  rewrite (store_next_eq _ _ _ _ Hlc2'). simpl.
  eexists. split; [done|]. exists l0. split; [done|].
  assert (Hst : start (c1 ++ (lc, vc) :: (new, v) :: c2) = Some s).
  { rewrite <- Hs. by destruct c1 as [|[??]?]. }
  rewrite Hst. split.
  - unfold h1. by rewrite !lookup_insert_ne.
  - apply lseg_app. exists (Some lc). split.
    + eapply lseg_agree; [exact Hseg|]. intros l Hl.
      assert (l ≠ lc).
      { intros ->. apply (Hdisj lc Hl), list_elem_of_here. }
      assert (l ≠ new).
      { apply Hfresh, elem_of_app. by left. }
      unfold h1. by rewrite !lookup_insert_ne.
    + split; [done|]. exists (Some new). split; [by rewrite lookup_insert_eq|].
      split; [done|]. exists nc. split.
      * rewrite lookup_insert_ne by done. by rewrite lookup_insert_eq.
      * eapply lseg_agree; [exact Hc2|]. intros l Hl.
        assert (l ≠ lc) by (by intros ->).
        assert (l ≠ new).
        { apply Hfresh, elem_of_app. right. by apply list_elem_of_further. }
        unfold h1. by rewrite !lookup_insert_ne.
Qed.

(** The state list_add_to_back leaves behind, to the last bit. *)
Lemma list_add_to_back_run w l0 cs v :
  list_at (heap w) (Some l0) cs -> alloc_ok w = true ->
  list_add_to_back (Some l0) v w
  = Ok tt (World
             (match last cs with
              | None => <[l0 := Olist (mk_list (Some (fresh (dom (heap w)))))]>
              | Some (ll, lv) =>
                  <[ll := Onode (mk_node lv (Some (fresh (dom (heap w)))))]>
              end (<[fresh (dom (heap w)) := Onode (mk_node v NULL)]> (heap w)))
             (alloc_rest w) (stdout w) (stderr w)).
Proof.
  intros (l & Heq & Hl0 & Hc) Hok. injection Heq as <-.
  set (new := fresh (dom (heap w))).
  assert (Hnew : heap w !! new = None) by apply fresh_not_in_heap.
  assert (Hne : new ≠ l0) by congruence.
  unfold list_add_to_back.
  run (create_node_eq w v Hok). fold new.
  set (h1 := <[new := Onode (mk_node v NULL)]> (heap w)).
  set (w1 := World h1 (alloc_rest w) (stdout w) (stderr w)).
  assert (Hl1 : heap w1 !! l0 = Some (Olist (mk_list (start cs)))).
  { simpl. unfold h1. by rewrite lookup_insert_ne. }
  assert (Hc1 : chain h1 (start cs) cs).
  { eapply lseg_agree; [exact Hc|]. intros l Hl. unfold h1.
    rewrite lookup_insert_ne; [done|]. intros <-.
    destruct (lseg_in_heap _ _ _ _ _ Hc Hl) as [n Hn]. congruence. }
  run (load_list_eq _ _ _ Hl1).
  destruct cs as [|[ll lv] c1 _] using rev_ind; simpl.
  - by rewrite (store_head_eq _ _ _ _ Hl1).
  - destruct (start (c1 ++ [(ll, lv)])) as [s|] eqn:Hs;
      [|by apply start_snoc in Hs].
    assert (Hfuel : (length c1 < S (size (heap w1)))%nat).
    { pose proof (chain_length_le _ _ _ Hc1) as Hle.
      rewrite length_app in Hle. simpl in *. lia. }
    assert (Hloop : with_fuel (λ fuel, add_to_back_loop fuel (Some s)) w1
                    = Ok (Some ll) w1)
      by exact (add_to_back_loop_spec w1 c1 _ _ ll lv Hc1 Hfuel).
    run Hloop.
    apply last_cell_lookup in Hc1 as [_ Hll].
    rewrite (store_next_eq w1 ll _ _ Hll). by rewrite last_snoc.
Qed.

Lemma list_add_to_back_fail w l0 v :
  alloc_ok w = false ->
  list_add_to_back (Some l0) v w
  = Exit EXIT_FAILURE
      (World (heap w) (alloc_rest w) (stdout w)
         (stderr w ++ str "create_node: malloc failed" ++ newline)).
Proof.
  intros Hok. unfold list_add_to_back.
  by rewrite (bind_exit _ _ _ _ _ (create_node_fail w v Hok)).
Qed.

(** Inserting at position length + 1 is appending, in every respect:
    both calls end the same way in the same state. *)
Lemma list_add_at_index_end w list cs v :
  list_at (heap w) list cs -> is_int (Z.of_nat (length cs) + 1) ->
  list_add_at_index list v (Z.of_nat (length cs) + 1) w
  = list_add_to_back list v w.
Proof.
  intros Hat Hint. pose proof (list_at_fuel _ _ _ Hat) as Hfuel.
  pose proof Hat as (l0 & -> & Hl0 & Hc).
  remember (Z.of_nat (length cs) + 1) as index eqn:Hidx.
  set (new := fresh (dom (heap w))).
  assert (Hnew : heap w !! new = None) by apply fresh_not_in_heap.
  assert (Hne : new ≠ l0) by congruence.
  destruct (alloc_ok w) eqn:Hok.
  2:{ (* the allocation fails: both exit *)
    rewrite (list_add_to_back_fail w l0 v Hok). unfold list_add_at_index.
    destruct (Z.ltb_spec index 1); [lia|].
    destruct cs as [|[ll lv] c1 _] using rev_ind.
    - simpl in Hidx. subst index. simpl. unfold list_add_to_front.
      by rewrite (bind_exit _ _ _ _ _ (create_node_fail w v Hok)).
    - rewrite length_app in Hidx, Hfuel. simpl in Hidx, Hfuel.
      destruct (Z.eqb_spec index 1); [lia|].
      destruct (start (c1 ++ [(ll, lv)])) as [s|] eqn:Hs;
        [|by apply start_snoc in Hs].
      run (load_list_eq _ _ _ Hl0).
      pose proof (last_cell_lookup _ _ _ _ _ Hc) as [Hseg Hll].
      assert (Hloop : with_fuel (λ fuel, seek_loop fuel (Some s) 1 index) w
                      = Ok (Some ll) w).
      { apply (seek_loop_found w c1 _ _ 1 _ ll Hseg); [lia|done|lia|done]. }
      run Hloop.
      by rewrite (bind_exit _ _ _ _ _ (create_node_fail w v Hok)). }
  rewrite (list_add_to_back_run w l0 cs v Hat Hok). fold new.
  set (h1 := <[new := Onode (mk_node v NULL)]> (heap w)).
  set (w1 := World h1 (alloc_rest w) (stdout w) (stderr w)).
  assert (Hl1 : heap w1 !! l0 = Some (Olist (mk_list (start cs)))).
  { simpl. unfold h1. by rewrite lookup_insert_ne. }
  assert (Hnew1 : heap w1 !! new = Some (Onode (mk_node v NULL))).
  { simpl. unfold h1. by rewrite lookup_insert_eq. }
  unfold list_add_at_index.
  destruct (Z.ltb_spec index 1); [lia|].
  destruct cs as [|[ll lv] c1 _] using rev_ind.
  - (* the empty list: position 1, through list_add_to_front *)
    simpl in Hidx. subst index. simpl. unfold list_add_to_front.
    run (create_node_eq w v Hok). fold new h1 w1.
    run (load_list_eq _ _ _ Hl1).
    run (store_next_eq _ _ _ NULL Hnew1).
    assert (Hl2 : heap (set_heap (<[new := Onode (mk_node v NULL)]> (heap w1)) w1)
                  !! l0 = Some (Olist (mk_list NULL))).
    { simpl. by rewrite lookup_insert_ne. }
    rewrite (store_head_eq _ _ _ _ Hl2). simpl. unfold h1.
    by rewrite insert_insert_eq.
  - (* a list with a last node *)
    rewrite length_app in Hidx, Hfuel. simpl in Hidx, Hfuel.
    destruct (Z.eqb_spec index 1); [lia|].
    destruct (start (c1 ++ [(ll, lv)])) as [s|] eqn:Hs;
      [|by apply start_snoc in Hs].
    run (load_list_eq _ _ _ Hl0).
    pose proof (last_cell_lookup _ _ _ _ _ Hc) as [Hseg Hll].
    assert (Hloop : with_fuel (λ fuel, seek_loop fuel (Some s) 1 index) w
                    = Ok (Some ll) w).
    { apply (seek_loop_found w c1 _ _ 1 _ ll Hseg); [lia|done|lia|done]. }
    run Hloop.
    run (create_node_eq w v Hok). fold new h1 w1.
    assert (ll ≠ new) by congruence.
    assert (Hll1 : heap w1 !! ll = Some (Onode (mk_node lv NULL))).
    { simpl. unfold h1. by rewrite lookup_insert_ne. }
    run (load_node_eq _ _ _ Hll1).
    run (store_next_eq _ _ _ NULL Hnew1).
    assert (Hll2 : heap (set_heap (<[new := Onode (mk_node v NULL)]> (heap w1)) w1)
                   !! ll = Some (Onode (mk_node lv NULL))).
    { simpl. by rewrite lookup_insert_ne. }
    rewrite (store_next_eq _ _ _ _ Hll2). simpl. unfold h1.
    by rewrite insert_insert_eq, last_snoc.
Qed.

End Ops.
Export Ops.

(** ** What the callers do *)

Module ClientsFacts.

Lemma sample_world_is_list : is_list sample_world (Some 1%positive) [7; 8; 9].
Proof.
  exists [(2%positive, 7); (3%positive, 8); (4%positive, 9)].
  split; [|done]. exists 1%positive. split; [done|]. split; [done|].
  split; [done|]. exists (Some 3%positive). split; [done|].
  split; [done|]. exists (Some 4%positive). split; [done|].
  split; [done|]. exists NULL. split; done.
Defined.

Lemma sample_empty_is_list : is_list sample_empty (Some 1%positive) [].
Proof.
  exists []. split; [|done]. exists 1%positive. split; [done|]. split; done.
Defined.

Lemma is_list_add_to_back w list vs v :
  is_list w list vs -> alloc_ok w = true ->
  ∃ h', list_add_to_back list v w
        = Ok tt (World h' (alloc_rest w) (stdout w) (stderr w))
        ∧ is_list (World h' (alloc_rest w) (stdout w) (stderr w)) list (vs ++ [v]).
Proof.
  intros (cs & Hat & <-) Hok.
  destruct (list_add_to_back_spec w list cs v Hat Hok) as (new & h' & Hrun & Hat').
  exists h'. split; [done|]. exists (cs ++ [(new, v)]). split; [done|].
  by rewrite fmap_app.
Qed.

Lemma add_all_spec vs : ∀ w list vs0,
  is_list w list vs0 -> never_fails w ->
  ∃ w', add_all list vs w = Ok tt w' ∧ is_list w' list (vs0 ++ vs)
        ∧ never_fails w'.
Proof.
  induction vs as [|v vs IH]; intros w list vs0 Hl Hnf; simpl.
  - exists w. by rewrite (right_id_L [] (++)).
  - destruct (is_list_add_to_back w list vs0 v Hl (never_fails_ok _ Hnf))
      as (h' & Hrun & Hl').
    rewrite (bind_ok _ _ _ _ _ Hrun).
    destruct (IH _ list (vs0 ++ [v]) Hl') as (w' & Hrun' & Hl'' & Hnf').
    { by apply never_fails_rest. }
    exists w'. split; [done|]. by rewrite <- (assoc_L (++)) in Hl''.
Qed.

Lemma build_spec w vs :
  never_fails w ->
  ∃ l w', build vs w = Ok (Some l) w' ∧ is_list w' (Some l) vs ∧ never_fails w'.
Proof.
  intros Hnf. destruct (list_alloc_spec w (never_fails_ok _ Hnf)) as (l & h' & Hrun & Hat).
  unfold build. rewrite (bind_ok _ _ _ _ _ Hrun).
  destruct (add_all_spec vs (World h' (alloc_rest w) (stdout w) (stderr w))
              (Some l) []) as (w' & Hrun' & Hl & Hnf').
  { by exists []. }
  { by apply never_fails_rest. }
  exists l, w'. by rewrite (bind_ok _ _ _ _ _ Hrun').
Qed.

Lemma is_list_length w list vs :
  is_list w list vs ->
  list_length list w = Ok (int_wrap (Z.of_nat (length vs))) w.
Proof.
  intros (cs & Hat & <-). rewrite length_fmap. by apply list_length_spec.
Qed.

Lemma is_list_get_elem_at w list vs i v :
  is_list w list vs -> vs !! i = Some v -> is_int (Z.of_nat i + 1) ->
  list_get_elem_at list (Z.of_nat i + 1) w = Ok v w.
Proof.
  intros (cs & Hat & <-) Hi Hint.
  rewrite list_lookup_fmap in Hi.
  destruct (cs !! i) as [[l v']|] eqn:Hc; [|done]. simpl in Hi.
  injection Hi as ->. by eapply list_get_elem_at_spec.
Qed.

Lemma is_list_add_to_front w list vs v :
  is_list w list vs -> alloc_ok w = true ->
  ∃ h', list_add_to_front list v w
        = Ok tt (World h' (alloc_rest w) (stdout w) (stderr w))
        ∧ is_list (World h' (alloc_rest w) (stdout w) (stderr w)) list (v :: vs).
Proof.
  intros (cs & Hat & <-) Hok.
  destruct (list_add_to_front_spec w list cs v Hat Hok) as (new & h' & Hrun & Hat').
  exists h'. split; [done|]. by exists ((new, v) :: cs).
Qed.

Lemma is_list_remove_from_front w list v vs :
  is_list w list (v :: vs) ->
  ∃ h', list_remove_from_front list w = Ok v (set_heap h' w)
        ∧ is_list (set_heap h' w) list vs.
Proof.
  intros (cs & Hat & Hvs). destruct cs as [|[l1 v1] cs]; [done|].
  simpl in Hvs. injection Hvs as -> <-.
  destruct (list_remove_from_front_spec w list l1 v cs Hat) as (h' & Hrun & Hat').
  exists h'. split; [done|]. by exists cs.
Qed.

(** list_add_at_index at a position from 1 to length + 1 puts the value at
    that position and moves the values from there on one place back. *)
Lemma is_list_add_at_index w list vs v index :
  is_list w list vs -> alloc_ok w = true ->
  1 <= index <= Z.of_nat (length vs) + 1 -> index <= INT_MAX ->
  ∃ h', list_add_at_index list v index w
        = Ok tt (World h' (alloc_rest w) (stdout w) (stderr w))
        ∧ is_list (World h' (alloc_rest w) (stdout w) (stderr w)) list
            (take (Z.to_nat (index - 1)) vs ++ v :: drop (Z.to_nat (index - 1)) vs).
Proof.
  intros Hl Hok Hidx Hmax.
  destruct (Z.eq_dec index 1) as [->|Hne].
  - destruct (is_list_add_to_front w list vs v Hl Hok) as (h' & Hrun & Hl').
    exists h'. split; [|done]. by destruct list.
  - destruct Hl as (cs & Hat & <-). rewrite length_fmap in Hidx.
    assert (∃ c1 lc vc c2,
               cs = c1 ++ (lc, vc) :: c2 ∧ Z.of_nat (length c1) = index - 2)
      as (c1 & lc & vc & c2 & -> & Hk).
    { pose proof (take_drop (Z.to_nat (index - 2)) cs) as Htd.
      pose proof (length_drop cs (Z.to_nat (index - 2))) as Hd.
      destruct (drop (Z.to_nat (index - 2)) cs) as [|[lc vc] c2];
        [simpl in Hd; lia|].
      exists (take (Z.to_nat (index - 2)) cs), lc, vc, c2.
      split; [done|]. rewrite length_take. lia. }
    destruct (list_add_at_index_spec w list c1 lc vc c2 v index Hat Hok)
      as (new & h' & Hrun & Hat'); [lia|unfold is_int, INT_MIN; lia|].
    exists h'. split; [done|].
    exists (c1 ++ (lc, vc) :: (new, v) :: c2). split; [done|].
    rewrite !fmap_app. simpl.
    replace (Z.to_nat (index - 1)) with (S (length c1.*2))
      by (rewrite length_fmap; lia).
    by rewrite take_drop_put.
Qed.

Lemma is_list_remove_from_back w list vs v :
  is_list w list (vs ++ [v]) ->
  ∃ h', list_remove_from_back list w = Ok v (set_heap h' w)
        ∧ is_list (set_heap h' w) list vs.
Proof.
  intros (cs & Hat & Hvs).
  destruct cs as [|[ll lv] cs _] using rev_ind.
  { by destruct vs. }
  rewrite fmap_app in Hvs. simpl in Hvs.
  apply app_inj_tail in Hvs as [Hvs ->].
  destruct (list_remove_from_back_spec w list cs ll v Hat) as (h' & Hrun & Hat').
  exists h'. split; [done|]. by exists cs.
Qed.

(** The list built from 3, 1, 4, 1, 5: the first 1 is at position 2, 9 is
    not in the list, and there is no position 6. *)
Lemma pi_list_lookups :
  ∃ list w,
    build [3; 1; 4; 1; 5] empty_world = Ok list w
    ∧ list_get_index_of list 1 w = Ok 2 w
    ∧ list_is_in list 9 w = Ok false w
    ∧ list_is_in list 4 w = Ok true w
    ∧ list_get_elem_at list 6 w = Ok (-1) w
    ∧ list_length list w = Ok 5 w.
Proof. eexists _, _. split; [by vm_compute|]. repeat split. Qed.

Lemma remove_back_times_spec vs : ∀ w list,
  is_list w list vs ->
  ∃ h', remove_back_times (length vs) list w = Ok (rev vs) (set_heap h' w)
        ∧ is_list (set_heap h' w) list [].
Proof.
  induction vs as [|v vs IH] using rev_ind; intros w list Hl.
  - exists (heap w). simpl. by destruct w.
  - rewrite length_app, Nat.add_comm, rev_unit. simpl.
    destruct (is_list_remove_from_back w list vs v Hl) as (h1 & Hrun & Hl1).
    rewrite (bind_ok _ _ _ _ _ Hrun).
    destruct (IH _ list Hl1) as (h2 & Hrun2 & Hl2).
    rewrite (bind_ok _ _ _ _ _ Hrun2). by exists h2.
Qed.

End ClientsFacts.
Export ClientsFacts.

(** ** listToString and its buffer *)

Module ToString.

#[local] Arguments bind : simpl never.
#[local] Arguments load_node : simpl never.
#[local] Arguments load_list : simpl never.
#[local] Arguments with_fuel : simpl never.
#[local] Arguments alloc_bytes : simpl never.
#[local] Arguments memcpy_at : simpl never.
#[local] Arguments store_nul : simpl never.
#[local] Arguments snprintf_tmp : simpl never.
#[local] Arguments grow_loop : simpl never.
#[local] Arguments size_wrap : simpl never.
#[local] Arguments realloc_buf : simpl never.
#[local] Arguments fmt_d : simpl never.
#[local] Arguments str : simpl never.
#[local] Arguments Z.of_nat : simpl never.
#[local] Arguments Z.add : simpl never.
#[local] Arguments Z.mul : simpl never.
#[local] Arguments Z.ltb : simpl never.
#[local] Arguments Z.geb : simpl never.

Lemma alloc_bytes_ok w :
  never_fails w ->
  alloc_bytes w = Ok true (World (heap w) (alloc_rest w) (stdout w) (stderr w)).
Proof.
  intros Hnf. unfold alloc_bytes. rewrite next_alloc_eq.
  by rewrite (never_fails_ok _ Hnf).
Qed.

Lemma memcpy_at_ok buf used src n w :
  0 <= n <= Z.of_nat (length src) -> used + n <= buf_size buf ->
  used = Z.of_nat (length (content buf)) ->
  memcpy_at buf used src n w
  = Ok (mk_buffer (buf_size buf) (content buf ++ take (Z.to_nat n) src)) w.
Proof.
  intros Hn Hsize Hused. unfold memcpy_at.
  destruct (Z.leb_spec n (Z.of_nat (length src))); [|lia].
  destruct (Z.leb_spec (used + n) (buf_size buf)); [|lia].
  destruct (Z.leb_spec used (Z.of_nat (length (content buf)))); [|lia].
  simpl. unfold ret. do 3 f_equal. rewrite take_ge; [done|lia].
Qed.

Lemma store_nul_ok buf used w :
  used < buf_size buf -> used = Z.of_nat (length (content buf)) ->
  store_nul buf used w = Ok buf w.
Proof.
  intros Hsize Hused. unfold store_nul.
  destruct (Z.ltb_spec used (buf_size buf)); [|lia].
  destruct (Z.leb_spec used (Z.of_nat (length (content buf)))); [|lia].
  simpl. unfold ret. rewrite take_ge by lia. by destruct buf.
Qed.

Lemma realloc_buf_keeps buf newsize :
  Z.of_nat (length (content buf)) <= newsize ->
  realloc_buf buf newsize = mk_buffer newsize (content buf).
Proof. intros Hle. unfold realloc_buf. by rewrite take_ge by lia. Qed.

(** For a value of type [int], [tmp] holds the whole text. *)
Lemma snprintf_tmp_length v :
  is_int v ->
  take (length (fmt_d v ++ str "->")) (take 31 (fmt_d v ++ str "->") ++ [NUL])
  = fmt_d v ++ str "->"
  ∧ (length (fmt_d v ++ str "->")
     < length (take 31 (fmt_d v ++ str "->") ++ [NUL]))%nat
  ∧ (length (fmt_d v ++ str "->") <= 13)%nat.
Proof.
  intros Hv. pose proof (fmt_d_length v Hv) as Hlen.
  assert (Hfull : (length (fmt_d v ++ str "->") <= 13)%nat).
  { rewrite length_app. change (length (str "->")) with 2%nat. lia. }
  rewrite (take_ge (fmt_d v ++ str "->") 31) by lia.
  split; [by rewrite take_app_length|].
  split; [|done]. rewrite (length_app (_ ++ _) [NUL]). simpl. lia.
Qed.

(** Making room for [n] more characters: the buffer keeps its text and
    ends up larger than [used + n + 1]; the doubling loop never turns. *)
Lemma grow_step buf capacity used n w :
  never_fails w -> buf_inv buf capacity used -> 0 <= n <= 13 ->
  used + n + 32 < 2 ^ 63 ->
  ∃ buf1 cap1 w1,
    (if size_wrap (used + n + 1) >=? capacity then
       let! newcap :=
         grow_loop 66 (size_wrap (used + n + 1)) (size_wrap (capacity * 2)) in
       let! ok := alloc_bytes in
       if ok then ret (Some (realloc_buf buf newcap, newcap))
       else ret None
     else ret (Some (buf, capacity))) w
    = Ok (Some (buf1, cap1)) w1
    ∧ content buf1 = content buf ∧ buf_size buf1 = cap1 ∧ 256 <= cap1
    ∧ used + n + 1 < cap1
    ∧ never_fails w1 ∧ heap w1 = heap w ∧ stdout w1 = stdout w
    ∧ stderr w1 = stderr w.
Proof.
  intros Hnf [Hsize Hused Hcap Hroom] Hn Hfit.
  assert (Hpow : SIZE_MOD = 2 * 2 ^ 63) by done.
  rewrite (size_wrap_id (used + n + 1)) by lia.
  rewrite Z.geb_leb.
  destruct (Z.leb_spec capacity (used + n + 1)) as [Hgrow|Hkeep].
  - rewrite (size_wrap_id (capacity * 2)) by lia.
    assert (Hloop : grow_loop 66 (used + n + 1) (capacity * 2) w
                    = Ok (capacity * 2) w).
    { unfold grow_loop. rewrite Z.geb_leb.
      destruct (Z.leb_spec (capacity * 2) (used + n + 1)); [lia|done]. }
    rewrite (bind_ok _ _ _ _ _ Hloop).
    rewrite (bind_ok _ _ _ _ _ (alloc_bytes_ok w Hnf)).
    eexists _, _, _. split; [reflexivity|]. simpl.
    rewrite take_ge by lia.
    repeat split; try done; try lia. by apply never_fails_rest.
  - exists buf, capacity, w. repeat split; try done; lia.
Qed.

Lemma listToString_loop_spec cs : ∀ fuel p w buf capacity used,
  chain (heap w) p cs -> (length cs < fuel)%nat -> never_fails w ->
  Forall is_int cs.*2 -> buf_inv buf capacity used ->
  used + Z.of_nat (length (chain_text (str "->") cs.*2)) + 32 < 2 ^ 63 ->
  ∃ w' buf' capacity',
    listToString_loop fuel p buf capacity used w
    = Ok (Some (buf', capacity', Z.of_nat (length (content buf')))) w'
    ∧ content buf' = content buf ++ chain_text (str "->") cs.*2
    ∧ buf_inv buf' capacity' (Z.of_nat (length (content buf')))
    ∧ never_fails w' ∧ heap w' = heap w ∧ stdout w' = stdout w
    ∧ stderr w' = stderr w.
Proof.
  induction cs as [|[l v] cs IH]; intros fuel p w buf capacity used
    Hc Hfuel Hnf Hints Hinv Hfit;
    (destruct fuel as [|f]; [simpl in Hfuel; lia|]).
  - red in Hc. simpl in Hc. subst p. exists w, buf, capacity.
    pose proof Hinv as [_ Hused _ _]. simpl. rewrite <- Hused.
    split; [done|]. change (chain_text (str "->") []) with (@nil ascii).
    by rewrite (right_id_L [] (++)).
  - destruct Hc as (-> & nx & Hl & Hrest).
    rewrite fmap_cons in Hints, Hfit. simpl in Hints, Hfit.
    apply Forall_cons in Hints as [Hv Hints].
    rewrite chain_text_cons, length_app in Hfit.
    destruct (snprintf_tmp_length v Hv) as (Htake & Htmp & Hle13).
    simpl. rewrite (bind_ok _ _ _ _ _ (load_node_eq _ _ _ Hl)). simpl.
    set (full := fmt_d v ++ str "->") in *.
    set (tmp := take 31 full ++ [NUL]) in *.
    destruct (Z.ltb_spec (Z.of_nat (length full)) 0); [lia|].
    destruct (grow_step buf capacity used (Z.of_nat (length full)) w Hnf Hinv)
      as (buf1 & cap1 & w1 & Hgrow & Hcont & Hsize1 & Hcap1 & Hroom1
          & Hnf1 & Hheap1 & Hout1 & Herr1); [lia|lia|].
    rewrite (bind_ok _ _ _ _ _ Hgrow).
    pose proof Hinv as [_ Hused _ _].
    rewrite (bind_ok _ _ _ _ _
               (memcpy_at_ok buf1 used tmp (Z.of_nat (length full)) w1
                  ltac:(lia) ltac:(lia) ltac:(by rewrite Hcont))).
    rewrite Nat2Z.id, Htake, Hcont.
    assert (Hpow : SIZE_MOD = 2 * 2 ^ 63) by done.
    rewrite (size_wrap_id (used + Z.of_nat (length full))) by lia.
    set (buf2 := mk_buffer (buf_size buf1) (content buf ++ full)).
    assert (Hused2 : used + Z.of_nat (length full)
                     = Z.of_nat (length (content buf2))).
    { simpl. rewrite length_app. lia. }
    assert (Hroom2 : used + Z.of_nat (length full) < buf_size buf2)
      by (unfold buf2; simpl; lia).
    rewrite (bind_ok _ _ _ _ _ (store_nul_ok buf2 _ w1 Hroom2 Hused2)).
    rewrite Hused2.
    destruct (IH f nx w1 buf2 cap1 (Z.of_nat (length (content buf2))))
      as (w' & buf' & cap' & Hrun & Hcont' & Hinv' & Hnf' & Hheap' & Hout'
          & Herr'); try done.
    + by rewrite Hheap1.
    + simpl in Hfuel. lia.
    + split; [done|done|done|]. rewrite <- Hused2. lia.
    + rewrite <- Hused2. lia.
    + exists w', buf', cap'. split; [exact Hrun|]. split.
      { rewrite Hcont'. simpl. rewrite chain_text_cons.
        by rewrite <- (assoc_L (++)). }
      split; [done|]. split; [done|].
      split; [congruence|]. split; congruence.
Qed.

(** listToString on a well-formed list: the values, each followed by an
    arrow, and NULL at the end. *)
Lemma listToString_spec w list cs :
  list_at (heap w) list cs -> never_fails w -> Forall is_int cs.*2 ->
  text_fits cs.*2 ->
  ∃ w', listToString list w
        = Ok (Some (chain_text (str "->") cs.*2 ++ str "NULL")) w'
        ∧ heap w' = heap w ∧ stdout w' = stdout w ∧ stderr w' = stderr w.
Proof.
  intros Hat Hnf Hints Hfit. pose proof (list_at_fuel _ _ _ Hat) as Hfuel.
  destruct Hat as (l0 & -> & Hl0 & Hc). unfold text_fits in Hfit.
  unfold listToString.
  rewrite (bind_ok _ _ _ _ _ (alloc_bytes_ok w Hnf)). simpl.
  set (w1 := World (heap w) (alloc_rest w) (stdout w) (stderr w)).
  assert (Hl1 : heap w1 !! l0 = Some (Olist (mk_list (start cs)))) by done.
  rewrite (bind_ok _ _ _ _ _ (load_list_eq _ _ _ Hl1)). simpl.
  destruct (listToString_loop_spec cs (S (size (heap w1))) (start cs) w1
              (mk_buffer 256 []) 256 0)
    as (w2 & buf2 & cap2 & Hrun & Hcont & Hinv & Hnf2 & Hheap2 & Hout2 & Herr2);
    try done.
  { by apply never_fails_rest. }
  assert (Hloop : with_fuel (λ fuel, listToString_loop fuel (start cs)
                               (mk_buffer 256 []) 256 0) w1
                  = Ok (Some (buf2, cap2, Z.of_nat (length (content buf2)))) w2)
    by exact Hrun.
  rewrite (bind_ok _ _ _ _ _ Hloop). simpl.
  simpl in Hcont. destruct Hinv as [Hsize2 _ Hcap2 Hroom2].
  set (used := Z.of_nat (length (content buf2))) in *.
  assert (Hlen : used = Z.of_nat (length (chain_text (str "->") cs.*2)))
    by (unfold used; by rewrite Hcont).
  assert (Hpow : SIZE_MOD = 2 * 2 ^ 63) by done.
  change (Z.of_nat 4) with 4.
  rewrite (size_wrap_id (used + 4 + 1)) by lia.
  rewrite (size_wrap_id (used + 4)) by lia.
  assert (Hgrown : ∃ buf3 w3,
    (if used + 4 + 1 >=? cap2 then
       let! ok := alloc_bytes in
       if ok then ret (Some (realloc_buf buf2 (used + 4 + 1)))
       else ret None
     else ret (Some buf2)) w2 = Ok (Some buf3) w3
    ∧ content buf3 = content buf2 ∧ used + 4 < buf_size buf3
    ∧ heap w3 = heap w2 ∧ stdout w3 = stdout w2 ∧ stderr w3 = stderr w2).
  { rewrite Z.geb_leb.
    destruct (Z.leb_spec cap2 (used + 4 + 1)).
    - rewrite (bind_ok _ _ _ _ _ (alloc_bytes_ok w2 Hnf2)).
      eexists _, _. split; [reflexivity|].
      rewrite realloc_buf_keeps by (fold used; lia). simpl.
      repeat split; try done; lia.
    - exists buf2, w2. repeat split; try done; lia. }
  destruct Hgrown as (buf3 & w3 & Hgrown & Hcont3 & Hsize3 & Hheap3 & Hout3 & Herr3).
  rewrite (bind_ok _ _ _ _ _ Hgrown).
  rewrite (bind_ok _ _ _ _ _
             (memcpy_at_ok buf3 used (str "NULL") 4 w3
                ltac:(by vm_compute) ltac:(lia) ltac:(by rewrite Hcont3))).
  set (buf4 := mk_buffer (buf_size buf3) (content buf3 ++ take (Z.to_nat 4) (str "NULL"))).
  assert (Hused4 : used + 4 = Z.of_nat (length (content buf4))).
  { unfold buf4, used. simpl content. rewrite length_app, Hcont3.
    by rewrite Nat2Z.inj_add. }
  assert (Hroom4 : used + 4 < buf_size buf4) by (unfold buf4; simpl; lia).
  rewrite (bind_ok _ _ _ _ _ (store_nul_ok buf4 _ w3 Hroom4 Hused4)).
  exists w3. simpl. rewrite Hcont3, Hcont. simpl.
  split; [done|]. rewrite Hheap3, Hout3, Herr3, Hheap2, Hout2, Herr2. done.
Qed.

End ToString.
Export ToString.

(** ** Printed text against the string *)

Module BlanksFacts.

Lemma strip_blanks_app t1 t2 :
  strip_blanks (t1 ++ t2) = strip_blanks t1 ++ strip_blanks t2.
Proof. apply List.filter_app. Qed.

Lemma digit_char_not_blank d : 0 <= d < 10 -> is_blank (digit_char d) = false.
Proof.
  intros Hd.
  assert (d = 0 ∨ d = 1 ∨ d = 2 ∨ d = 3 ∨ d = 4 ∨ d = 5 ∨ d = 6 ∨ d = 7
          ∨ d = 8 ∨ d = 9) as Hcases by lia.
  repeat (destruct Hcases as [->|Hcases]; [reflexivity|]). by subst d.
Qed.

Lemma strip_blanks_cons c t :
  is_blank c = false -> strip_blanks (c :: t) = c :: strip_blanks t.
Proof. intros Hc. unfold strip_blanks. cbn [List.filter]. by rewrite Hc. Qed.

Lemma strip_dec_digits fuel : ∀ n acc,
  0 <= n -> strip_blanks acc = acc ->
  strip_blanks (dec_digits fuel n acc) = dec_digits fuel n acc.
Proof.
  induction fuel as [|f IH]; intros n acc Hn Hacc; cbn [dec_digits]; [done|].
  destruct (Z.ltb_spec n 10).
  - rewrite strip_blanks_cons by (apply digit_char_not_blank; lia).
    by rewrite Hacc.
  - apply IH; [apply Z.div_pos; lia|].
    rewrite strip_blanks_cons
      by (apply digit_char_not_blank, Z.mod_pos_bound; lia).
    by rewrite Hacc.
Qed.

Lemma strip_fmt_d v : strip_blanks (fmt_d v) = fmt_d v.
Proof.
  unfold fmt_d, dec_unsigned. destruct (Z.ltb_spec v 0).
  - rewrite strip_blanks_cons by reflexivity.
    f_equal. apply strip_dec_digits; [lia|reflexivity].
  - apply strip_dec_digits; [done|reflexivity].
Qed.

Lemma strip_chain_text vs :
  strip_blanks (chain_text (str " ->") vs) = chain_text (str "->") vs.
Proof.
  induction vs as [|v vs IH]; [reflexivity|].
  rewrite !chain_text_cons, !strip_blanks_app, strip_fmt_d, IH. reflexivity.
Qed.

End BlanksFacts.
Export BlanksFacts.

(** ** Which operations can end the process *)

Module Exits.

Lemma no_exit_ret {A} (a : A) : no_exit (ret a).
Proof. by intros w c w'. Qed.

Lemma no_exit_undef {A} : no_exit (@undef A).
Proof. by intros w c w'. Qed.

Lemma no_exit_diverge {A} : no_exit (@diverge A).
Proof. by intros w c w'. Qed.

Lemma no_exit_bind {A B} (m : M A) (k : A -> M B) :
  no_exit m -> (∀ a, no_exit (k a)) -> no_exit (bind m k).
Proof.
  intros Hm Hk w c w'. unfold bind. specialize (Hm w).
  destruct (m w) as [a w1|c1 w1| |]; [apply Hk|by destruct (Hm c1 w1)|done|done].
Qed.

Lemma no_exit_with_fuel {A} (body : nat -> M A) :
  (∀ fuel, no_exit (body fuel)) -> no_exit (with_fuel body).
Proof. intros Hb w c w'. apply Hb. Qed.

Lemma no_exit_malloc init : no_exit (malloc init).
Proof. intros w c w'. unfold malloc. by destruct (next_alloc w) as [[] ?]. Qed.

Lemma no_exit_alloc_bytes : no_exit alloc_bytes.
Proof. intros w c w'. unfold alloc_bytes. by destruct (next_alloc w). Qed.

Lemma no_exit_free p : no_exit (free p).
Proof. intros w c w'. unfold free. destruct p; [|done]. by destruct (heap w !! _). Qed.

Lemma no_exit_load_node p : no_exit (load_node p).
Proof.
  intros w c w'. unfold load_node. destruct p; [|done].
  by destruct (heap w !! _) as [[]|].
Qed.

Lemma no_exit_load_list p : no_exit (load_list p).
Proof.
  intros w c w'. unfold load_list. destruct p; [|done].
  by destruct (heap w !! _) as [[]|].
Qed.

Lemma no_exit_store_next p q : no_exit (store_next p q).
Proof.
  intros w c w'. unfold store_next. destruct p; [|done].
  by destruct (heap w !! _) as [[]|].
Qed.

Lemma no_exit_store_head p q : no_exit (store_head p q).
Proof.
  intros w c w'. unfold store_head. destruct p; [|done].
  by destruct (heap w !! _) as [[]|].
Qed.

Lemma no_exit_printf text : no_exit (printf text).
Proof. by intros w c w'. Qed.

Lemma no_exit_fprintf_stderr text : no_exit (fprintf_stderr text).
Proof. by intros w c w'. Qed.

Lemma no_exit_memcpy_at buf used src n : no_exit (memcpy_at buf used src n).
Proof. intros w c w'. unfold memcpy_at. by destruct (_ && _). Qed.

Lemma no_exit_store_nul buf used : no_exit (store_nul buf used).
Proof. intros w c w'. unfold store_nul. by destruct (_ && _). Qed.

Create HintDb no_exit.
#[export] Hint Resolve no_exit_ret no_exit_undef no_exit_diverge
  no_exit_malloc no_exit_alloc_bytes no_exit_free no_exit_load_node
  no_exit_load_list no_exit_store_next no_exit_store_head no_exit_printf
  no_exit_fprintf_stderr no_exit_memcpy_at no_exit_store_nul : no_exit.

(** Split a program along its binds and branches. *)
Ltac no_exit_step :=
  lazymatch goal with
  | |- no_exit (bind _ _) => apply no_exit_bind; [|intros ?]
  | |- no_exit (with_fuel _) => apply no_exit_with_fuel; intros ?
  | |- no_exit (match ?x with _ => _ end) => destruct x
  | |- _ => solve [eauto with no_exit]
  end.
Ltac no_exit_all := repeat no_exit_step.

Ltac no_exit_loop :=
  let fuel := fresh "fuel" in
  let IH := fresh "IH" in
  intros fuel; induction fuel as [|fuel IH]; intros; simpl;
  [apply no_exit_diverge|no_exit_all].

Lemma no_exit_list_free_loop : ∀ fuel current, no_exit (list_free_loop fuel current).
Proof. no_exit_loop. Qed.

Lemma no_exit_list_print_loop : ∀ fuel cursor, no_exit (list_print_loop fuel cursor).
Proof. no_exit_loop. Qed.

Lemma no_exit_grow_loop : ∀ fuel need newcap, no_exit (grow_loop fuel need newcap).
Proof. no_exit_loop. Qed.

Lemma no_exit_list_length_loop : ∀ fuel cursor count,
  no_exit (list_length_loop fuel cursor count).
Proof. no_exit_loop. Qed.

Lemma no_exit_add_to_back_loop : ∀ fuel cursor, no_exit (add_to_back_loop fuel cursor).
Proof. no_exit_loop. Qed.

Lemma no_exit_seek_loop : ∀ fuel cursor pos index,
  no_exit (seek_loop fuel cursor pos index).
Proof. no_exit_loop. Qed.

Lemma no_exit_remove_from_back_loop : ∀ fuel cursor,
  no_exit (remove_from_back_loop fuel cursor).
Proof. no_exit_loop. Qed.

Lemma no_exit_list_is_in_loop : ∀ fuel cursor v, no_exit (list_is_in_loop fuel cursor v).
Proof. no_exit_loop. Qed.

Lemma no_exit_list_get_elem_at_loop : ∀ fuel cursor pos index,
  no_exit (list_get_elem_at_loop fuel cursor pos index).
Proof. no_exit_loop. Qed.

Lemma no_exit_list_get_index_of_loop : ∀ fuel cursor pos v,
  no_exit (list_get_index_of_loop fuel cursor pos v).
Proof. no_exit_loop. Qed.

#[export] Hint Resolve no_exit_list_free_loop no_exit_list_print_loop
  no_exit_grow_loop no_exit_list_length_loop no_exit_add_to_back_loop
  no_exit_seek_loop no_exit_remove_from_back_loop no_exit_list_is_in_loop
  no_exit_list_get_elem_at_loop no_exit_list_get_index_of_loop : no_exit.

Lemma no_exit_listToString_loop : ∀ fuel cur buf capacity used,
  no_exit (listToString_loop fuel cur buf capacity used).
Proof. no_exit_loop. Qed.

#[export] Hint Resolve no_exit_listToString_loop : no_exit.

Lemma no_exit_list_alloc : no_exit list_alloc.
Proof. unfold list_alloc. no_exit_all. Qed.

Lemma no_exit_list_free list : no_exit (list_free list).
Proof. unfold list_free. no_exit_all. Qed.

Lemma no_exit_list_print list : no_exit (list_print list).
Proof. unfold list_print. no_exit_all. Qed.

Lemma no_exit_listToString list : no_exit (listToString list).
Proof. unfold listToString. no_exit_all. Qed.

Lemma no_exit_list_length list : no_exit (list_length list).
Proof. unfold list_length. no_exit_all. Qed.

Lemma no_exit_list_remove_from_back list : no_exit (list_remove_from_back list).
Proof. unfold list_remove_from_back. no_exit_all. Qed.

Lemma no_exit_list_remove_from_front list : no_exit (list_remove_from_front list).
Proof. unfold list_remove_from_front. no_exit_all. Qed.

Lemma no_exit_list_remove_at_index list index :
  no_exit (list_remove_at_index list index).
Proof.
  unfold list_remove_at_index. no_exit_all.
  apply no_exit_list_remove_from_front.
Qed.

Lemma no_exit_list_is_in list v : no_exit (list_is_in list v).
Proof. unfold list_is_in. no_exit_all. Qed.

Lemma no_exit_list_get_elem_at list index : no_exit (list_get_elem_at list index).
Proof. unfold list_get_elem_at. no_exit_all. Qed.

Lemma no_exit_list_get_index_of list v : no_exit (list_get_index_of list v).
Proof. unfold list_get_index_of. no_exit_all. Qed.

Lemma read_only_load_list p : read_only (load_list p).
Proof.
  intros w a w'. unfold load_list. destruct p; [|done].
  destruct (heap w !! _) as [[]|]; try done. by intros [= _ ->].
Qed.

Lemma read_only_seek_loop : ∀ fuel cursor pos index,
  read_only (seek_loop fuel cursor pos index).
Proof.
  induction fuel as [|fuel IH]; intros cursor pos index w a w'; simpl; [done|].
  destruct cursor as [l|]; [|by intros [= _ ->]].
  destruct (pos <? index - 1); [|by intros [= _ ->]].
  unfold bind, load_node. destruct (heap w !! l) as [[n|]|]; try done.
  apply IH.
Qed.

Lemma bind_exit_inv {A B} (m : M A) (k : A -> M B) w c w' :
  bind m k w = Exit c w' ->
  m w = Exit c w' ∨ ∃ a w1, m w = Ok a w1 ∧ k a w1 = Exit c w'.
Proof.
  unfold bind. destruct (m w) as [a w1|c1 w1| |]; try done.
  - intros Hk. right. by exists a, w1.
  - intros [= -> ->]. by left.
Qed.

Lemma create_node_exit_inv v w c w' :
  create_node v w = Exit c w' -> c = EXIT_FAILURE ∧ alloc_ok w = false.
Proof.
  destruct (alloc_ok w) eqn:Hok.
  - by rewrite (create_node_eq w v Hok).
  - rewrite (create_node_fail w v Hok). by intros [= <- _].
Qed.

(** A program that first creates a node and then never exits can only
    exit in create_node. *)
Lemma create_node_then_exit_inv {B} v (k : ptr -> M B) w c w' :
  (∀ a, no_exit (k a)) ->
  bind (create_node v) k w = Exit c w' ->
  c = EXIT_FAILURE ∧ alloc_ok w = false.
Proof.
  intros Hk Hrun. apply bind_exit_inv in Hrun as [Hrun|(a & w1 & _ & Hrun)].
  - by apply create_node_exit_inv in Hrun.
  - by apply Hk in Hrun.
Qed.

Lemma list_add_to_back_exit_inv list v w c w' :
  list_add_to_back list v w = Exit c w' ->
  c = EXIT_FAILURE ∧ alloc_ok w = false.
Proof.
  unfold list_add_to_back. destruct list; [|done].
  apply create_node_then_exit_inv. intros a. no_exit_all.
Qed.

Lemma list_add_to_front_exit_inv list v w c w' :
  list_add_to_front list v w = Exit c w' ->
  c = EXIT_FAILURE ∧ alloc_ok w = false.
Proof.
  unfold list_add_to_front. destruct list; [|done].
  apply create_node_then_exit_inv. intros a. no_exit_all.
Qed.

Lemma list_add_at_index_exit_inv list v index w c w' :
  list_add_at_index list v index w = Exit c w' ->
  c = EXIT_FAILURE ∧ alloc_ok w = false.
Proof.
  unfold list_add_at_index. destruct list as [l0|]; [|done].
  destruct (index <? 1); [done|].
  destruct (index =? 1); [apply list_add_to_front_exit_inv|].
  intros Hrun. apply bind_exit_inv in Hrun as [Hrun|(t & w1 & Hload & Hrun)].
  { by apply no_exit_load_list in Hrun. }
  apply read_only_load_list in Hload as ->.
  apply bind_exit_inv in Hrun as [Hrun|(cursor & w2 & Hseek & Hrun)].
  { by apply (no_exit_with_fuel _ (λ fuel, no_exit_seek_loop fuel _ _ _)) in Hrun. }
  apply read_only_seek_loop in Hseek as ->.
  destruct cursor; [|done].
  revert Hrun. apply create_node_then_exit_inv. intros a. no_exit_all.
Qed.

Lemma list_add_to_front_fail w l0 v :
  alloc_ok w = false ->
  list_add_to_front (Some l0) v w
  = Exit EXIT_FAILURE
      (World (heap w) (alloc_rest w) (stdout w)
         (stderr w ++ str "create_node: malloc failed" ++ newline)).
Proof.
  intros Hok. unfold list_add_to_front.
  by rewrite (bind_exit _ _ _ _ _ (create_node_fail w v Hok)).
Qed.

Lemma list_add_at_index_fail w list cs v index :
  list_at (heap w) list cs -> alloc_ok w = false ->
  1 <= index <= Z.of_nat (length cs) + 1 -> index <= INT_MAX ->
  list_add_at_index list v index w
  = Exit EXIT_FAILURE
      (World (heap w) (alloc_rest w) (stdout w)
         (stderr w ++ str "create_node: malloc failed" ++ newline)).
Proof.
  intros Hat Hok Hidx Hmax. pose proof (list_at_fuel _ _ _ Hat) as Hfuel.
  destruct Hat as (l0 & -> & Hl0 & Hc). unfold list_add_at_index.
  destruct (Z.ltb_spec index 1); [lia|].
  destruct (Z.eqb_spec index 1); [by apply list_add_to_front_fail|].
  rewrite (bind_ok _ _ _ _ _ (load_list_eq _ _ _ Hl0)). simpl.
  assert (∃ c1 lc vc c2,
             cs = c1 ++ (lc, vc) :: c2 ∧ Z.of_nat (length c1) = index - 2)
    as (c1 & lc & vc & c2 & -> & Hk).
  { pose proof (take_drop (Z.to_nat (index - 2)) cs) as Htd.
    pose proof (length_drop cs (Z.to_nat (index - 2))) as Hd.
    destruct (drop (Z.to_nat (index - 2)) cs) as [|[lc vc] c2];
      [simpl in Hd; lia|].
    exists (take (Z.to_nat (index - 2)) cs), lc, vc, c2.
    split; [done|]. rewrite length_take. lia. }
  pose proof Hc as Hc'. apply lseg_app in Hc' as (m & Hseg & Htail).
  destruct Htail as (-> & _).
  assert (Hloop : with_fuel (λ fuel, seek_loop fuel
                               (start (c1 ++ (lc, vc) :: c2)) 1 index) w
                  = Ok (Some lc) w).
  { apply (seek_loop_found w c1 _ _ 1 index lc Hseg); [|done|lia|].
    - rewrite length_app in Hfuel. lia.
    - unfold is_int, INT_MIN. lia. }
  rewrite (bind_ok _ _ _ _ _ Hloop).
  by rewrite (bind_exit _ _ _ _ _ (create_node_fail w v Hok)).
Qed.

End Exits.
Export Exits.

(** ** The lookups *)

Module Queries.

#[local] Arguments bind : simpl never.
#[local] Arguments load_node : simpl never.
#[local] Arguments load_list : simpl never.
#[local] Arguments with_fuel : simpl never.

(** The first place a value stands at. *)
Lemma first_occurrence (v : elem) (vs : list elem) :
  v ∈ vs ->
  ∃ k, vs !! k = Some v ∧ ∀ j, (j < k)%nat -> vs !! j ≠ Some v.
Proof.
  induction vs as [|v0 vs IH]; intros Hin; [by apply elem_of_nil in Hin|].
  destruct (decide (v0 = v)) as [->|Hne].
  - exists 0%nat. split; [done|]. intros j Hj. lia.
  - apply elem_of_cons in Hin as [->|Hin]; [done|].
    destruct (IH Hin) as (k & Hk & Hfirst). exists (S k). split; [done|].
    intros [|j] Hj; simpl; [congruence|]. apply Hfirst. lia.
Qed.

Lemma list_is_in_loop_spec w v cs : ∀ fuel p,
  chain (heap w) p cs -> (length cs < fuel)%nat ->
  list_is_in_loop fuel p v w = Ok (bool_decide (v ∈ cs.*2)) w.
Proof.
  induction cs as [|[l v0] cs IH]; intros fuel p Hc Hfuel;
    (destruct fuel as [|f]; [simpl in Hfuel; lia|]); cbn [list_is_in_loop].
  - red in Hc. simpl in Hc. subst p. rewrite bool_decide_eq_false_2; [done|].
    apply not_elem_of_nil.
  - destruct Hc as (-> & n & Hl & Hrest).
    rewrite (bind_ok _ _ _ _ _ (load_node_eq _ _ _ Hl)). cbn [value next].
    rewrite fmap_cons. cbn [snd].
    destruct (Z.eqb_spec v0 v) as [->|Hne].
    + rewrite bool_decide_eq_true_2; [done|]. apply list_elem_of_here.
    + rewrite (IH f n Hrest) by (simpl in Hfuel; lia). f_equal.
      apply bool_decide_ext. rewrite elem_of_cons.
      split; [by right|intros [Heq|Hin]; [congruence|done]].
Qed.

Lemma list_get_index_of_loop_found w v cs : ∀ fuel p pos k,
  chain (heap w) p cs -> (length cs < fuel)%nat ->
  cs.*2 !! k = Some v -> (∀ j, (j < k)%nat -> cs.*2 !! j ≠ Some v) ->
  is_int pos -> is_int (pos + Z.of_nat k) ->
  list_get_index_of_loop fuel p pos v w = Ok (pos + Z.of_nat k) w.
Proof.
  induction cs as [|[l v0] cs IH]; intros fuel p pos k Hc Hfuel Hk Hfirst Hpos Hint;
    [done|].
  destruct fuel as [|f]; [simpl in Hfuel; lia|].
  destruct Hc as (-> & n & Hl & Hrest). simpl.
  rewrite (bind_ok _ _ _ _ _ (load_node_eq _ _ _ Hl)). simpl.
  destruct k as [|k]; simpl in Hk.
  - injection Hk as ->. by rewrite Z.eqb_refl, Z.add_0_r.
  - destruct (Z.eqb_spec v0 v) as [->|Hne].
    { by destruct (Hfirst 0%nat ltac:(lia)). }
    assert (Hnext : is_int (pos + 1)) by (unfold is_int in *; lia).
    rewrite (int_wrap_id _ Hnext).
    rewrite (IH f n (pos + 1) k); [f_equal; lia|done|simpl in Hfuel; lia|done| |done|].
    + intros j Hj. apply (Hfirst (S j)). lia.
    + by replace (pos + 1 + Z.of_nat k) with (pos + Z.of_nat (S k)) by lia.
Qed.

Lemma list_get_index_of_loop_missing w v cs : ∀ fuel p pos,
  chain (heap w) p cs -> (length cs < fuel)%nat -> v ∉ cs.*2 ->
  list_get_index_of_loop fuel p pos v w = Ok (-1) w.
Proof.
  induction cs as [|[l v0] cs IH]; intros fuel p pos Hc Hfuel Hnot;
    (destruct fuel as [|f]; [simpl in Hfuel; lia|]); simpl.
  - red in Hc. simpl in Hc. by subst p.
  - destruct Hc as (-> & n & Hl & Hrest).
    rewrite (bind_ok _ _ _ _ _ (load_node_eq _ _ _ Hl)). simpl.
    simpl in Hnot. apply not_elem_of_cons in Hnot as [Hne Hnot].
    destruct (Z.eqb_spec v0 v) as [->|_]; [done|].
    apply IH; [done|simpl in Hfuel; lia|done].
Qed.

(** No node of a chain that ends before position [index] is at it. *)
Lemma list_get_elem_at_loop_missing w cs : ∀ fuel p pos index,
  chain (heap w) p cs -> (length cs < fuel)%nat -> is_int pos ->
  pos + Z.of_nat (length cs) <= index ->
  list_get_elem_at_loop fuel p pos index w = Ok (-1) w.
Proof.
  induction cs as [|[l v0] cs IH]; intros fuel p pos index Hc Hfuel Hpos Hlen;
    (destruct fuel as [|f]; [simpl in Hfuel; lia|]); simpl.
  - red in Hc. simpl in Hc. by subst p.
  - destruct Hc as (-> & n & Hl & Hrest). simpl in Hlen.
    rewrite (bind_ok _ _ _ _ _ (load_node_eq _ _ _ Hl)). simpl.
    destruct (Z.eqb_spec pos index); [lia|].
    apply IH; [done|simpl in Hfuel; lia|apply int_wrap_range|].
    pose proof (int_wrap_succ_le pos Hpos). lia.
Qed.

Lemma list_is_in_spec w list cs v :
  list_at (heap w) list cs ->
  list_is_in list v w = Ok (bool_decide (v ∈ cs.*2)) w.
Proof.
  intros Hat. pose proof (list_at_fuel _ _ _ Hat) as Hfuel.
  destruct Hat as (l & -> & Hl & Hc). unfold list_is_in.
  rewrite (bind_ok _ _ _ _ _ (load_list_eq _ _ _ Hl)). simpl.
  exact (list_is_in_loop_spec w v cs _ _ Hc Hfuel).
Qed.

Lemma list_get_index_of_found w list cs v k :
  list_at (heap w) list cs ->
  cs.*2 !! k = Some v -> (∀ j, (j < k)%nat -> cs.*2 !! j ≠ Some v) ->
  is_int (Z.of_nat k + 1) ->
  list_get_index_of list v w = Ok (Z.of_nat k + 1) w.
Proof.
  intros Hat Hk Hfirst Hint. pose proof (list_at_fuel _ _ _ Hat) as Hfuel.
  destruct Hat as (l & -> & Hl & Hc). unfold list_get_index_of.
  rewrite (bind_ok _ _ _ _ _ (load_list_eq _ _ _ Hl)). simpl.
  rewrite Z.add_comm.
  apply (list_get_index_of_loop_found w v cs _ _ 1 k Hc Hfuel Hk Hfirst); [done|].
  by rewrite Z.add_comm.
Qed.

Lemma list_get_index_of_missing w list cs v :
  list_at (heap w) list cs -> v ∉ cs.*2 ->
  list_get_index_of list v w = Ok (-1) w.
Proof.
  intros Hat Hnot. pose proof (list_at_fuel _ _ _ Hat) as Hfuel.
  destruct Hat as (l & -> & Hl & Hc). unfold list_get_index_of.
  rewrite (bind_ok _ _ _ _ _ (load_list_eq _ _ _ Hl)). simpl.
  exact (list_get_index_of_loop_missing w v cs _ _ 1 Hc Hfuel Hnot).
Qed.

Lemma list_get_elem_at_out_of_range w list cs index :
  list_at (heap w) list cs ->
  index < 1 ∨ index > Z.of_nat (length cs) ->
  list_get_elem_at list index w = Ok (-1) w.
Proof.
  intros Hat Hidx. pose proof (list_at_fuel _ _ _ Hat) as Hfuel.
  destruct Hat as (l & -> & Hl & Hc). unfold list_get_elem_at.
  destruct (Z.ltb_spec index 1); [done|].
  rewrite (bind_ok _ _ _ _ _ (load_list_eq _ _ _ Hl)). simpl.
  apply (list_get_elem_at_loop_missing w cs _ _ 1 index Hc Hfuel); [done|lia].
Qed.

End Queries.
Export Queries.

(** ** Removal at a position that is not there, and list_free *)

Module Release.

#[local] Arguments bind : simpl never.
#[local] Arguments free : simpl never.
#[local] Arguments load_node : simpl never.
#[local] Arguments load_list : simpl never.
#[local] Arguments store_next : simpl never.
#[local] Arguments store_head : simpl never.
#[local] Arguments with_fuel : simpl never.

Lemma list_remove_at_index_out_of_range w list cs index :
  list_at (heap w) list cs ->
  index < 1 ∨ index > Z.of_nat (length cs) -> index <= INT_MAX ->
  list_remove_at_index list index w = Ok (-1) w.
Proof.
  intros Hat Hidx Hmax. pose proof (list_at_fuel _ _ _ Hat) as Hfuel.
  destruct Hat as (l0 & -> & Hl0 & Hc). unfold list_remove_at_index.
  run (load_list_eq _ _ _ Hl0).
  destruct (start cs) as [s|] eqn:Hs; [|done].
  destruct (Z.ltb_spec index 1); [done|].
  assert (cs ≠ []) as Hne by (by intros ->).
  assert (0 < Z.of_nat (length cs)) by (destruct cs; [done|simpl; lia]).
  destruct (Z.eqb_spec index 1); [lia|].
  destruct (Z.eq_dec index (Z.of_nat (length cs) + 1)) as [Hlast|Hbeyond].
  - (* the position behind the last node *)
    destruct cs as [|[ll lv] c1 _] using rev_ind; [done|].
    rewrite length_app in Hlast, Hfuel. simpl in Hlast, Hfuel.
    pose proof (last_cell_lookup _ _ _ _ _ Hc) as [Hseg Hll].
    assert (Hloop : with_fuel (λ fuel, seek_loop fuel (Some s) 1 index) w
                    = Ok (Some ll) w).
    { apply (seek_loop_found w c1 _ _ 1 index ll Hseg); [lia|done|lia|].
      unfold is_int, INT_MIN. lia. }
    run Hloop. by run (load_node_eq _ _ _ Hll).
  - (* a position further behind *)
    assert (Hloop : with_fuel (λ fuel, seek_loop fuel (Some s) 1 index) w
                    = Ok NULL w).
    { apply (seek_loop_off_end w cs _ _ 1 index Hc Hfuel); [done|lia]. }
    by run Hloop.
Qed.

Lemma free_all_lookup ls : ∀ (h : gmap loc object) l,
  free_all ls h !! l = if decide (l ∈ ls) then None else h !! l.
Proof.
  induction ls as [|l1 ls IH]; intros h l.
  - case_decide as Hin; [by apply elem_of_nil in Hin|done].
  - unfold free_all in *. cbn [foldl]. rewrite IH.
    destruct (decide (l ∈ ls)) as [Hin|Hnot];
      destruct (decide (l ∈ l1 :: ls)) as [Hin'|Hnot']; try done.
    + destruct Hnot'. by apply list_elem_of_further.
    + apply elem_of_cons in Hin' as [->|Hin']; [|done].
      by rewrite lookup_delete_eq.
    + rewrite lookup_delete_ne; [done|]. intros ->.
      apply Hnot', list_elem_of_here.
Qed.

Lemma list_free_loop_spec cs : ∀ fuel p w,
  chain (heap w) p cs -> (length cs < fuel)%nat ->
  list_free_loop fuel p w = Ok tt (set_heap (free_all cs.*1 (heap w)) w).
Proof.
  induction cs as [|[l v] cs IH]; intros fuel p w Hc Hfuel;
    (destruct fuel as [|f]; [simpl in Hfuel; lia|]); simpl.
  - red in Hc. simpl in Hc. subst p. by destruct w.
  - pose proof (chain_NoDup _ _ _ Hc) as Hnd. simpl in Hnd.
    apply NoDup_cons in Hnd as [Hl' _].
    destruct Hc as (-> & n & Hl & Hrest).
    run (load_node_eq _ _ _ Hl). run (free_eq _ _ _ Hl).
    rewrite IH; [done| |simpl in Hfuel; lia].
    eapply lseg_agree; [exact Hrest|]. intros l1 Hl1. simpl.
    rewrite lookup_delete_ne; [done|]. by intros ->.
Qed.

(** list_free deletes the nodes of the list and the list object, and
    nothing else. *)
Lemma list_free_spec w l0 cs :
  list_at (heap w) (Some l0) cs ->
  list_free (Some l0) w
  = Ok tt (set_heap (delete l0 (free_all cs.*1 (heap w))) w).
Proof.
  intros Hat. pose proof (list_at_fuel _ _ _ Hat) as Hfuel.
  pose proof (list_at_not_node _ _ _ Hat) as Hl0n.
  destruct Hat as (l & Heq & Hl0 & Hc). injection Heq as <-.
  unfold list_free. run (load_list_eq _ _ _ Hl0).
  assert (Hloop : with_fuel (λ fuel, list_free_loop fuel (start cs)) w
                  = Ok tt (set_heap (free_all cs.*1 (heap w)) w))
    by exact (list_free_loop_spec cs _ _ w Hc Hfuel).
  run Hloop.
  assert (Hl0' : heap (set_heap (free_all cs.*1 (heap w)) w) !! l0
                 = Some (Olist (mk_list (start cs)))).
  { simpl. rewrite free_all_lookup. by rewrite decide_False. }
  by rewrite (free_eq _ _ _ Hl0').
Qed.

Lemma free_all_size ls : ∀ (h : gmap loc object),
  NoDup ls -> (∀ l, l ∈ ls -> is_Some (h !! l)) ->
  (size (free_all ls h) + length ls = size h)%nat.
Proof.
  induction ls as [|l1 ls IH]; intros h Hnd Hlive; [simpl; lia|].
  apply NoDup_cons in Hnd as [Hl1 Hnd].
  destruct (Hlive l1 (list_elem_of_here _ _)) as [o Ho].
  assert (Hsz : (size (free_all ls (delete l1 h)) + length ls
                 = size (delete l1 h))%nat).
  { apply (IH (delete l1 h) Hnd). intros l Hl.
    rewrite lookup_delete_ne by (by intros ->).
    by apply Hlive, list_elem_of_further. }
  assert (Hh : size h = S (size (delete l1 h))).
  { rewrite <- (insert_delete_id h l1 o Ho) at 1.
    apply map_size_insert_None, lookup_delete_eq. }
  change (free_all (l1 :: ls) h) with (free_all ls (delete l1 h)).
  simpl length. lia.
Qed.

(** What list_free leaves of the heap: the list object and its nodes are
    gone, and what is left was there before. *)
Lemma list_free_heap h l0 cs :
  list_at h (Some l0) cs ->
  (size (delete l0 (free_all cs.*1 h)) + length cs + 1 = size h)%nat
  ∧ delete l0 (free_all cs.*1 h) !! l0 = None
  ∧ ∀ l o, delete l0 (free_all cs.*1 h) !! l = Some o -> h !! l = Some o.
Proof.
  intros Hat. pose proof (list_at_not_node _ _ _ Hat) as Hl0n.
  destruct Hat as (l & Heq & Hl0 & Hc). injection Heq as <-.
  split; [|split].
  - rewrite <- (length_fmap fst cs).
    rewrite <- (free_all_size cs.*1 h (chain_NoDup _ _ _ Hc)).
    + rewrite <- (insert_delete_id (free_all cs.*1 h) l0
                    (Olist (mk_list (start cs)))) at 2.
      * rewrite map_size_insert_None; [lia|]. apply lookup_delete_eq.
      * rewrite free_all_lookup. by rewrite decide_False.
    + intros l Hl. destruct (lseg_in_heap _ _ _ _ _ Hc Hl) as [n Hn].
      by eexists.
  - apply lookup_delete_eq.
  - intros l o. destruct (decide (l = l0)) as [->|Hne].
    + by rewrite lookup_delete_eq.
    + rewrite lookup_delete_ne by done. rewrite free_all_lookup.
      by destruct (decide (l ∈ cs.*1)).
Qed.

End Release.
Export Release.

(** ** What a list owns *)

Module Ownership.

Lemma owns_list_alloc w :
  alloc_ok w = true ->
  ∃ l h',
    list_alloc w = Ok (Some l) (World h' (alloc_rest w) (stdout w) (stderr w))
    ∧ owns (heap w) h' (Some l) [].
Proof.
  intros Hok. set (new := fresh (dom (heap w))).
  assert (Hnew : heap w !! new = None) by apply fresh_not_in_heap.
  exists new, (<[new := Olist (mk_list NULL)]> (heap w)). split.
  - unfold list_alloc.
    by rewrite (bind_ok _ _ _ _ _ (malloc_eq w (Olist (mk_list NULL)) Hok)).
  - exists new. split; [done|]. split.
    + eexists. split; [done|]. split; [by rewrite lookup_insert_eq|done].
    + split.
      * intros l Hl. simpl in Hl. apply list_elem_of_singleton in Hl. by subst l.
      * intros l Hl. rewrite lookup_insert_ne; [done|]. intros <-.
        apply Hl, list_elem_of_here.
Qed.

(** The node list_add_to_back appends is the one malloc has just returned. *)
Lemma list_add_to_back_new_node w l0 cs v new h' :
  list_at (heap w) (Some l0) cs -> alloc_ok w = true ->
  list_add_to_back (Some l0) v w
  = Ok tt (World h' (alloc_rest w) (stdout w) (stderr w)) ->
  list_at h' (Some l0) (cs ++ [(new, v)]) ->
  new = fresh (dom (heap w))
  ∧ ∀ l, l ∉ l0 :: cs.*1 -> l ≠ fresh (dom (heap w)) -> h' !! l = heap w !! l.
Proof.
  intros Hat Hok Hrun Hat'.
  pose proof (list_at_not_node _ _ _ Hat) as Hl0n.
  rewrite (list_add_to_back_run w l0 cs v Hat Hok) in Hrun.
  injection Hrun as Hh. set (f := fresh (dom (heap w))) in *.
  destruct Hat' as (l & Heq & Hl0' & Hc'). injection Heq as <-.
  destruct cs as [|[ll lv] c1 _] using rev_ind.
  - simpl in Hh, Hl0'. subst h'. rewrite lookup_insert_eq in Hl0'.
    injection Hl0' as <-. split; [done|].
    intros l Hl Hlf. rewrite !lookup_insert_ne; [done| |].
    + congruence.
    + intros <-. apply Hl, list_elem_of_here.
  - rewrite last_snoc in Hh. subst h'.
    apply lseg_app in Hc' as (m & Hseg & Hlast).
    destruct Hlast as (-> & _).
    apply lseg_app in Hseg as (m' & _ & (-> & n & Hll & Hn)).
    simpl in Hn. subst n. rewrite lookup_insert_eq in Hll.
    injection Hll as <-. split; [done|].
    intros l Hl Hlf. rewrite !lookup_insert_ne; [done| |].
    + congruence.
    + intros <-. apply Hl. apply list_elem_of_further.
      rewrite fmap_app. apply elem_of_app. right. apply list_elem_of_here.
Qed.

Lemma owns_add_to_back h0 w list cs v :
  owns h0 (heap w) list cs -> alloc_ok w = true ->
  ∃ new h',
    list_add_to_back list v w
    = Ok tt (World h' (alloc_rest w) (stdout w) (stderr w))
    ∧ owns h0 h' list (cs ++ [(new, v)]).
Proof.
  intros (l0 & -> & Hat & Hnone & Hsame) Hok.
  destruct (list_add_to_back_spec w (Some l0) cs v Hat Hok)
    as (new & h' & Hrun & Hat').
  destruct (list_add_to_back_new_node w l0 cs v new h' Hat Hok Hrun Hat')
    as [-> Hframe].
  set (f := fresh (dom (heap w))) in *.
  assert (Hf : heap w !! f = None) by apply fresh_not_in_heap.
  assert (Hfn : f ∉ l0 :: cs.*1).
  { intros Hin. apply elem_of_cons in Hin as [Heq|Hin].
    - destruct Hat as (l & Heq' & Hl0 & _). injection Heq' as <-. congruence.
    - destruct Hat as (l & _ & _ & Hc).
      destruct (lseg_in_heap _ _ _ _ _ Hc Hin) as [n Hn]. congruence. }
  exists f, h'. split; [done|]. exists l0. split; [done|]. split; [done|].
  rewrite fmap_app. simpl. split.
  - intros l Hl. rewrite app_comm_cons in Hl.
    apply elem_of_app in Hl as [Hl|Hl]; [by apply Hnone|].
    apply list_elem_of_singleton in Hl as ->. by rewrite <- (Hsame f Hfn).
  - intros l Hl. rewrite app_comm_cons in Hl.
    apply not_elem_of_app in Hl as [Hl Hlf].
    rewrite (Hframe l Hl); [by apply Hsame|].
    intros ->. apply Hlf, list_elem_of_here.
Qed.

(** Freeing a list gives back exactly what has been allocated for it. *)
Lemma owns_list_free h0 w list cs :
  owns h0 (heap w) list cs -> list_free list w = Ok tt (set_heap h0 w).
Proof.
  intros (l0 & -> & Hat & Hnone & Hsame).
  rewrite (list_free_spec w l0 cs Hat). do 2 f_equal.
  apply map_eq. intros l.
  destruct (decide (l = l0)) as [->|Hne].
  - rewrite lookup_delete_eq. symmetry. apply Hnone, list_elem_of_here.
  - rewrite lookup_delete_ne by done. rewrite free_all_lookup.
    destruct (decide (l ∈ cs.*1)) as [Hin|Hnot].
    + symmetry. by apply Hnone, list_elem_of_further.
    + apply Hsame. intros Hin. apply elem_of_cons in Hin as [?|?]; done.
Qed.

End Ownership.
Export Ownership.

(** ** What each call does to the heap *)

Module Footprint.

#[local] Arguments bind : simpl never.
#[local] Arguments malloc : simpl never.
#[local] Arguments free : simpl never.
#[local] Arguments load_node : simpl never.
#[local] Arguments load_list : simpl never.
#[local] Arguments store_next : simpl never.
#[local] Arguments store_head : simpl never.
#[local] Arguments create_node : simpl never.
#[local] Arguments with_fuel : simpl never.

(** The states the calls leave behind, to the last bit. *)
Lemma list_add_to_front_run w l0 cs v :
  list_at (heap w) (Some l0) cs -> alloc_ok w = true ->
  list_add_to_front (Some l0) v w
  = Ok tt (World
             (<[l0 := Olist (mk_list (Some (fresh (dom (heap w)))))]>
                (<[fresh (dom (heap w)) := Onode (mk_node v (start cs))]>
                   (heap w)))
             (alloc_rest w) (stdout w) (stderr w)).
Proof.
  intros (l & Heq & Hl0 & Hc) Hok. injection Heq as <-.
  set (new := fresh (dom (heap w))).
  assert (Hnew : heap w !! new = None) by apply fresh_not_in_heap.
  assert (Hne : new ≠ l0) by congruence.
  unfold list_add_to_front.
  run (create_node_eq w v Hok). fold new.
  set (h1 := <[new := Onode (mk_node v NULL)]> (heap w)).
  set (w1 := World h1 (alloc_rest w) (stdout w) (stderr w)).
  assert (Hl1 : heap w1 !! l0 = Some (Olist (mk_list (start cs)))).
  { simpl. unfold h1. by rewrite lookup_insert_ne. }
  assert (Hnew1 : heap w1 !! new = Some (Onode (mk_node v NULL))).
  { simpl. unfold h1. by rewrite lookup_insert_eq. }
  run (load_list_eq _ _ _ Hl1).
  run (store_next_eq _ _ _ (start cs) Hnew1).
  assert (Hl2 : heap (set_heap (<[new := Onode (mk_node v (start cs))]> (heap w1)) w1)
                !! l0 = Some (Olist (mk_list (start cs)))).
  { simpl. by rewrite lookup_insert_ne. }
  rewrite (store_head_eq _ _ _ _ Hl2). simpl. unfold h1.
  by rewrite insert_insert_eq.
Qed.

Lemma list_add_at_index_run w l0 c1 lc vc c2 v index :
  list_at (heap w) (Some l0) (c1 ++ (lc, vc) :: c2) -> alloc_ok w = true ->
  index = Z.of_nat (length c1) + 2 -> is_int index ->
  list_add_at_index (Some l0) v index w
  = Ok tt (World
             (<[lc := Onode (mk_node vc (Some (fresh (dom (heap w)))))]>
                (<[fresh (dom (heap w)) := Onode (mk_node v (start c2))]>
                   (heap w)))
             (alloc_rest w) (stdout w) (stderr w)).
Proof.
  intros Hat Hok Hidx Hint. pose proof (list_at_fuel _ _ _ Hat) as Hfuel.
  pose proof Hat as (l & Heq & Hl0 & Hc). injection Heq as <-.
  set (new := fresh (dom (heap w))).
  assert (Hnew : heap w !! new = None) by apply fresh_not_in_heap.
  unfold list_add_at_index.
  destruct (Z.ltb_spec index 1); [lia|].
  destruct (Z.eqb_spec index 1); [lia|].
  run (load_list_eq _ _ _ Hl0).
  destruct (start (c1 ++ (lc, vc) :: c2)) as [s|] eqn:Hs;
    [|by destruct c1 as [|[??]?]].
  pose proof Hc as Hc'. apply lseg_app in Hc' as (m & Hseg & Htail).
  destruct Htail as (-> & nc & Hlc & Hc2).
  pose proof (chain_start _ _ _ Hc2) as ->.
  assert (Hloop : with_fuel (λ fuel, seek_loop fuel (Some s) 1 index) w
                  = Ok (Some lc) w).
  { apply (seek_loop_found w c1 _ _ 1 index lc Hseg); [|done|lia|done].
    rewrite length_app in Hfuel. lia. }
  run Hloop. run (create_node_eq w v Hok). fold new.
  set (h1 := <[new := Onode (mk_node v NULL)]> (heap w)).
  set (w1 := World h1 (alloc_rest w) (stdout w) (stderr w)).
  assert (lc ≠ new) by congruence.
  assert (Hlc1 : heap w1 !! lc = Some (Onode (mk_node vc (start c2)))).
  { simpl. unfold h1. by rewrite lookup_insert_ne. }
  assert (Hnew1 : heap w1 !! new = Some (Onode (mk_node v NULL))).
  { simpl. unfold h1. by rewrite lookup_insert_eq. }
  run (load_node_eq _ _ _ Hlc1).
  run (store_next_eq _ _ _ (start c2) Hnew1).
  assert (Hlc2' : heap (set_heap (<[new := Onode (mk_node v (start c2))]> (heap w1)) w1)
                  !! lc = Some (Onode (mk_node vc (start c2)))).
  { simpl. by rewrite lookup_insert_ne. }
  rewrite (store_next_eq _ _ _ _ Hlc2'). simpl. unfold h1.
  by rewrite insert_insert_eq.
Qed.

Lemma list_remove_from_front_run w l0 l1 v1 cs :
  list_at (heap w) (Some l0) ((l1, v1) :: cs) ->
  list_remove_from_front (Some l0) w
  = Ok v1 (set_heap (delete l1 (<[l0 := Olist (mk_list (start cs))]> (heap w)))
             w).
Proof.
  intros Hat. pose proof Hat as (l & Heq & Hl0 & Hc). injection Heq as <-.
  pose proof (list_at_not_node _ _ _ Hat) as Hl0n.
  simpl in Hl0, Hl0n. destruct Hc as (_ & n & Hl1 & Hrest).
  pose proof (chain_start _ _ _ Hrest) as ->.
  assert (l0 ≠ l1) by (intros ->; apply Hl0n, list_elem_of_here).
  unfold list_remove_from_front.
  run (load_list_eq _ _ _ Hl0). run (load_node_eq _ _ _ Hl1).
  run (store_head_eq _ _ _ (start cs) Hl0).
  assert (Hl1' : heap (set_heap (<[l0 := Olist (mk_list (start cs))]> (heap w)) w)
                 !! l1 = Some (Onode (mk_node v1 (start cs)))).
  { simpl. by rewrite lookup_insert_ne. }
  by run (free_eq _ _ _ Hl1').
Qed.

Lemma list_remove_from_back_run w l0 cs ll lv :
  list_at (heap w) (Some l0) (cs ++ [(ll, lv)]) ->
  list_remove_from_back (Some l0) w
  = Ok lv (set_heap
             match last cs with
             | None => <[l0 := Olist (mk_list NULL)]> (delete ll (heap w))
             | Some (lc, vc) =>
                 delete ll (<[lc := Onode (mk_node vc NULL)]> (heap w))
             end w).
Proof.
  intros Hat. pose proof (list_at_fuel _ _ _ Hat) as Hfuel.
  pose proof Hat as (l & Heq & Hl0 & Hc). injection Heq as <-.
  pose proof (chain_NoDup _ _ _ Hc) as Hnd.
  unfold list_remove_from_back. run (load_list_eq _ _ _ Hl0).
  destruct (start (cs ++ [(ll, lv)])) as [s|] eqn:Hs;
    [|by apply start_snoc in Hs].
  destruct cs as [|c cs' _] using rev_ind.
  - simpl in Hs. injection Hs as <-.
    destruct Hc as (_ & n & Hll & Hn). simpl in Hn. subst n.
    run (load_node_eq _ _ _ Hll).
    run (free_eq _ _ _ Hll).
    assert (Hl0' : heap (set_heap (delete ll (heap w)) w) !! l0
                   = Some (Olist (mk_list (Some ll)))).
    { simpl. rewrite lookup_delete_ne; [done|]. intros ->. congruence. }
    by run (store_head_eq _ _ _ NULL Hl0').
  - destruct c as [lc vc]. rewrite last_snoc.
    rewrite <- (assoc_L (++)) in *. simpl in *.
    pose proof Hc as Hc'. apply lseg_app in Hc' as (m & Hseg & Htail).
    destruct Htail as (-> & n & Hlc & -> & n' & Hll & Hn'). simpl in Hn'.
    subst n'.
    assert (∃ hn, heap w !! s = Some (Onode hn) ∧ next hn ≠ None)
      as (hn & Hhn & Hnext).
    { destruct cs' as [|[l1 v1] cs'].
      - simpl in Hs. injection Hs as <-. by eexists.
      - simpl in Hs. injection Hs as <-.
        destruct Hseg as (_ & n1 & Hl1 & Hrest). eexists. split; [done|].
        simpl. intros ->.
        destruct cs' as [|[??]?]; simpl in Hrest; [done|by destruct Hrest]. }
    run (load_node_eq _ _ _ Hhn).
    destruct (next hn) as [hn'|]; [|done].
    assert (Hloop : with_fuel (λ fuel, remove_from_back_loop fuel (Some s)) w
                    = Ok (Some lc) w).
    { apply (remove_from_back_loop_spec w cs' _ _ lc vc ll lv Hc).
      rewrite length_app in Hfuel. simpl in Hfuel. lia. }
    run Hloop. run (load_node_eq _ _ _ Hlc). run (load_node_eq _ _ _ Hll).
    run (store_next_eq _ _ _ NULL Hlc).
    rewrite !fmap_app in Hnd. simpl in Hnd.
    apply NoDup_app in Hnd as (_ & _ & Hnd2).
    assert (lc ≠ ll).
    { intros ->. apply NoDup_cons in Hnd2 as [Hnd2 _]. apply Hnd2, list_elem_of_here. }
    assert (Hll' : heap (set_heap (<[lc := Onode (mk_node vc NULL)]> (heap w)) w)
                   !! ll = Some (Onode (mk_node lv NULL))).
    { simpl. by rewrite lookup_insert_ne. }
    by run (free_eq _ _ _ Hll').
Qed.

Lemma list_remove_at_index_run w l0 c1 lc vc lr vr c2 index :
  list_at (heap w) (Some l0) (c1 ++ (lc, vc) :: (lr, vr) :: c2) ->
  index = Z.of_nat (length c1) + 2 -> is_int index ->
  list_remove_at_index (Some l0) index w
  = Ok vr (set_heap (delete lr (<[lc := Onode (mk_node vc (start c2))]> (heap w)))
             w).
Proof.
  intros Hat Hidx Hint. pose proof (list_at_fuel _ _ _ Hat) as Hfuel.
  pose proof Hat as (l & Heq & Hl0 & Hc). injection Heq as <-.
  pose proof (chain_NoDup _ _ _ Hc) as Hnd.
  unfold list_remove_at_index. run (load_list_eq _ _ _ Hl0).
  destruct (start (c1 ++ (lc, vc) :: (lr, vr) :: c2)) as [s|] eqn:Hs;
    [|by destruct c1 as [|[??]?]].
  destruct (Z.ltb_spec index 1); [lia|].
  destruct (Z.eqb_spec index 1); [lia|].
  pose proof Hc as Hc'. apply lseg_app in Hc' as (m & Hseg & Htail).
  destruct Htail as (-> & nc & Hlc & -> & nr & Hlr & Hc2).
  pose proof (chain_start _ _ _ Hc2) as ->.
  assert (Hloop : with_fuel (λ fuel, seek_loop fuel (Some s) 1 index) w
                  = Ok (Some lc) w).
  { apply (seek_loop_found w c1 _ _ 1 index lc Hseg); [|done|lia|done].
    rewrite length_app in Hfuel. lia. }
  run Hloop. run (load_node_eq _ _ _ Hlc). run (load_node_eq _ _ _ Hlr).
  run (store_next_eq _ _ _ (start c2) Hlc).
  rewrite !fmap_app in Hnd. simpl in Hnd.
  apply NoDup_app in Hnd as (_ & _ & Hnd2).
  apply NoDup_cons in Hnd2 as [Hlc2 _].
  assert (lc ≠ lr) by (intros ->; apply Hlc2, list_elem_of_here).
  assert (Hlr' : heap (set_heap (<[lc := Onode (mk_node vc (start c2))]> (heap w)) w)
                 !! lr = Some (Onode (mk_node vr (start c2)))).
  { simpl. by rewrite lookup_insert_ne. }
  by run (free_eq _ _ _ Hlr').
Qed.

(** A list stays the owner of what it is made of when a call leaves a
    well-formed list whose new nodes were free before, frees the nodes it
    has dropped and changes nothing outside the list. *)
Lemma owns_step h0 h h' l0 cs cs' :
  owns h0 h (Some l0) cs -> list_at h' (Some l0) cs' ->
  (∀ l, l ∈ cs'.*1 -> l ∉ cs.*1 -> h !! l = None) ->
  (∀ l, l ∉ l0 :: cs'.*1 -> l ∈ cs.*1 -> h' !! l = None) ->
  (∀ l, l ∉ l0 :: cs'.*1 -> l ∉ l0 :: cs.*1 -> h' !! l = h !! l) ->
  owns h0 h' (Some l0) cs'.
Proof.
  intros (l & Heq & Hat & Hnone & Hsame) Hat' Hnew Hfreed Hframe.
  injection Heq as <-.
  pose proof (list_at_not_node _ _ _ Hat') as Hl0n'.
  exists l0. split; [done|]. split; [done|]. split.
  - intros l Hl. apply elem_of_cons in Hl as [->|Hl].
    + apply Hnone, list_elem_of_here.
    + destruct (decide (l ∈ cs.*1)) as [Hin|Hnot].
      * by apply Hnone, list_elem_of_further.
      * rewrite <- Hsame; [by apply Hnew|].
        intros Hin. apply elem_of_cons in Hin as [->|Hin]; done.
  - intros l Hl. destruct (decide (l ∈ cs.*1)) as [Hin|Hnot].
    + rewrite (Hfreed l Hl Hin). symmetry. by apply Hnone, list_elem_of_further.
    + assert (Hout : l ∉ l0 :: cs.*1).
      { intros Hin. apply elem_of_cons in Hin as [->|Hin]; [|done].
        apply Hl, list_elem_of_here. }
      rewrite (Hframe l Hl Hout). by apply Hsame.
Qed.

Lemma elem_of_put (c1 c2 : cells) (c n : loc * elem) (l : loc) :
  l ∈ (c1 ++ c :: n :: c2).*1 ↔ l = n.1 ∨ l ∈ (c1 ++ c :: c2).*1.
Proof.
  rewrite !fmap_app, !fmap_cons, !elem_of_app, !elem_of_cons. tauto.
Qed.

(** Every list owns its objects since the heap without them. *)
Lemma list_at_owns h l0 cs :
  list_at h (Some l0) cs ->
  owns (free_all cs.*1 (delete l0 h)) h (Some l0) cs.
Proof.
  intros Hat. exists l0. split; [done|]. split; [done|]. split.
  - intros l Hl. rewrite free_all_lookup.
    destruct (decide (l ∈ cs.*1)) as [Hin|Hnot]; [done|].
    apply elem_of_cons in Hl as [->|Hl]; [|done]. apply lookup_delete_eq.
  - intros l Hl. rewrite free_all_lookup.
    destruct (decide (l ∈ cs.*1)) as [Hin|Hnot].
    + exfalso. by apply Hl, list_elem_of_further.
    + rewrite lookup_delete_ne; [done|]. intros ->. apply Hl, list_elem_of_here.
Qed.

(** A list takes one object for itself and one for each of its values. *)
Lemma owns_size h0 h list cs :
  owns h0 h list cs -> size h = (size h0 + S (length cs))%nat.
Proof.
  intros (l0 & -> & Hat & Hnone & Hsame).
  pose proof (list_at_not_node _ _ _ Hat) as Hl0n.
  pose proof Hat as (l & Heq & Hl0 & Hc). injection Heq as <-.
  pose proof (chain_NoDup _ _ _ Hc) as Hnd.
  assert (Hdom : dom h = dom h0 ∪ list_to_set (l0 :: cs.*1)).
  { apply set_eq. intros l. rewrite elem_of_union, elem_of_list_to_set.
    rewrite !elem_of_dom.
    destruct (decide (l ∈ l0 :: cs.*1)) as [Hin|Hnot].
    - split; [by right|]. intros _.
      apply elem_of_cons in Hin as [->|Hin]; [by eexists|].
      destruct (lseg_in_heap _ _ _ _ _ Hc Hin) as [n Hn]. by eexists.
    - rewrite (Hsame l Hnot). split; [by left|]. by intros [?|?]. }
  rewrite <- !size_dom, Hdom, size_union.
  - rewrite size_list_to_set; [by rewrite length_cons, length_fmap|].
    by apply NoDup_cons.
  - intros l Hl0' Hl. apply elem_of_list_to_set in Hl.
    apply elem_of_dom in Hl0' as [o Ho]. rewrite (Hnone l Hl) in Ho. done.
Qed.

Lemma owns_add_to_front h0 w list cs v :
  owns h0 (heap w) list cs -> alloc_ok w = true ->
  ∃ new h',
    list_add_to_front list v w
    = Ok tt (World h' (alloc_rest w) (stdout w) (stderr w))
    ∧ owns h0 h' list ((new, v) :: cs).
Proof.
  intros Hown Hok. pose proof Hown as (l0 & -> & Hat & _).
  destruct (list_add_to_front_spec w (Some l0) cs v Hat Hok)
    as (new & h' & Hrun & Hat').
  pose proof Hrun as Hh.
  rewrite (list_add_to_front_run w l0 cs v Hat Hok) in Hh. injection Hh as Hh.
  set (f := fresh (dom (heap w))) in *.
  assert (Hf : heap w !! f = None) by apply fresh_not_in_heap.
  assert (new = f) as ->.
  { destruct Hat' as (l & Heq & Hl0' & _). injection Heq as <-. simpl in Hl0'.
    rewrite <- Hh, lookup_insert_eq in Hl0'. congruence. }
  exists f, h'. split; [done|].
  apply (owns_step h0 (heap w) h' l0 cs); [done|done|..].
  - intros l Hl Hnot. simpl in Hl. apply elem_of_cons in Hl as [->|Hl]; done.
  - intros l Hl Hin. exfalso. by apply Hl, list_elem_of_further, list_elem_of_further.
  - intros l Hl Hout. subst h'. rewrite !lookup_insert_ne; [done| |].
    + intros <-. apply Hl, list_elem_of_further, list_elem_of_here.
    + intros <-. apply Hl, list_elem_of_here.
Qed.

Lemma owns_add_at_index h0 w list cs v index :
  owns h0 (heap w) list cs -> alloc_ok w = true ->
  1 <= index <= Z.of_nat (length cs) + 1 -> index <= INT_MAX ->
  ∃ h' cs',
    list_add_at_index list v index w
    = Ok tt (World h' (alloc_rest w) (stdout w) (stderr w))
    ∧ owns h0 h' list cs'
    ∧ cs'.*2 = take (Z.to_nat (index - 1)) cs.*2
               ++ v :: drop (Z.to_nat (index - 1)) cs.*2.
Proof.
  intros Hown Hok Hidx Hmax.
  destruct (Z.eq_dec index 1) as [->|Hne].
  - destruct (owns_add_to_front h0 w list cs v Hown Hok)
      as (new & h' & Hrun & Hown').
    exists h', ((new, v) :: cs). split; [|done].
    by destruct Hown as (l0 & -> & _).
  - pose proof Hown as (l0 & -> & Hat & _).
    assert (∃ c1 lc vc c2,
               cs = c1 ++ (lc, vc) :: c2 ∧ Z.of_nat (length c1) = index - 2)
      as (c1 & lc & vc & c2 & -> & Hk).
    { pose proof (take_drop (Z.to_nat (index - 2)) cs) as Htd.
      pose proof (length_drop cs (Z.to_nat (index - 2))) as Hd.
      destruct (drop (Z.to_nat (index - 2)) cs) as [|[lc vc] c2];
        [simpl in Hd; lia|].
      exists (take (Z.to_nat (index - 2)) cs), lc, vc, c2.
      split; [done|]. rewrite length_take. lia. }
    assert (Hi : index = Z.of_nat (length c1) + 2) by lia.
    assert (Hint : is_int index) by (unfold is_int, INT_MIN; lia).
    destruct (list_add_at_index_spec w (Some l0) c1 lc vc c2 v index Hat Hok Hi Hint)
      as (new & h' & Hrun & Hat').
    pose proof Hrun as Hh.
    rewrite (list_add_at_index_run w l0 c1 lc vc c2 v index Hat Hok Hi Hint) in Hh.
    injection Hh as Hh.
    set (f := fresh (dom (heap w))) in *.
    assert (Hf : heap w !! f = None) by apply fresh_not_in_heap.
    assert (new = f) as ->.
    { destruct Hat' as (l & Heq & _ & Hc'). injection Heq as <-.
      apply lseg_app in Hc' as (m & _ & (-> & n & Hlc & Hn)).
      destruct Hn as (-> & _). rewrite <- Hh, lookup_insert_eq in Hlc.
      congruence. }
    exists h', (c1 ++ (lc, vc) :: (f, v) :: c2). split; [done|]. split.
    + apply (owns_step h0 (heap w) h' l0 (c1 ++ (lc, vc) :: c2)); [done|done|..].
      * intros l Hl Hnot. apply elem_of_put in Hl as [->|Hl]; done.
      * intros l Hl Hin. exfalso. apply Hl, list_elem_of_further.
        apply elem_of_put. by right.
      * intros l Hl Hout. subst h'. rewrite !lookup_insert_ne; [done| |].
        -- intros <-. apply Hl, list_elem_of_further, elem_of_put. by left.
        -- intros <-. apply Hout, list_elem_of_further.
           rewrite fmap_app. apply elem_of_app. right. apply list_elem_of_here.
    + rewrite !fmap_app. simpl.
      replace (Z.to_nat (index - 1)) with (S (length c1.*2))
        by (rewrite length_fmap; lia).
      by rewrite take_drop_put.
Qed.

Lemma owns_remove_from_front h0 w list l1 v1 cs :
  owns h0 (heap w) list ((l1, v1) :: cs) ->
  ∃ h', list_remove_from_front list w = Ok v1 (set_heap h' w)
        ∧ owns h0 h' list cs.
Proof.
  intros Hown. pose proof Hown as (l0 & -> & Hat & _).
  rewrite (list_remove_from_front_run w l0 l1 v1 cs Hat).
  destruct (list_remove_from_front_spec w (Some l0) l1 v1 cs Hat)
    as (h' & Hrun & Hat').
  rewrite (list_remove_from_front_run w l0 l1 v1 cs Hat) in Hrun.
  injection Hrun as Hh. eexists. split; [done|].
  apply (owns_step h0 (heap w) _ l0 ((l1, v1) :: cs)); [done|by rewrite Hh|..].
  - intros l Hl Hnot. exfalso. by apply Hnot, list_elem_of_further.
  - intros l Hl Hin. simpl in Hin. apply elem_of_cons in Hin as [->|Hin].
    + apply lookup_delete_eq.
    + exfalso. by apply Hl, list_elem_of_further.
  - intros l Hl Hout. rewrite lookup_delete_ne, lookup_insert_ne; [done| |].
    + intros <-. apply Hl, list_elem_of_here.
    + intros <-. apply Hout, list_elem_of_further, list_elem_of_here.
Qed.

Lemma owns_remove_from_back h0 w list cs ll lv :
  owns h0 (heap w) list (cs ++ [(ll, lv)]) ->
  ∃ h', list_remove_from_back list w = Ok lv (set_heap h' w)
        ∧ owns h0 h' list cs.
Proof.
  intros Hown. pose proof Hown as (l0 & -> & Hat & _).
  rewrite (list_remove_from_back_run w l0 cs ll lv Hat).
  destruct (list_remove_from_back_spec w (Some l0) cs ll lv Hat)
    as (h' & Hrun & Hat').
  rewrite (list_remove_from_back_run w l0 cs ll lv Hat) in Hrun.
  injection Hrun as Hh. eexists. split; [done|].
  assert (Hlast : ∀ l, l ∈ (cs ++ [(ll, lv)]).*1 ↔ l ∈ cs.*1 ∨ l = ll).
  { intros l. rewrite fmap_app, elem_of_app. simpl.
    by rewrite list_elem_of_singleton. }
  apply (owns_step h0 (heap w) _ l0 (cs ++ [(ll, lv)])); [done|by rewrite Hh|..].
  - intros l Hl Hnot. exfalso. apply Hnot, Hlast. by left.
  - intros l Hl Hin. apply Hlast in Hin as [Hin| ->].
    { exfalso. by apply Hl, list_elem_of_further. }
    destruct (last cs) as [[lc vc]|]; [apply lookup_delete_eq|].
    rewrite lookup_insert_ne, lookup_delete_eq; [done|].
    intros <-. apply Hl, list_elem_of_here.
  - intros l Hl Hout.
    assert (l ≠ l0) by (intros ->; apply Hl, list_elem_of_here).
    assert (l ≠ ll).
    { intros ->. apply Hout, list_elem_of_further, Hlast. by right. }
    destruct (last cs) as [[lc vc]|] eqn:Hc.
    + apply last_Some in Hc as [c' ->].
      rewrite lookup_delete_ne, lookup_insert_ne; [done| |done].
      intros <-. apply Hl, list_elem_of_further.
      rewrite fmap_app. apply elem_of_app. right. apply list_elem_of_here.
    + by rewrite lookup_insert_ne, lookup_delete_ne.
Qed.

Lemma owns_remove_at_index h0 w list cs index :
  owns h0 (heap w) list cs ->
  2 <= index <= Z.of_nat (length cs) -> index <= INT_MAX ->
  ∃ v h' cs',
    cs.*2 !! Z.to_nat (index - 1) = Some v
    ∧ list_remove_at_index list index w = Ok v (set_heap h' w)
    ∧ owns h0 h' list cs'
    ∧ cs'.*2 = take (Z.to_nat (index - 1)) cs.*2 ++ drop (Z.to_nat index) cs.*2.
Proof.
  intros Hown Hidx Hmax. pose proof Hown as (l0 & -> & Hat & _).
  assert (∃ c1 lc vc lr vr c2,
             cs = c1 ++ (lc, vc) :: (lr, vr) :: c2
             ∧ Z.of_nat (length c1) = index - 2)
    as (c1 & lc & vc & lr & vr & c2 & -> & Hk).
  { pose proof (take_drop (Z.to_nat (index - 2)) cs) as Htd.
    pose proof (length_drop cs (Z.to_nat (index - 2))) as Hd.
    destruct (drop (Z.to_nat (index - 2)) cs) as [|[lc vc] [|[lr vr] c2]];
      simpl in Hd; [lia|lia|].
    exists (take (Z.to_nat (index - 2)) cs), lc, vc, lr, vr, c2.
    split; [done|]. rewrite length_take. lia. }
  assert (Hi : index = Z.of_nat (length c1) + 2) by lia.
  assert (Hint : is_int index) by (unfold is_int, INT_MIN; lia).
  destruct (list_remove_at_index_spec w (Some l0) c1 lc vc lr vr c2 index Hat Hi Hint)
    as (h' & Hrun & Hat').
  rewrite (list_remove_at_index_run w l0 c1 lc vc lr vr c2 index Hat Hi Hint)
    in Hrun |- *.
  injection Hrun as Hh.
  exists vr. eexists. exists (c1 ++ (lc, vc) :: c2).
  replace (Z.to_nat (index - 1)) with (S (length c1.*2))
    by (rewrite length_fmap; lia).
  replace (Z.to_nat index) with (S (S (length c1.*2)))
    by (rewrite length_fmap; lia).
  rewrite fmap_app. simpl. split; [|split; [done|split]].
  - rewrite lookup_app_r by lia.
    by replace (S (length c1.*2) - length c1.*2)%nat with 1%nat by lia.
  - apply (owns_step h0 (heap w) _ l0 (c1 ++ (lc, vc) :: (lr, vr) :: c2));
      [done|by rewrite Hh|..].
    + intros l Hl Hnot. exfalso. apply Hnot, elem_of_put. by right.
    + intros l Hl Hin. apply elem_of_put in Hin as [->|Hin].
      * apply lookup_delete_eq.
      * exfalso. by apply Hl, list_elem_of_further.
    + intros l Hl Hout. rewrite lookup_delete_ne, lookup_insert_ne; [done| |].
      * intros <-. apply Hl, list_elem_of_further.
        rewrite fmap_app. apply elem_of_app. right. apply list_elem_of_here.
      * intros <-. apply Hout, list_elem_of_further, elem_of_put. by left.
  - by rewrite take_drop_skip, fmap_app.
Qed.

End Footprint.
Export Footprint.

(** ** Sequences of calls *)

Module Sequences.

(** list_remove_at_index at position 1 is list_remove_from_front, on every
    heap. *)
Lemma list_remove_at_index_first list w :
  list_remove_at_index list 1 w = list_remove_from_front list w.
Proof.
  unfold list_remove_at_index. destruct list as [l0|]; [|done].
  change (1 <? 1) with false. change (1 =? 1) with true. cbv iota.
  unfold list_remove_from_front at 1. unfold bind at 1.
  destruct (load_list (Some l0) w) as [t w1| | |] eqn:Hload.
  - pose proof (read_only_load_list _ _ _ _ Hload) as ->.
    destruct (head t) eqn:Hh; [done|].
    unfold list_remove_from_front, bind. by rewrite Hload, Hh.
  - by destruct (no_exit_load_list _ _ _ _ Hload).
  - unfold list_remove_from_front, bind. by rewrite Hload.
  - unfold list_remove_from_front, bind. by rewrite Hload.
Qed.

Lemma removals_on_empty w list index :
  list_at (heap w) list [] ->
  list_remove_from_back list w = Ok (-1) w
  ∧ list_remove_from_front list w = Ok (-1) w
  ∧ list_remove_at_index list index w = Ok (-1) w.
Proof.
  intros (l & -> & Hl0 & _). simpl in Hl0.
  unfold list_remove_from_back, list_remove_from_front, list_remove_at_index.
  by rewrite !(bind_ok _ _ _ _ _ (load_list_eq _ _ _ Hl0)).
Qed.

Lemma is_list_remove_at_index w list vs index :
  is_list w list vs ->
  2 <= index <= Z.of_nat (length vs) -> index <= INT_MAX ->
  ∃ v h',
    vs !! Z.to_nat (index - 1) = Some v
    ∧ list_remove_at_index list index w = Ok v (set_heap h' w)
    ∧ is_list (set_heap h' w) list
        (take (Z.to_nat (index - 1)) vs ++ drop (Z.to_nat index) vs).
Proof.
  intros (cs & Hat & <-) Hidx Hmax. rewrite length_fmap in Hidx.
  assert (∃ c1 lc vc lr vr c2,
             cs = c1 ++ (lc, vc) :: (lr, vr) :: c2
             ∧ Z.of_nat (length c1) = index - 2)
    as (c1 & lc & vc & lr & vr & c2 & -> & Hk).
  { pose proof (take_drop (Z.to_nat (index - 2)) cs) as Htd.
    pose proof (length_drop cs (Z.to_nat (index - 2))) as Hd.
    destruct (drop (Z.to_nat (index - 2)) cs) as [|[lc vc] [|[lr vr] c2]];
      simpl in Hd; [lia|lia|].
    exists (take (Z.to_nat (index - 2)) cs), lc, vc, lr, vr, c2.
    split; [done|]. rewrite length_take. lia. }
  destruct (list_remove_at_index_spec w list c1 lc vc lr vr c2 index Hat)
    as (h' & Hrun & Hat'); [lia|unfold is_int, INT_MIN; lia|].
  exists vr, h'.
  replace (Z.to_nat (index - 1)) with (S (length c1.*2))
    by (rewrite length_fmap; lia).
  replace (Z.to_nat index) with (S (S (length c1.*2)))
    by (rewrite length_fmap; lia).
  rewrite fmap_app. simpl. split; [|split; [done|]].
  - rewrite lookup_app_r by lia.
    by replace (S (length c1.*2) - length c1.*2)%nat with 1%nat by lia.
  - exists (c1 ++ (lc, vc) :: c2). split; [done|].
    by rewrite take_drop_skip, fmap_app.
Qed.

(** One call does to the list in the heap what [apply_op] does to its
    values, and returns what [apply_op] says, provided there is memory for
    the node if it creates one.  The list stays the owner of its objects. *)
Lemma owns_run_op h0 w list cs o :
  owns h0 (heap w) list cs -> op_int o ->
  (needs_node o cs.*2 = true -> alloc_ok w = true) ->
  ∃ w' cs', run_op list o w = Ok (apply_op o cs.*2).1 w'
            ∧ owns h0 (heap w') list cs' ∧ cs'.*2 = (apply_op o cs.*2).2
            ∧ (mallocs w' = mallocs w ∨ mallocs w' = alloc_rest w)
            ∧ stdout w' = stdout w ∧ stderr w' = stderr w.
Proof.
  intros Hown Hint Hneed. pose proof Hown as (l0 & Hl & Hat & _).
  destruct o as [v|v|v index| | |index]; simpl.
  - destruct (owns_add_to_back h0 w list cs v Hown (Hneed eq_refl))
      as (new & h' & Hrun & Hown').
    rewrite (bind_ok _ _ _ _ _ Hrun). eexists. exists (cs ++ [(new, v)]).
    split; [done|]. split; [done|]. split; [by rewrite fmap_app|].
    split; [by right|done].
  - destruct (owns_add_to_front h0 w list cs v Hown (Hneed eq_refl))
      as (new & h' & Hrun & Hown').
    rewrite (bind_ok _ _ _ _ _ Hrun). eexists. exists ((new, v) :: cs).
    split; [done|]. split; [done|]. split; [done|]. split; [by right|done].
  - simpl in Hint, Hneed. rewrite length_fmap in *.
    destruct (Z.leb_spec 1 index); simpl;
      [destruct (Z.leb_spec index (Z.of_nat (length cs) + 1)); simpl|].
    + destruct (owns_add_at_index h0 w list cs v index Hown (Hneed eq_refl))
        as (h' & cs' & Hrun & Hown' & Hvs); [lia|unfold is_int in Hint; lia|].
      rewrite (bind_ok _ _ _ _ _ Hrun). eexists. exists cs'.
      split; [done|]. split; [done|]. split; [done|]. split; [by right|done].
    + rewrite (bind_ok _ _ _ _ _
                 (list_add_at_index_out_of_range w list cs v index Hat
                    ltac:(right; lia))).
      exists w, cs. split; [done|]. split; [done|]. split; [done|].
      split; [by left|done].
    + rewrite (bind_ok _ _ _ _ _
                 (list_add_at_index_out_of_range w list cs v index Hat
                    ltac:(left; lia))).
      exists w, cs. split; [done|]. split; [done|]. split; [done|].
      split; [by left|done].
  - destruct cs as [|[ll lv] c _] using rev_ind.
    + destruct (removals_on_empty w list 0 Hat) as (Hrun & _).
      rewrite (bind_ok _ _ _ _ _ Hrun). exists w, [].
      split; [done|]. split; [done|]. split; [done|]. split; [by left|done].
    + destruct (owns_remove_from_back h0 w list c ll lv Hown)
        as (h' & Hrun & Hown').
      rewrite (bind_ok _ _ _ _ _ Hrun). rewrite fmap_app. simpl.
      rewrite last_snoc. simpl.
      replace (length (c.*2 ++ [lv]) - 1)%nat with (length c.*2)
        by (rewrite length_app; simpl; lia).
      rewrite take_app_length. exists (set_heap h' w), c.
      split; [done|]. split; [done|]. split; [done|]. split; [by left|done].
  - destruct cs as [|[l1 v1] c].
    + destruct (removals_on_empty w list 0 Hat) as (_ & Hrun & _).
      rewrite (bind_ok _ _ _ _ _ Hrun). exists w, [].
      split; [done|]. split; [done|]. split; [done|]. split; [by left|done].
    + destruct (owns_remove_from_front h0 w list l1 v1 c Hown)
        as (h' & Hrun & Hown').
      rewrite (bind_ok _ _ _ _ _ Hrun). exists (set_heap h' w), c.
      split; [done|]. split; [done|]. split; [done|]. split; [by left|done].
  - simpl in Hint.
    assert (Hmax : index <= INT_MAX) by (unfold is_int in Hint; lia).
    destruct (Z.leb_spec 1 index).
    + destruct (cs.*2 !! Z.to_nat (index - 1)) as [v|] eqn:Hv.
      * apply lookup_lt_Some in Hv as Hlt. rewrite length_fmap in Hlt.
        destruct (Z.eq_dec index 1) as [->|Hne].
        -- destruct cs as [|[l1 v1] c]; [done|]. simpl in Hv. injection Hv as ->.
           destruct (owns_remove_from_front h0 w list l1 v c Hown)
             as (h' & Hrun & Hown').
           rewrite <- list_remove_at_index_first in Hrun.
           rewrite (bind_ok _ _ _ _ _ Hrun). exists (set_heap h' w), c.
           split; [done|]. split; [done|]. split; [done|].
           split; [by left|done].
        -- destruct (owns_remove_at_index h0 w list cs index Hown)
             as (v' & h' & cs' & Hv' & Hrun & Hown' & Hvs); [lia|done|].
           rewrite Hv in Hv'. injection Hv' as <-.
           rewrite (bind_ok _ _ _ _ _ Hrun). exists (set_heap h' w), cs'.
           split; [done|]. split; [done|]. split; [done|].
           split; [by left|done].
      * apply lookup_ge_None in Hv. rewrite length_fmap in Hv.
        rewrite (bind_ok _ _ _ _ _
                   (list_remove_at_index_out_of_range w list cs index Hat
                      ltac:(right; lia) Hmax)).
        exists w, cs. split; [done|]. split; [done|]. split; [done|].
        split; [by left|done].
    + rewrite (bind_ok _ _ _ _ _
                 (list_remove_at_index_out_of_range w list cs index Hat
                    ltac:(left; lia) Hmax)).
      exists w, cs. split; [done|]. split; [done|]. split; [done|].
      split; [by left|done].
Qed.

Lemma run_op_refines w list vs o :
  is_list w list vs -> op_int o ->
  (needs_node o vs = true -> alloc_ok w = true) ->
  ∃ w', run_op list o w = Ok (apply_op o vs).1 w'
        ∧ is_list w' list (apply_op o vs).2
        ∧ (mallocs w' = mallocs w ∨ mallocs w' = alloc_rest w)
        ∧ stdout w' = stdout w ∧ stderr w' = stderr w.
Proof.
  intros (cs & Hat & <-) Hint Hneed. pose proof Hat as (l0 & -> & _).
  destruct (owns_run_op _ w (Some l0) cs o (list_at_owns _ _ _ Hat) Hint Hneed)
    as (w' & cs' & Hrun & (_ & _ & Hat' & _) & Hvs & Hrest).
  exists w'. split; [done|]. split; [by exists cs'|done].
Qed.

(** A call that creates a node ends the process when there is no memory
    for it. *)
Lemma run_op_exits w list vs o :
  is_list w list vs -> op_int o ->
  needs_node o vs = true -> alloc_ok w = false ->
  run_op list o w
  = Exit EXIT_FAILURE
      (World (heap w) (alloc_rest w) (stdout w)
         (stderr w ++ str "create_node: malloc failed" ++ newline)).
Proof.
  intros (cs & Hat & <-) Hint Hneed Hok.
  pose proof Hat as (l0 & -> & _).
  destruct o as [v|v|v index| | |index]; simpl in *; try done.
  - by rewrite (bind_exit _ _ _ _ _ (list_add_to_back_fail w l0 v Hok)).
  - by rewrite (bind_exit _ _ _ _ _ (list_add_to_front_fail w l0 v Hok)).
  - apply andb_true_iff in Hneed as [H1 H2].
    apply Z.leb_le in H1, H2. rewrite length_fmap in H2.
    rewrite (bind_exit _ _ _ _ _
               (list_add_at_index_fail w (Some l0) cs v index Hat Hok
                  ltac:(lia) ltac:(unfold is_int in Hint; lia))).
    done.
Qed.

Lemma owns_run_ops h0 os : ∀ w list cs,
  owns h0 (heap w) list cs -> never_fails w -> Forall op_int os ->
  ∃ w' cs', run_ops list os w = Ok (apply_ops os cs.*2).1 w'
            ∧ owns h0 (heap w') list cs' ∧ cs'.*2 = (apply_ops os cs.*2).2
            ∧ never_fails w'
            ∧ stdout w' = stdout w ∧ stderr w' = stderr w.
Proof.
  induction os as [|o os IH]; intros w list cs Hown Hnf Hints; simpl.
  - by exists w, cs.
  - apply Forall_cons in Hints as [Hint Hints].
    destruct (owns_run_op h0 w list cs o Hown Hint (λ _, never_fails_ok _ Hnf))
      as (w1 & cs1 & Hrun & Hown1 & Hvs1 & Hm1 & Hout1 & Herr1).
    assert (Hnf1 : never_fails w1).
    { unfold never_fails. destruct Hm1 as [->| ->]; [done|].
      by apply never_fails_rest. }
    rewrite (bind_ok _ _ _ _ _ Hrun).
    destruct (apply_op o cs.*2) as [r vs1]. simpl in *. subst vs1.
    destruct (IH w1 list cs1 Hown1 Hnf1 Hints)
      as (w2 & cs2 & Hrun2 & Hown2 & Hvs2 & Hnf2 & Hout2 & Herr2).
    rewrite (bind_ok _ _ _ _ _ Hrun2).
    destruct (apply_ops os cs1.*2) as [rs vs2]. simpl in *.
    exists w2, cs2. split; [done|]. split; [done|]. split; [done|].
    split; [done|]. split; congruence.
Qed.

Lemma run_ops_refines os w list vs :
  is_list w list vs -> never_fails w -> Forall op_int os ->
  ∃ w', run_ops list os w = Ok (apply_ops os vs).1 w'
        ∧ is_list w' list (apply_ops os vs).2 ∧ never_fails w'
        ∧ stdout w' = stdout w ∧ stderr w' = stderr w.
Proof.
  intros (cs & Hat & <-) Hnf Hints. pose proof Hat as (l0 & -> & _).
  destruct (owns_run_ops _ os w (Some l0) cs (list_at_owns _ _ _ Hat) Hnf Hints)
    as (w' & cs' & Hrun & (_ & _ & Hat' & _) & Hvs & Hrest).
  exists w'. split; [done|]. split; [by exists cs'|done].
Qed.

End Sequences.
Export Sequences.

(** ** The lookups change nothing *)

Module Purity.

Lemma read_only_ret {A} (a : A) : read_only (ret a).
Proof. by intros w b w' [= _ ->]. Qed.

Lemma read_only_undef {A} : read_only (@undef A).
Proof. by intros w b w'. Qed.

Lemma read_only_diverge {A} : read_only (@diverge A).
Proof. by intros w b w'. Qed.

Lemma read_only_bind {A B} (m : M A) (k : A -> M B) :
  read_only m -> (∀ a, read_only (k a)) -> read_only (bind m k).
Proof.
  intros Hm Hk w b w'. unfold bind.
  destruct (m w) as [a w1| | |] eqn:Hrun; try done.
  apply Hm in Hrun as ->. apply Hk.
Qed.

Lemma read_only_with_fuel {A} (body : nat -> M A) :
  (∀ fuel, read_only (body fuel)) -> read_only (with_fuel body).
Proof. intros Hb w a w'. apply Hb. Qed.

Lemma read_only_load_node p : read_only (load_node p).
Proof.
  intros w a w'. unfold load_node. destruct p; [|done].
  destruct (heap w !! _) as [[]|]; try done. by intros [= _ ->].
Qed.

Create HintDb read_only.
#[export] Hint Resolve read_only_ret read_only_undef read_only_diverge
  read_only_load_node read_only_load_list : read_only.

Ltac read_only_step :=
  lazymatch goal with
  | |- read_only (bind _ _) => apply read_only_bind; [|intros ?]
  | |- read_only (with_fuel _) => apply read_only_with_fuel; intros ?
  | |- read_only (match ?x with _ => _ end) => destruct x
  | |- _ => solve [eauto with read_only]
  end.
Ltac read_only_all := repeat read_only_step.

Ltac read_only_loop :=
  let fuel := fresh "fuel" in
  let IH := fresh "IH" in
  intros fuel; induction fuel as [|fuel IH]; intros; simpl;
  [apply read_only_diverge|read_only_all].

Lemma read_only_list_length_loop : ∀ fuel cursor count,
  read_only (list_length_loop fuel cursor count).
Proof. read_only_loop. Qed.

Lemma read_only_list_is_in_loop : ∀ fuel cursor v,
  read_only (list_is_in_loop fuel cursor v).
Proof. read_only_loop. Qed.

Lemma read_only_list_get_elem_at_loop : ∀ fuel cursor pos index,
  read_only (list_get_elem_at_loop fuel cursor pos index).
Proof. read_only_loop. Qed.

Lemma read_only_list_get_index_of_loop : ∀ fuel cursor pos v,
  read_only (list_get_index_of_loop fuel cursor pos v).
Proof. read_only_loop. Qed.

#[export] Hint Resolve read_only_list_length_loop read_only_list_is_in_loop
  read_only_list_get_elem_at_loop read_only_list_get_index_of_loop : read_only.

Lemma read_only_list_length list : read_only (list_length list).
Proof. unfold list_length. read_only_all. Qed.

Lemma read_only_list_is_in list v : read_only (list_is_in list v).
Proof. unfold list_is_in. read_only_all. Qed.

Lemma read_only_list_get_elem_at list index : read_only (list_get_elem_at list index).
Proof. unfold list_get_elem_at. read_only_all. Qed.

Lemma read_only_list_get_index_of list v : read_only (list_get_index_of list v).
Proof. unfold list_get_index_of. read_only_all. Qed.

End Purity.
Export Purity.

(** ** listToString when allocations may fail *)

Module ToStringAny.

#[local] Arguments bind : simpl never.
#[local] Arguments load_node : simpl never.
#[local] Arguments load_list : simpl never.
#[local] Arguments with_fuel : simpl never.
#[local] Arguments alloc_bytes : simpl never.
#[local] Arguments memcpy_at : simpl never.
#[local] Arguments store_nul : simpl never.
#[local] Arguments snprintf_tmp : simpl never.
#[local] Arguments grow_loop : simpl never.
#[local] Arguments size_wrap : simpl never.
#[local] Arguments realloc_buf : simpl never.
#[local] Arguments fmt_d : simpl never.
#[local] Arguments str : simpl never.
#[local] Arguments Z.of_nat : simpl never.
#[local] Arguments Z.add : simpl never.
#[local] Arguments Z.mul : simpl never.
#[local] Arguments Z.ltb : simpl never.
#[local] Arguments Z.geb : simpl never.

Lemma alloc_bytes_any w :
  alloc_bytes w
  = Ok (alloc_ok w) (World (heap w) (alloc_rest w) (stdout w) (stderr w)).
Proof. unfold alloc_bytes. by rewrite next_alloc_eq. Qed.

(** Making room either fails, or keeps the text and leaves a buffer larger
    than [used + n + 1]. *)
Lemma grow_step_any buf capacity used n w :
  buf_inv buf capacity used -> 0 <= n <= 13 -> used + n + 32 < 2 ^ 63 ->
  ∃ r w1,
    (if size_wrap (used + n + 1) >=? capacity then
       let! newcap :=
         grow_loop 66 (size_wrap (used + n + 1)) (size_wrap (capacity * 2)) in
       let! ok := alloc_bytes in
       if ok then ret (Some (realloc_buf buf newcap, newcap))
       else ret None
     else ret (Some (buf, capacity))) w
    = Ok r w1
    ∧ heap w1 = heap w ∧ stdout w1 = stdout w ∧ stderr w1 = stderr w
    ∧ (r = None
       ∨ ∃ buf1 cap1, r = Some (buf1, cap1) ∧ content buf1 = content buf
                      ∧ buf_size buf1 = cap1 ∧ 256 <= cap1
                      ∧ used + n + 1 < cap1).
Proof.
  intros [Hsize Hused Hcap Hroom] Hn Hfit.
  assert (Hpow : SIZE_MOD = 2 * 2 ^ 63) by done.
  rewrite (size_wrap_id (used + n + 1)) by lia.
  rewrite Z.geb_leb.
  destruct (Z.leb_spec capacity (used + n + 1)) as [Hgrow|Hkeep].
  - rewrite (size_wrap_id (capacity * 2)) by lia.
    assert (Hloop : grow_loop 66 (used + n + 1) (capacity * 2) w
                    = Ok (capacity * 2) w).
    { unfold grow_loop. rewrite Z.geb_leb.
      destruct (Z.leb_spec (capacity * 2) (used + n + 1)); [lia|done]. }
    rewrite (bind_ok _ _ _ _ _ Hloop).
    rewrite (bind_ok _ _ _ _ _ (alloc_bytes_any w)).
    destruct (alloc_ok w).
    + eexists _, _. split; [reflexivity|]. simpl.
      split; [done|]. split; [done|]. split; [done|]. right.
      eexists _, _. split; [reflexivity|].
      rewrite realloc_buf_keeps by lia. simpl. repeat split; lia.
    + eexists _, _. split; [reflexivity|]. simpl. by repeat split; try left.
  - exists (Some (buf, capacity)), w. repeat split; try done. right.
    exists buf, capacity. repeat split; try done; lia.
Qed.

Lemma listToString_loop_any cs : ∀ fuel p w buf capacity used,
  chain (heap w) p cs -> (length cs < fuel)%nat ->
  Forall is_int cs.*2 -> buf_inv buf capacity used ->
  used + Z.of_nat (length (chain_text (str "->") cs.*2)) + 32 < 2 ^ 63 ->
  ∃ r w',
    listToString_loop fuel p buf capacity used w = Ok r w'
    ∧ heap w' = heap w ∧ stdout w' = stdout w ∧ stderr w' = stderr w
    ∧ (r = None
       ∨ ∃ buf' capacity',
           r = Some (buf', capacity', Z.of_nat (length (content buf')))
           ∧ content buf' = content buf ++ chain_text (str "->") cs.*2
           ∧ buf_inv buf' capacity' (Z.of_nat (length (content buf')))).
Proof.
  induction cs as [|[l v] cs IH]; intros fuel p w buf capacity used
    Hc Hfuel Hints Hinv Hfit;
    (destruct fuel as [|f]; [simpl in Hfuel; lia|]).
  - red in Hc. simpl in Hc. subst p. exists (Some (buf, capacity, used)), w.
    pose proof Hinv as [_ Hused _ _]. simpl.
    split; [done|]. split; [done|]. split; [done|]. split; [done|]. right.
    exists buf, capacity. rewrite <- Hused. split; [done|].
    change (chain_text (str "->") []) with (@nil ascii).
    by rewrite (right_id_L [] (++)).
  - destruct Hc as (-> & nx & Hl & Hrest).
    rewrite fmap_cons in Hints, Hfit. simpl in Hints, Hfit.
    apply Forall_cons in Hints as [Hv Hints].
    rewrite chain_text_cons, length_app in Hfit.
    destruct (snprintf_tmp_length v Hv) as (Htake & Htmp & Hle13).
    simpl. rewrite (bind_ok _ _ _ _ _ (load_node_eq _ _ _ Hl)). simpl.
    set (full := fmt_d v ++ str "->") in *.
    set (tmp := take 31 full ++ [NUL]) in *.
    destruct (Z.ltb_spec (Z.of_nat (length full)) 0); [lia|].
    destruct (grow_step_any buf capacity used (Z.of_nat (length full)) w Hinv)
      as (g & w1 & Hgrow & Hheap1 & Hout1 & Herr1 & Hg); [lia|lia|].
    rewrite (bind_ok _ _ _ _ _ Hgrow).
    destruct Hg as [->|(buf1 & cap1 & -> & Hcont & Hsize1 & Hcap1 & Hroom1)].
    { exists None, w1. repeat split; try done. by left. }
    pose proof Hinv as [_ Hused _ _].
    rewrite (bind_ok _ _ _ _ _
               (memcpy_at_ok buf1 used tmp (Z.of_nat (length full)) w1
                  ltac:(lia) ltac:(lia) ltac:(by rewrite Hcont))).
    rewrite Nat2Z.id, Htake, Hcont.
    assert (Hpow : SIZE_MOD = 2 * 2 ^ 63) by done.
    rewrite (size_wrap_id (used + Z.of_nat (length full))) by lia.
    set (buf2 := mk_buffer (buf_size buf1) (content buf ++ full)).
    assert (Hused2 : used + Z.of_nat (length full)
                     = Z.of_nat (length (content buf2))).
    { simpl. rewrite length_app. lia. }
    assert (Hroom2 : used + Z.of_nat (length full) < buf_size buf2)
      by (unfold buf2; simpl; lia).
    rewrite (bind_ok _ _ _ _ _ (store_nul_ok buf2 _ w1 Hroom2 Hused2)).
    rewrite Hused2.
    destruct (IH f nx w1 buf2 cap1 (Z.of_nat (length (content buf2))))
      as (r & w' & Hrun & Hheap' & Hout' & Herr' & Hr); try done.
    + by rewrite Hheap1.
    + simpl in Hfuel. lia.
    + split; [done|done|done|]. rewrite <- Hused2. lia.
    + rewrite <- Hused2. lia.
    + exists r, w'. split; [exact Hrun|].
      split; [congruence|]. split; [congruence|]. split; [congruence|].
      destruct Hr as [->|(buf' & cap' & -> & Hcont' & Hinv')]; [by left|].
      right. exists buf', cap'. split; [done|]. split; [|done].
      rewrite Hcont'. simpl. rewrite chain_text_cons.
      by rewrite <- (assoc_L (++)).
Qed.

(** listToString returns NULL or the whole text, and touches neither the
    heap nor the output streams. *)
Lemma listToString_any w list cs :
  list_at (heap w) list cs -> Forall is_int cs.*2 -> text_fits cs.*2 ->
  ∃ r w',
    listToString list w = Ok r w'
    ∧ heap w' = heap w ∧ stdout w' = stdout w ∧ stderr w' = stderr w
    ∧ (r = None ∨ r = Some (chain_text (str "->") cs.*2 ++ str "NULL"))
    ∧ (alloc_ok w = false -> r = None).
Proof.
  intros Hat Hints Hfit. pose proof (list_at_fuel _ _ _ Hat) as Hfuel.
  destruct Hat as (l0 & -> & Hl0 & Hc). unfold text_fits in Hfit.
  unfold listToString.
  rewrite (bind_ok _ _ _ _ _ (alloc_bytes_any w)).
  destruct (alloc_ok w) eqn:Hok; simpl.
  2:{ exists None, (World (heap w) (alloc_rest w) (stdout w) (stderr w)).
      repeat split; try done. by left. }
  set (w1 := World (heap w) (alloc_rest w) (stdout w) (stderr w)).
  assert (Hl1 : heap w1 !! l0 = Some (Olist (mk_list (start cs)))) by done.
  rewrite (bind_ok _ _ _ _ _ (load_list_eq _ _ _ Hl1)). simpl.
  destruct (listToString_loop_any cs (S (size (heap w1))) (start cs) w1
              (mk_buffer 256 []) 256 0)
    as (r2 & w2 & Hrun & Hheap2 & Hout2 & Herr2 & Hr2); try done.
  assert (Hloop : with_fuel (λ fuel, listToString_loop fuel (start cs)
                               (mk_buffer 256 []) 256 0) w1
                  = Ok r2 w2) by exact Hrun.
  rewrite (bind_ok _ _ _ _ _ Hloop).
  destruct Hr2 as [->|(buf2 & cap2 & -> & Hcont & Hinv)].
  { exists None, w2. repeat split; try done. by left. }
  simpl. simpl in Hcont. destruct Hinv as [Hsize2 _ Hcap2 Hroom2].
  set (used := Z.of_nat (length (content buf2))) in *.
  assert (Hlen : used = Z.of_nat (length (chain_text (str "->") cs.*2)))
    by (unfold used; by rewrite Hcont).
  assert (Hpow : SIZE_MOD = 2 * 2 ^ 63) by done.
  change (Z.of_nat 4) with 4.
  rewrite (size_wrap_id (used + 4 + 1)) by lia.
  rewrite (size_wrap_id (used + 4)) by lia.
  assert (Hgrown : ∃ g w3,
    (if used + 4 + 1 >=? cap2 then
       let! ok := alloc_bytes in
       if ok then ret (Some (realloc_buf buf2 (used + 4 + 1)))
       else ret None
     else ret (Some buf2)) w2 = Ok g w3
    ∧ heap w3 = heap w2 ∧ stdout w3 = stdout w2 ∧ stderr w3 = stderr w2
    ∧ (g = None ∨ ∃ buf3, g = Some buf3 ∧ content buf3 = content buf2
                          ∧ used + 4 < buf_size buf3)).
  { rewrite Z.geb_leb.
    destruct (Z.leb_spec cap2 (used + 4 + 1)).
    - rewrite (bind_ok _ _ _ _ _ (alloc_bytes_any w2)).
      destruct (alloc_ok w2).
      + eexists _, _. split; [reflexivity|]. simpl.
        split; [done|]. split; [done|]. split; [done|]. right.
        eexists. split; [reflexivity|].
        rewrite realloc_buf_keeps by (fold used; lia). simpl. split; [done|lia].
      + eexists _, _. split; [reflexivity|]. simpl. by repeat split; try left.
    - exists (Some buf2), w2. repeat split; try done. right.
      exists buf2. repeat split; try done; lia. }
  destruct Hgrown as (g & w3 & Hgrown & Hheap3 & Hout3 & Herr3 & Hg).
  rewrite (bind_ok _ _ _ _ _ Hgrown).
  destruct Hg as [->|(buf3 & -> & Hcont3 & Hsize3)].
  { exists None, w3. rewrite Hheap3, Hout3, Herr3, Hheap2, Hout2, Herr2.
    repeat split; try done. by left. }
  rewrite (bind_ok _ _ _ _ _
             (memcpy_at_ok buf3 used (str "NULL") 4 w3
                ltac:(by vm_compute) ltac:(lia) ltac:(by rewrite Hcont3))).
  set (buf4 := mk_buffer (buf_size buf3)
                 (content buf3 ++ take (Z.to_nat 4) (str "NULL"))).
  assert (Hused4 : used + 4 = Z.of_nat (length (content buf4))).
  { unfold buf4, used. simpl content. rewrite length_app, Hcont3.
    by rewrite Nat2Z.inj_add. }
  assert (Hroom4 : used + 4 < buf_size buf4) by (unfold buf4; simpl; lia).
  rewrite (bind_ok _ _ _ _ _ (store_nul_ok buf4 _ w3 Hroom4 Hused4)).
  eexists _, w3. simpl. split; [reflexivity|].
  rewrite Hheap3, Hout3, Herr3, Hheap2, Hout2, Herr2, Hcont3, Hcont. simpl.
  repeat split; try done. by right.
Qed.

End ToStringAny.
Export ToStringAny.

(** ** Putting in and taking out *)

Module PutSkip.

(** Taking out what has just been put at a position gives the list back. *)
Lemma put_then_skip {A} (vs : list A) (v : A) (k : nat) :
  (k <= length vs)%nat ->
  (take k vs ++ v :: drop k vs) !! k = Some v
  ∧ take k (take k vs ++ v :: drop k vs)
    ++ drop (S k) (take k vs ++ v :: drop k vs) = vs.
Proof.
  intros Hk. assert (Hlen : length (take k vs) = k) by (rewrite length_take; lia).
  split; [by apply list_lookup_middle|].
  rewrite (take_app_length' (take k vs) _ k) by done.
  rewrite (cons_middle v (take k vs)), (assoc_L (++)).
  rewrite (drop_app_length' (take k vs ++ [v]) _ (S k))
    by (rewrite length_app; simpl; lia).
  apply take_drop.
Qed.

End PutSkip.
Export PutSkip.

(** ** Which calls return *)

Module Returns.

Lemma is_list_not_null w list vs : is_list w list vs -> list ≠ NULL.
Proof. by intros (cs & (l0 & -> & _) & _). Qed.

Lemma is_list_nil w list : is_list w list [] -> list_at (heap w) list [].
Proof. intros (cs & Hat & Hvs). by destruct cs. Qed.

Lemma list_alloc_returns w :
  ∃ l w', list_alloc w = Ok l w' ∧ (alloc_ok w = false -> l = NULL).
Proof.
  destruct (alloc_ok w) eqn:Hok.
  - destruct (list_alloc_spec w Hok) as (l & h' & Hrun & _).
    eexists _, _. split; [exact Hrun|]. by intros [=].
  - rewrite (list_alloc_fail w Hok). by eexists _, _.
Qed.

Lemma listToString_returns w list vs :
  list = NULL ∨ is_list w list vs -> Forall is_int vs -> text_fits vs ->
  ∃ r w', listToString list w = Ok r w'
          ∧ (list = NULL ∨ alloc_ok w = false -> r = None).
Proof.
  intros [->|Hl] Hints Hfit; [by exists None, w|].
  pose proof (is_list_not_null _ _ _ Hl) as Hne.
  destruct Hl as (cs & Hat & <-).
  destruct (listToString_any w list cs Hat Hints Hfit)
    as (r & w' & Hrun & _ & _ & _ & _ & Hnone).
  exists r, w'. split; [done|]. intros [Heq|Hok]; [done|by apply Hnone].
Qed.

Lemma list_free_returns w list vs :
  list = NULL ∨ is_list w list vs -> ∃ w', list_free list w = Ok tt w'.
Proof.
  intros [->|(cs & Hat & <-)]; [by exists w|].
  pose proof Hat as (l0 & -> & _). rewrite (list_free_spec w l0 cs Hat).
  by eexists.
Qed.

Lemma list_print_returns w list vs :
  list = NULL ∨ is_list w list vs -> ∃ w', list_print list w = Ok tt w'.
Proof.
  intros [->|(cs & Hat & <-)]; [by eexists|].
  destruct cs as [|c cs].
  - destruct Hat as (l0 & -> & Hl0 & _). simpl in Hl0. unfold list_print.
    rewrite (bind_ok _ _ _ _ _ (load_list_eq _ _ _ Hl0)). by eexists.
  - rewrite (list_print_spec w list (c :: cs) Hat); [by eexists|done].
Qed.

(** list_get_elem_at on a well-formed list, whatever the index. *)
Lemma is_list_get_elem_at_any w list vs index :
  is_list w list vs -> Z.of_nat (length vs) <= INT_MAX ->
  list_get_elem_at list index w
  = Ok (if 1 <=? index then default (-1) (vs !! Z.to_nat (index - 1)) else -1) w.
Proof.
  intros Hl Hlen. destruct (Z.leb_spec 1 index) as [Hge|Hlt].
  - destruct (vs !! Z.to_nat (index - 1)) as [v|] eqn:Hv; simpl.
    + apply lookup_lt_Some in Hv as Hk.
      replace index with (Z.of_nat (Z.to_nat (index - 1)) + 1) at 1 by lia.
      apply (is_list_get_elem_at w list vs _ v Hl Hv).
      unfold is_int, INT_MIN, INT_MAX, elem in *. lia.
    + apply lookup_ge_None in Hv. destruct Hl as (cs & Hat & <-).
      rewrite length_fmap in Hv.
      apply (list_get_elem_at_out_of_range w list cs index Hat). right. lia.
  - destruct Hl as (cs & Hat & <-).
    apply (list_get_elem_at_out_of_range w list cs index Hat). by left.
Qed.

Lemma list_get_elem_at_returns w list vs index :
  list = NULL ∨ is_list w list vs -> Z.of_nat (length vs) <= INT_MAX ->
  ∃ e, list_get_elem_at list index w = Ok e w
       ∧ (list = NULL ∨ index < 1 ∨ index > Z.of_nat (length vs) -> e = -1).
Proof.
  intros [->|Hl] Hlen.
  - exists (-1). split; [|done]. unfold list_get_elem_at.
    by destruct (index <? 1).
  - pose proof (is_list_not_null _ _ _ Hl) as Hne.
    eexists. split; [by apply (is_list_get_elem_at_any w list vs)|].
    intros [Heq|[Hlt|Hgt]]; [done| |].
    + destruct (Z.leb_spec 1 index); [lia|done].
    + destruct (Z.leb_spec 1 index); [|done].
      rewrite lookup_ge_None_2; [done|unfold elem in *; lia].
Qed.

(** list_get_index_of on a well-formed list, whatever the value. *)
Lemma is_list_get_index_of_any w list vs v :
  is_list w list vs -> Z.of_nat (length vs) < INT_MAX ->
  ∃ i, list_get_index_of list v w = Ok i w
       ∧ (i = -1 ∨ 1 <= i <= Z.of_nat (length vs)).
Proof.
  intros (cs & Hat & <-) Hlen.
  destruct (decide (v ∈ cs.*2)) as [Hin|Hnot].
  - destruct (first_occurrence v cs.*2 Hin) as (k & Hk & Hfirst).
    apply lookup_lt_Some in Hk as Hlt.
    exists (Z.of_nat k + 1). split; [|right; lia].
    apply (list_get_index_of_found w list cs v k Hat Hk Hfirst).
    unfold is_int, INT_MIN, INT_MAX in *. lia.
  - exists (-1). split; [|by left].
    by apply (list_get_index_of_missing w list cs).
Qed.

Lemma list_remove_from_back_returns w list vs :
  list = NULL ∨ is_list w list vs ->
  ∃ r w', list_remove_from_back list w = Ok r w'
          ∧ (list = NULL ∨ vs = [] -> r = -1 ∧ w' = w).
Proof.
  intros [->|Hl]; [by exists (-1), w|].
  pose proof (is_list_not_null _ _ _ Hl) as Hne.
  destruct vs as [|v vs _] using rev_ind.
  - destruct (removals_on_empty w list 0 (is_list_nil _ _ Hl)) as (Hrun & _).
    by exists (-1), w.
  - destruct (is_list_remove_from_back w list vs v Hl) as (h' & Hrun & _).
    exists v, (set_heap h' w). split; [done|].
    intros [Heq|Heq]; [done|by destruct vs].
Qed.

Lemma list_remove_from_front_returns w list vs :
  list = NULL ∨ is_list w list vs ->
  ∃ r w', list_remove_from_front list w = Ok r w'
          ∧ (list = NULL ∨ vs = [] -> r = -1 ∧ w' = w).
Proof.
  intros [->|Hl]; [by exists (-1), w|].
  pose proof (is_list_not_null _ _ _ Hl) as Hne.
  destruct vs as [|v vs].
  - destruct (removals_on_empty w list 0 (is_list_nil _ _ Hl)) as (_ & Hrun & _).
    by exists (-1), w.
  - destruct (is_list_remove_from_front w list v vs Hl) as (h' & Hrun & _).
    exists v, (set_heap h' w). split; [done|]. by intros [Heq|Heq].
Qed.

Lemma list_remove_at_index_returns w list vs index :
  list = NULL ∨ is_list w list vs -> index <= INT_MAX ->
  ∃ r w', list_remove_at_index list index w = Ok r w'
          ∧ (list = NULL ∨ index < 1 ∨ index > Z.of_nat (length vs)
             -> r = -1 ∧ w' = w).
Proof.
  intros [->|Hl] Hmax; [by exists (-1), w|].
  pose proof (is_list_not_null _ _ _ Hl) as Hne.
  destruct (decide (index < 1 ∨ index > Z.of_nat (length vs))) as [Hout|Hin].
  - destruct Hl as (cs & Hat & <-). rewrite length_fmap in Hout.
    exists (-1), w. split; [|done].
    by apply (list_remove_at_index_out_of_range w list cs).
  - destruct (Z.eq_dec index 1) as [->|Hne1].
    + destruct vs as [|v vs]; [simpl in Hin; lia|].
      destruct (is_list_remove_from_front w list v vs Hl) as (h' & Hrun & _).
      exists v, (set_heap h' w). rewrite list_remove_at_index_first.
      split; [done|]. intros [Heq|Hout]; [done|by destruct Hin].
    + destruct (is_list_remove_at_index w list vs index Hl)
        as (v & h' & _ & Hrun & _); [lia|done|].
      exists v, (set_heap h' w). split; [done|].
      intros [Heq|Hout]; [done|by destruct Hin].
Qed.

Lemma insertions_exit w list vs v index :
  is_list w list vs -> alloc_ok w = false -> index <= INT_MAX ->
  (∃ w', list_add_to_back list v w = Exit EXIT_FAILURE w')
  ∧ (∃ w', list_add_to_front list v w = Exit EXIT_FAILURE w')
  ∧ (1 <= index <= Z.of_nat (length vs) + 1 ->
     ∃ w', list_add_at_index list v index w = Exit EXIT_FAILURE w').
Proof.
  intros (cs & Hat & <-) Hok Hmax. rewrite length_fmap.
  pose proof Hat as (l0 & -> & _).
  split; [eexists; by apply list_add_to_back_fail|].
  split; [eexists; by apply list_add_to_front_fail|].
  intros Hidx. eexists. by apply (list_add_at_index_fail w (Some l0) cs).
Qed.

Lemma list_add_at_index_skips w list vs v index :
  list = NULL ∨ is_list w list vs ->
  index < 1 ∨ index > Z.of_nat (length vs) + 1 ->
  list_add_at_index list v index w = Ok tt w.
Proof.
  intros [->|(cs & Hat & <-)] Hidx; [done|]. rewrite length_fmap in Hidx.
  by apply (list_add_at_index_out_of_range w list cs).
Qed.

Lemma insertions_return w list vs v index :
  list = NULL ∨ is_list w list vs -> list = NULL ∨ alloc_ok w = true ->
  index <= INT_MAX ->
  (∃ w', list_add_to_back list v w = Ok tt w')
  ∧ (∃ w', list_add_to_front list v w = Ok tt w')
  ∧ (∃ w', list_add_at_index list v index w = Ok tt w').
Proof.
  intros [->|Hl] Hmem Hmax; [by repeat split; exists w|].
  pose proof (is_list_not_null _ _ _ Hl) as Hne.
  destruct Hmem as [Heq|Hok]; [done|].
  destruct (is_list_add_to_back w list vs v Hl Hok) as (h1 & Hrun1 & _).
  destruct (is_list_add_to_front w list vs v Hl Hok) as (h2 & Hrun2 & _).
  split; [by eexists|]. split; [by eexists|].
  destruct (decide (1 <= index <= Z.of_nat (length vs) + 1)) as [Hin|Hout].
  - destruct (is_list_add_at_index w list vs v index Hl Hok Hin Hmax)
      as (h3 & Hrun3 & _).
    by eexists.
  - exists w. apply (list_add_at_index_skips w list vs); [by right|lia].
Qed.

End Returns.
Export Returns.

(** ** Properties of the module *)

(** C1: for every sequence of values [vs], the list built by calling
    list_add_to_back with them in order on a fresh empty list answers
    list_get_elem_at(i) with the i-th value for every position i from 1 to
    n, and list_length() with n.  The allocations are taken to succeed and
    n to be a value of type [int], which is the type of both answers. *)
Theorem add_to_back_get_elem_at_length (w : world) (vs : list elem) :
  never_fails w -> Z.of_nat (length vs) <= INT_MAX ->
  ∃ list w',
    build vs w = Ok list w'
    ∧ (∀ i : Z, 1 <= i <= Z.of_nat (length vs) ->
         ∃ v, vs !! Z.to_nat (i - 1) = Some v
              ∧ list_get_elem_at list i w' = Ok v w')
    ∧ list_length list w' = Ok (Z.of_nat (length vs)) w'.
Proof.
  intros Hnf Hlen.
  destruct (build_spec w vs Hnf) as (l & w' & Hrun & Hl & _).
  exists (Some l), w'. split; [done|]. split.
  - intros i Hi.
    destruct (lookup_lt_is_Some_2 vs (Z.to_nat (i - 1))) as [v Hv]; [lia|].
    exists v. split; [done|].
    replace i with (Z.of_nat (Z.to_nat (i - 1)) + 1) at 1 by lia.
    apply (is_list_get_elem_at w' (Some l) vs _ v Hl Hv).
    unfold is_int, INT_MIN, INT_MAX in *. lia.
  - rewrite (is_list_length w' (Some l) vs Hl). f_equal.
    apply int_wrap_id. unfold is_int, INT_MIN, INT_MAX in *. lia.
Qed.

Lemma add_to_back_get_elem_at_length_witness :
  never_fails empty_world ∧ Z.of_nat (length [3; 1; 4]) <= INT_MAX
  ∧ ∃ list w',
      build [3; 1; 4] empty_world = Ok list w'
      ∧ (∀ i : Z, 1 <= i <= Z.of_nat (length [3; 1; 4]) ->
           ∃ v, [3; 1; 4] !! Z.to_nat (i - 1) = Some v
                ∧ list_get_elem_at list i w' = Ok v w')
      ∧ list_length list w' = Ok (Z.of_nat (length [3; 1; 4])) w'.
Proof.
  split; [constructor|]. split; [by vm_compute|].
  apply (add_to_back_get_elem_at_length empty_world [3; 1; 4]);
    [constructor|by vm_compute].
Defined.

(** C5: on a list built by list_add_to_back from v1..vn with n >= 1,
    list_remove_from_back returns vn and the length drops from n to n - 1;
    removing n times returns vn..v1 and leaves an empty list.  The
    allocations are taken to succeed and n to be a value of type [int]. *)
Theorem remove_from_back_after_add_to_back (w : world) (vs : list elem) (vn : elem) :
  never_fails w -> Z.of_nat (length (vs ++ [vn])) <= INT_MAX ->
  ∃ list w1,
    build (vs ++ [vn]) w = Ok list w1
    ∧ list_length list w1 = Ok (Z.of_nat (length (vs ++ [vn]))) w1
    ∧ (∃ w2, list_remove_from_back list w1 = Ok vn w2
             ∧ list_length list w2 = Ok (Z.of_nat (length (vs ++ [vn])) - 1) w2)
    ∧ (∃ w3, remove_back_times (length (vs ++ [vn])) list w1
             = Ok (rev (vs ++ [vn])) w3
             ∧ is_list w3 list []
             ∧ list_length list w3 = Ok 0 w3).
Proof.
  intros Hnf Hlen.
  destruct (build_spec w (vs ++ [vn]) Hnf) as (l & w1 & Hrun & Hl & _).
  exists (Some l), w1. split; [done|].
  assert (Hwrap : ∀ n : nat, (n <= length (vs ++ [vn]))%nat ->
                    int_wrap (Z.of_nat n) = Z.of_nat n).
  { intros n Hn. apply int_wrap_id. unfold is_int, INT_MIN, INT_MAX in *. lia. }
  split; [|split].
  - rewrite (is_list_length _ _ _ Hl). f_equal. by apply Hwrap.
  - destruct (is_list_remove_from_back w1 (Some l) vs vn Hl) as (h2 & Hrm & Hl2).
    eexists. split; [exact Hrm|].
    rewrite (is_list_length _ _ _ Hl2). f_equal.
    rewrite Hwrap; rewrite length_app; simpl; lia.
  - destruct (remove_back_times_spec (vs ++ [vn]) w1 (Some l) Hl) as (h3 & Hrm & Hl3).
    eexists. split; [exact Hrm|]. split; [done|].
    by rewrite (is_list_length _ _ _ Hl3).
Qed.

Lemma remove_from_back_after_add_to_back_witness :
  never_fails empty_world ∧ Z.of_nat (length ([3; 1] ++ [4])) <= INT_MAX
  ∧ ∃ list w1,
      build ([3; 1] ++ [4]) empty_world = Ok list w1
      ∧ list_length list w1 = Ok (Z.of_nat (length ([3; 1] ++ [4]))) w1
      ∧ (∃ w2, list_remove_from_back list w1 = Ok 4 w2
               ∧ list_length list w2
                 = Ok (Z.of_nat (length ([3; 1] ++ [4])) - 1) w2)
      ∧ (∃ w3, remove_back_times (length ([3; 1] ++ [4])) list w1
               = Ok (rev ([3; 1] ++ [4])) w3
               ∧ is_list w3 list []
               ∧ list_length list w3 = Ok 0 w3).
Proof.
  split; [constructor|]. split; [by vm_compute|].
  apply (remove_from_back_after_add_to_back empty_world [3; 1] 4);
    [constructor|by vm_compute].
Defined.

(** C6: whatever the list holds and whatever the value, list_add_at_index
    with an index below 1 or above length + 1 returns without any effect:
    the whole state, and with it the length and the contents of the list, is
    what it was before the call. *)
Theorem add_at_index_out_of_range_no_op (w : world) (list : ptr)
    (vs : Datatypes.list elem) (v : elem) (index : Z) :
  is_list w list vs ->
  index < 1 ∨ index > Z.of_nat (length vs) + 1 ->
  list_add_at_index list v index w = Ok tt w.
Proof.
  intros (cs & Hat & <-) Hidx. rewrite length_fmap in Hidx.
  by apply (list_add_at_index_out_of_range w list cs).
Qed.

Lemma add_at_index_out_of_range_no_op_witness :
  is_list sample_world (Some 1%positive) [7; 8; 9]
  ∧ (5 < 1 ∨ 5 > Z.of_nat (length [7; 8; 9]) + 1)
  ∧ list_add_at_index (Some 1%positive) 42 5 sample_world = Ok tt sample_world.
Proof.
  split; [exact sample_world_is_list|]. split; [right; by vm_compute|].
  apply (add_at_index_out_of_range_no_op sample_world (Some 1%positive) [7; 8; 9] 42 5);
    [exact sample_world_is_list|right; by vm_compute].
Defined.

(** C7: on an empty list list_remove_from_back, list_remove_from_front and
    list_remove_at_index (with any index) each return the sentinel -1, and
    the state is untouched, so the list is still empty. *)
Theorem remove_on_empty_list (w : world) (list : ptr) :
  is_list w list [] ->
  list_remove_from_back list w = Ok (-1) w
  ∧ list_remove_from_front list w = Ok (-1) w
  ∧ (∀ index, list_remove_at_index list index w = Ok (-1) w)
  ∧ is_list w list [].
Proof.
  intros Hl. pose proof Hl as (cs & (l & -> & Hl0 & _) & Hvs).
  destruct cs; [|done]. simpl in Hl0.
  unfold list_remove_from_back, list_remove_from_front, list_remove_at_index.
  repeat split; try intros index;
    by rewrite ?(bind_ok _ _ _ _ _ (load_list_eq _ _ _ Hl0)).
Qed.

Lemma remove_on_empty_list_witness :
  is_list sample_empty (Some 1%positive) []
  ∧ list_remove_from_back (Some 1%positive) sample_empty = Ok (-1) sample_empty
  ∧ list_remove_from_front (Some 1%positive) sample_empty = Ok (-1) sample_empty
  ∧ (∀ index, list_remove_at_index (Some 1%positive) index sample_empty
              = Ok (-1) sample_empty)
  ∧ is_list sample_empty (Some 1%positive) [].
Proof.
  split; [exact sample_empty_is_list|].
  apply (remove_on_empty_list sample_empty (Some 1%positive)).
  exact sample_empty_is_list.
Defined.

(** C10: every public operation accepts a NULL list handle: the three
    insertions and list_free return at once and change nothing, the three
    removals and the two lookups return -1, list_is_in returns false,
    list_length returns 0, listToString returns NULL, and list_print only
    writes its message; none of them runs into undefined behaviour. *)
Theorem null_list_handle (w : world) (v : elem) (index : Z) :
  list_add_to_back NULL v w = Ok tt w
  ∧ list_add_to_front NULL v w = Ok tt w
  ∧ list_add_at_index NULL v index w = Ok tt w
  ∧ list_remove_from_back NULL w = Ok (-1) w
  ∧ list_remove_from_front NULL w = Ok (-1) w
  ∧ list_remove_at_index NULL index w = Ok (-1) w
  ∧ list_get_elem_at NULL index w = Ok (-1) w
  ∧ list_get_index_of NULL v w = Ok (-1) w
  ∧ list_is_in NULL v w = Ok false w
  ∧ list_length NULL w = Ok 0 w
  ∧ listToString NULL w = Ok None w
  ∧ list_free NULL w = Ok tt w
  ∧ list_print NULL w
    = Ok tt (World (heap w) (mallocs w)
               (stdout w ++ str "LIST IS NULL" ++ newline) (stderr w)).
Proof. repeat split. Qed.

(** C9: for a list holding v1..vk and an index i from 2 to k,
    list_remove_at_index(i) returns vi and leaves the list holding
    v1..v(i-1), v(i+1)..vk in this order.  The index is a value of type
    [int]. *)
Theorem remove_at_index_middle (w : world) (list : ptr)
    (vs : Datatypes.list elem) (i : Z) :
  is_list w list vs ->
  2 <= i <= Z.of_nat (length vs) -> i <= INT_MAX ->
  ∃ vi w',
    vs !! Z.to_nat (i - 1) = Some vi
    ∧ list_remove_at_index list i w = Ok vi w'
    ∧ is_list w' list (take (Z.to_nat (i - 1)) vs ++ drop (Z.to_nat i) vs).
Proof.
  intros (cs & Hat & <-) Hi Hmax. rewrite length_fmap in Hi.
  set (k := Z.to_nat (i - 2)).
  assert (∃ lc vc lr vr c2,
             cs = take k cs ++ (lc, vc) :: (lr, vr) :: c2)
    as (lc & vc & lr & vr & c2 & Hcs).
  { pose proof (take_drop k cs) as Htd.
    pose proof (length_drop cs k) as Hd.
    destruct (drop k cs) as [|[lc vc] [|[lr vr] c2]]; simpl in Hd; [lia|lia|].
    do 5 eexists. symmetry. exact Htd. }
  assert (Hk : length (take k cs) = k) by (rewrite length_take; lia).
  set (c1 := take k cs) in *.
  rewrite Hcs in Hat.
  destruct (list_remove_at_index_spec w list c1 lc vc lr vr c2 i Hat)
    as (h' & Hrun & Hat').
  { lia. }
  { unfold is_int, INT_MIN. lia. }
  exists vr, (set_heap h' w).
  replace (Z.to_nat (i - 1)) with (S (length c1)) by lia.
  replace (Z.to_nat i) with (S (S (length c1))) by lia.
  rewrite Hcs, fmap_app. simpl. split; [|split; [done|]].
  - rewrite lookup_app_r; rewrite length_fmap; [|lia].
    by replace (S (length c1) - length c1)%nat with 1%nat by lia.
  - exists (c1 ++ (lc, vc) :: c2). split; [done|].
    rewrite <- (length_fmap snd c1), take_drop_skip. by rewrite fmap_app.
Qed.

Lemma remove_at_index_middle_witness :
  is_list sample_world (Some 1%positive) [7; 8; 9]
  ∧ 2 <= 2 <= Z.of_nat (length [7; 8; 9]) ∧ 2 <= INT_MAX
  ∧ ∃ vi w',
      [7; 8; 9] !! Z.to_nat (2 - 1) = Some vi
      ∧ list_remove_at_index (Some 1%positive) 2 sample_world = Ok vi w'
      ∧ is_list w' (Some 1%positive)
          (take (Z.to_nat (2 - 1)) [7; 8; 9] ++ drop (Z.to_nat 2) [7; 8; 9]).
Proof.
  split; [exact sample_world_is_list|]. split; [by vm_compute|].
  split; [by vm_compute|].
  apply (remove_at_index_middle sample_world (Some 1%positive) [7; 8; 9] 2);
    [exact sample_world_is_list|by vm_compute|by vm_compute].
Defined.

(** C4: on any list and for any value, list_add_at_index at position 1 is
    list_add_to_front, and at position length + 1 it is list_add_to_back:
    the two calls end alike and leave the same state.  The position
    length + 1 is a value of type [int]. *)
Theorem add_at_index_front_and_back (w : world) (list : ptr)
    (vs : Datatypes.list elem) (v : elem) :
  is_list w list vs -> Z.of_nat (length vs) < INT_MAX ->
  list_add_at_index list v 1 w = list_add_to_front list v w
  ∧ list_length list w = Ok (Z.of_nat (length vs)) w
  ∧ list_add_at_index list v (Z.of_nat (length vs) + 1) w
    = list_add_to_back list v w.
Proof.
  intros Hl Hlen. split; [by destruct list|]. split.
  - rewrite (is_list_length _ _ _ Hl). f_equal. apply int_wrap_id.
    unfold is_int, INT_MIN, INT_MAX in *. lia.
  - destruct Hl as (cs & Hat & <-). rewrite length_fmap in *.
    apply list_add_at_index_end; [done|].
    unfold is_int, INT_MIN, INT_MAX in *. lia.
Qed.

Lemma add_at_index_front_and_back_witness :
  is_list sample_world (Some 1%positive) [7; 8; 9]
  ∧ Z.of_nat (length [7; 8; 9]) < INT_MAX
  ∧ list_add_at_index (Some 1%positive) 5 1 sample_world
    = list_add_to_front (Some 1%positive) 5 sample_world
  ∧ list_length (Some 1%positive) sample_world
    = Ok (Z.of_nat (length [7; 8; 9])) sample_world
  ∧ list_add_at_index (Some 1%positive) 5 (Z.of_nat (length [7; 8; 9]) + 1)
      sample_world
    = list_add_to_back (Some 1%positive) 5 sample_world.
Proof.
  split; [exact sample_world_is_list|]. split; [by vm_compute|].
  apply (add_at_index_front_and_back sample_world (Some 1%positive) [7; 8; 9] 5);
    [exact sample_world_is_list|by vm_compute].
Defined.

(** C2: listToString returns the values in order, each in decimal and
    followed by [->], and [NULL] at the end; for an empty list that is
    [NULL] alone, and for the list built by list_add_to_back from 3, 1, 4,
    1, 5 it is [3->1->4->1->5->NULL].  The allocations are taken to succeed,
    the values to be of type [int], and the length of the text to be a
    [size_t] that can be doubled. *)
Theorem listToString_text (w : world) (list : ptr) (vs : Datatypes.list elem) :
  is_list w list vs -> never_fails w -> Forall is_int vs -> text_fits vs ->
  (∃ w', listToString list w
         = Ok (Some (match vs with
                     | [] => str "NULL"
                     | _ :: _ => chain_text (str "->") vs ++ str "NULL"
                     end)) w')
  ∧ (∃ l w1 w2,
        build [3; 1; 4; 1; 5] w = Ok l w1
        ∧ listToString l w1 = Ok (Some (str "3->1->4->1->5->NULL")) w2).
Proof.
  intros (cs & Hat & <-) Hnf Hints Hfit.
  destruct (listToString_spec w list cs Hat Hnf Hints Hfit) as (w' & Hrun & _).
  split.
  - exists w'. rewrite Hrun. by destruct cs.
  - destruct (build_spec w [3; 1; 4; 1; 5] Hnf) as (l & w1 & Hb & (cs1 & Hat1 & Hvs1) & Hnf1).
    destruct (listToString_spec w1 (Some l) cs1 Hat1 Hnf1) as (w2 & Hrun2 & _).
    { rewrite Hvs1. repeat constructor; by vm_compute. }
    { rewrite Hvs1. by vm_compute. }
    exists (Some l), w1, w2. split; [done|]. by rewrite Hrun2, Hvs1.
Qed.

Lemma listToString_text_witness :
  is_list sample_world (Some 1%positive) [7; 8; 9]
  ∧ never_fails sample_world ∧ Forall is_int [7; 8; 9] ∧ text_fits [7; 8; 9]
  ∧ (∃ w', listToString (Some 1%positive) sample_world
           = Ok (Some (chain_text (str "->") [7; 8; 9] ++ str "NULL")) w')
  ∧ (∃ l w1 w2,
        build [3; 1; 4; 1; 5] sample_world = Ok l w1
        ∧ listToString l w1 = Ok (Some (str "3->1->4->1->5->NULL")) w2).
Proof.
  assert (Hints : Forall is_int [7; 8; 9]) by (repeat constructor; by vm_compute).
  split; [exact sample_world_is_list|]. split; [constructor|].
  split; [exact Hints|]. split; [by vm_compute|].
  apply (listToString_text sample_world (Some 1%positive) [7; 8; 9]);
    [exact sample_world_is_list|constructor|exact Hints|by vm_compute].
Defined.

(** C8: for a list that is neither NULL nor empty, what list_print writes
    to standard output has the content of the string listToString returns:
    the same values in the same order, each in the same decimal form and
    followed by the same arrow, and the same final NULL.  The printed text
    sets a space in front of each arrow and a newline at the end, and in
    nothing else do the two differ: the printed text without its spaces and
    its newline is the string.  The allocations of listToString are taken to
    succeed, the values to be of type [int] and the length of the text to be
    a [size_t] that can be doubled. *)
Theorem list_print_is_listToString_with_blanks (w : world) (list : ptr)
    (vs : Datatypes.list elem) :
  is_list w list vs -> vs ≠ [] ->
  never_fails w -> Forall is_int vs -> text_fits vs ->
  ∃ printed text w2,
    list_print list w
    = Ok tt (World (heap w) (mallocs w) (stdout w ++ printed) (stderr w))
    ∧ listToString list w = Ok (Some text) w2
    ∧ printed = concat ((λ v, fmt_d v ++ str " " ++ str "->") <$> vs)
                ++ str "NULL" ++ newline
    ∧ text = concat ((λ v, fmt_d v ++ str "->") <$> vs) ++ str "NULL"
    ∧ strip_blanks printed = text.
Proof.
  intros (cs & Hat & <-) Hne Hnf Hints Hfit.
  destruct (listToString_spec w list cs Hat Hnf Hints Hfit) as (w2 & Hrun & _).
  assert (Hcs : cs ≠ []) by (by intros ->).
  pose proof (list_print_spec w list cs Hat Hcs) as Hprint.
  exists (chain_text (str " ->") cs.*2 ++ str "NULL" ++ newline),
    (chain_text (str "->") cs.*2 ++ str "NULL"), w2.
  split; [exact Hprint|]. split; [exact Hrun|]. split; [done|].
  split; [done|]. by rewrite strip_blanks_app, strip_chain_text.
Qed.

Lemma list_print_is_listToString_with_blanks_witness :
  is_list sample_world (Some 1%positive) [7; 8; 9] ∧ [7; 8; 9] ≠ []
  ∧ never_fails sample_world ∧ Forall is_int [7; 8; 9] ∧ text_fits [7; 8; 9]
  ∧ ∃ printed text w2,
      list_print (Some 1%positive) sample_world
      = Ok tt (World (heap sample_world) (mallocs sample_world)
                 (stdout sample_world ++ printed) (stderr sample_world))
      ∧ listToString (Some 1%positive) sample_world = Ok (Some text) w2
      ∧ printed = concat ((λ v, fmt_d v ++ str " " ++ str "->") <$> [7; 8; 9])
                  ++ str "NULL" ++ newline
      ∧ text = concat ((λ v, fmt_d v ++ str "->") <$> [7; 8; 9]) ++ str "NULL"
      ∧ strip_blanks printed = text.
Proof.
  assert (Hints : Forall is_int [7; 8; 9]) by (repeat constructor; by vm_compute).
  split; [exact sample_world_is_list|]. split; [done|]. split; [constructor|].
  split; [exact Hints|]. split; [by vm_compute|].
  apply (list_print_is_listToString_with_blanks sample_world (Some 1%positive)
           [7; 8; 9]);
    [exact sample_world_is_list|done|constructor|exact Hints|by vm_compute].
Defined.

(** The two texts for the list 7, 8, 9, character by character:
    [7 ->8 ->9 ->NULL] and a newline on standard output, [7->8->9->NULL] in
    the string. *)
Lemma list_print_and_listToString_of_7_8_9 :
  ∃ w1 w2,
    list_print (Some 1%positive) sample_world = Ok tt w1
    ∧ listToString (Some 1%positive) sample_world
      = Ok (Some (str "7->8->9->NULL")) w2
    ∧ stdout w1 = str "7 ->8 ->9 ->NULL" ++ newline.
Proof. eexists _, _. split; [by vm_compute|]. split; by vm_compute. Qed.

(** C3, as the specification has it, fails: when malloc fails in
    create_node, list_add_to_back on a freshly allocated list ends the
    process with exit(EXIT_FAILURE). *)
Lemma add_to_back_exits_when_malloc_fails :
  ∃ list w1 w2,
    list_alloc second_alloc_fails = Ok list w1
    ∧ is_list w1 list []
    ∧ list_add_to_back list 7 w1 = Exit EXIT_FAILURE w2.
Proof.
  eexists _, _, _. split; [by vm_compute|]. split; [|by vm_compute].
  exists []. split; [|done]. eexists. split; [done|]. split; done.
Qed.

(** C3, amended: the failure of malloc in create_node is fatal, and nothing
    else is.  Take a handle that is NULL or a well-formed list of fewer than
    INT_MAX values of type [int], and an index of type [int].  When the
    handle is not NULL and there is no memory for the new node,
    list_add_to_back, list_add_to_front and list_add_at_index (at a position
    from 1 to length + 1) end the process with exit(EXIT_FAILURE); with a
    NULL handle or with memory for the node the three return, and
    list_add_at_index at any other position returns without a change; and on
    any input whatever the three exit with no other status and only when
    malloc fails.  Every other operation returns: list_alloc, with NULL when
    malloc fails; listToString, with NULL on a NULL handle or when its first
    allocation fails; list_free, list_print, list_length, list_is_in and
    list_get_index_of; list_get_elem_at, with -1 on a NULL handle or an
    index outside 1..length; and the three removals, with -1 and no change
    on a NULL handle, an empty list, or an index outside 1..length.  And
    none of these operations exits on any input at all, well formed or not. *)
Theorem exit_only_when_create_node_fails (w : world) (list : ptr)
    (vs : Datatypes.list elem) (v : elem) (index : Z) :
  list = NULL ∨ is_list w list vs ->
  Z.of_nat (length vs) < INT_MAX -> Forall is_int vs -> text_fits vs ->
  is_int index ->
  (list ≠ NULL -> alloc_ok w = false ->
   (∃ w', list_add_to_back list v w = Exit EXIT_FAILURE w')
   ∧ (∃ w', list_add_to_front list v w = Exit EXIT_FAILURE w')
   ∧ (1 <= index <= Z.of_nat (length vs) + 1 ->
      ∃ w', list_add_at_index list v index w = Exit EXIT_FAILURE w'))
  ∧ (list = NULL ∨ alloc_ok w = true ->
     (∃ w', list_add_to_back list v w = Ok tt w')
     ∧ (∃ w', list_add_to_front list v w = Ok tt w')
     ∧ (∃ w', list_add_at_index list v index w = Ok tt w'))
  ∧ (index < 1 ∨ index > Z.of_nat (length vs) + 1 ->
     list_add_at_index list v index w = Ok tt w)
  ∧ (∀ l x i w0 c w',
       list_add_to_back l x w0 = Exit c w'
       ∨ list_add_to_front l x w0 = Exit c w'
       ∨ list_add_at_index l x i w0 = Exit c w' ->
       c = EXIT_FAILURE ∧ alloc_ok w0 = false)
  ∧ (∃ l w', list_alloc w = Ok l w' ∧ (alloc_ok w = false -> l = NULL))
  ∧ (∃ r w', listToString list w = Ok r w'
             ∧ (list = NULL ∨ alloc_ok w = false -> r = None))
  ∧ (∃ w', list_free list w = Ok tt w')
  ∧ (∃ w', list_print list w = Ok tt w')
  ∧ (∃ n, list_length list w = Ok n w)
  ∧ (∃ b, list_is_in list v w = Ok b w)
  ∧ (∃ i, list_get_index_of list v w = Ok i w)
  ∧ (∃ e, list_get_elem_at list index w = Ok e w
          ∧ (list = NULL ∨ index < 1 ∨ index > Z.of_nat (length vs)
             -> e = -1))
  ∧ (∃ r w', list_remove_from_back list w = Ok r w'
             ∧ (list = NULL ∨ vs = [] -> r = -1 ∧ w' = w))
  ∧ (∃ r w', list_remove_from_front list w = Ok r w'
             ∧ (list = NULL ∨ vs = [] -> r = -1 ∧ w' = w))
  ∧ (∃ r w', list_remove_at_index list index w = Ok r w'
             ∧ (list = NULL ∨ index < 1 ∨ index > Z.of_nat (length vs)
                -> r = -1 ∧ w' = w))
  ∧ no_exit list_alloc
  ∧ (∀ l, no_exit (list_free l))
  ∧ (∀ l, no_exit (list_print l))
  ∧ (∀ l, no_exit (listToString l))
  ∧ (∀ l, no_exit (list_length l))
  ∧ (∀ l, no_exit (list_remove_from_back l))
  ∧ (∀ l, no_exit (list_remove_from_front l))
  ∧ (∀ l i, no_exit (list_remove_at_index l i))
  ∧ (∀ l x, no_exit (list_is_in l x))
  ∧ (∀ l i, no_exit (list_get_elem_at l i))
  ∧ (∀ l x, no_exit (list_get_index_of l x)).
Proof.
  intros Hl Hlen Hints Hfit Hint.
  assert (Hmax : index <= INT_MAX) by (unfold is_int in Hint; lia).
  split.
  { intros Hne Hok. destruct Hl as [->|Hl]; [done|].
    by apply (insertions_exit w list vs). }
  split; [intros Hmem; by apply (insertions_return w list vs)|].
  split; [by apply list_add_at_index_skips|].
  split.
  { intros l x i w0 c w' [Hrun|[Hrun|Hrun]].
    - by apply list_add_to_back_exit_inv in Hrun.
    - by apply list_add_to_front_exit_inv in Hrun.
    - by apply list_add_at_index_exit_inv in Hrun. }
  split; [apply list_alloc_returns|].
  split; [by apply (listToString_returns w list vs)|].
  split; [by apply (list_free_returns w list vs)|].
  split; [by apply (list_print_returns w list vs)|].
  split.
  { destruct Hl as [->|Hl]; [by exists 0|]. eexists. by apply is_list_length. }
  split.
  { destruct Hl as [->|(cs & Hat & <-)]; [by exists false|]. eexists.
    by apply list_is_in_spec. }
  split.
  { destruct Hl as [->|Hl]; [by exists (-1)|].
    destruct (is_list_get_index_of_any w list vs v Hl Hlen) as (i & Hrun & _).
    by exists i. }
  split; [apply (list_get_elem_at_returns w list vs); [done|lia]|].
  split; [by apply list_remove_from_back_returns|].
  split; [by apply list_remove_from_front_returns|].
  split; [by apply list_remove_at_index_returns|].
  repeat split; intros.
  - apply no_exit_list_alloc.
  - apply no_exit_list_free.
  - apply no_exit_list_print.
  - apply no_exit_listToString.
  - apply no_exit_list_length.
  - apply no_exit_list_remove_from_back.
  - apply no_exit_list_remove_from_front.
  - apply no_exit_list_remove_at_index.
  - apply no_exit_list_is_in.
  - apply no_exit_list_get_elem_at.
  - apply no_exit_list_get_index_of.
Qed.

Lemma exit_only_when_create_node_fails_witness :
  (Some 1%positive = NULL ∨ is_list sample_no_memory (Some 1%positive) [7; 8; 9])
  ∧ Z.of_nat (length [7; 8; 9]) < INT_MAX
  ∧ Forall is_int [7; 8; 9] ∧ text_fits [7; 8; 9] ∧ is_int 2
  ∧ (∃ w', list_add_to_back (Some 1%positive) 5 sample_no_memory
           = Exit EXIT_FAILURE w')
  ∧ (∃ w', list_add_to_front (Some 1%positive) 5 sample_no_memory
           = Exit EXIT_FAILURE w')
  ∧ (∃ w', list_add_at_index (Some 1%positive) 5 2 sample_no_memory
           = Exit EXIT_FAILURE w')
  ∧ (∃ r w', listToString (Some 1%positive) sample_no_memory = Ok r w'
             ∧ r = None)
  ∧ (∃ r w', list_remove_from_back (Some 1%positive) sample_no_memory
             = Ok r w').
Proof.
  assert (Hints : Forall is_int [7; 8; 9]) by (repeat constructor; by vm_compute).
  assert (Hl : Some 1%positive = NULL
               ∨ is_list sample_no_memory (Some 1%positive) [7; 8; 9])
    by (right; exact sample_world_is_list).
  assert (Hfit : text_fits [7; 8; 9]) by (by vm_compute).
  assert (Hint : is_int 2) by (by vm_compute).
  assert (Hlen : Z.of_nat (length [7; 8; 9]) < INT_MAX) by (by vm_compute).
  split; [exact Hl|]. split; [exact Hlen|]. split; [exact Hints|].
  split; [exact Hfit|]. split; [exact Hint|].
  destruct (exit_only_when_create_node_fails sample_no_memory (Some 1%positive)
              [7; 8; 9] 5 2 Hl Hlen Hints Hfit Hint)
    as (Hexit & _ & _ & _ & _ & Hstring & _ & _ & _ & _ & _ & _ & Hback & _).
  destruct (Hexit ltac:(done) ltac:(done)) as (Hb & Hf & Hi).
  split; [exact Hb|]. split; [exact Hf|].
  split; [apply Hi; by vm_compute|].
  split.
  - destruct Hstring as (r & w' & Hrun & Hnone).
    exists r, w'. split; [exact Hrun|]. apply Hnone. by right.
  - destruct Hback as (r & w' & Hrun & _). by exists r, w'.
Defined.

(** ** Further properties *)

Lemma sample_sentinel_is_list : is_list sample_sentinel (Some 1%positive) [-1; 5].
Proof.
  exists [(2%positive, -1); (3%positive, 5)].
  split; [|done]. exists 1%positive. split; [done|]. split; [done|].
  split; [done|]. exists (Some 3%positive). split; [done|].
  split; [done|]. exists NULL. split; done.
Defined.

(** X1: list_alloc either returns a new empty list at an address that was
    free, leaving every other object as it was and writing nothing, or, when
    malloc fails, returns NULL, leaves the heap as it was and writes its
    message to the error stream. *)
Theorem list_alloc_new_or_null (w : world) :
  (alloc_ok w = true
   ∧ ∃ l w', list_alloc w = Ok (Some l) w'
             ∧ heap w !! l = None
             ∧ is_list w' (Some l) []
             ∧ list_length (Some l) w' = Ok 0 w'
             ∧ (∀ l', l' ≠ l -> heap w' !! l' = heap w !! l')
             ∧ stdout w' = stdout w ∧ stderr w' = stderr w)
  ∨ (alloc_ok w = false
     ∧ list_alloc w
       = Ok NULL (World (heap w) (alloc_rest w) (stdout w)
                    (stderr w ++ str "list_alloc: malloc failed" ++ newline))).
Proof.
  destruct (alloc_ok w) eqn:Hok.
  - left. split; [done|].
    destruct (owns_list_alloc w Hok) as (l & h' & Hrun & Hown).
    destruct Hown as (l0 & Heq & Hat & Hnone & Hsame). injection Heq as <-.
    eexists l, _. split; [exact Hrun|].
    split; [apply Hnone, list_elem_of_here|].
    assert (Hl : is_list (World h' (alloc_rest w) (stdout w) (stderr w))
                   (Some l) []) by (by exists []).
    split; [done|]. split; [by rewrite (is_list_length _ _ _ Hl)|].
    split; [|done]. intros l' Hne. apply Hsame. simpl.
    intros Hin. by apply list_elem_of_singleton in Hin.
  - right. split; [done|]. by apply list_alloc_fail.
Qed.

(** X2: list_free of a list holding n values returns, takes n + 1 objects
    out of the heap (the nodes and the list object), leaves every other
    object as it was, and leaves the handle pointing at nothing; it asks for
    no memory and writes nothing. *)
Theorem list_free_releases (w : world) (l0 : loc) (vs : Datatypes.list elem) :
  is_list w (Some l0) vs ->
  ∃ w', list_free (Some l0) w = Ok tt w'
        ∧ (size (heap w') + length vs + 1 = size (heap w))%nat
        ∧ heap w' !! l0 = None
        ∧ (∀ l o, heap w' !! l = Some o -> heap w !! l = Some o)
        ∧ mallocs w' = mallocs w ∧ stdout w' = stdout w
        ∧ stderr w' = stderr w.
Proof.
  intros (cs & Hat & <-).
  destruct (list_free_heap (heap w) l0 cs Hat) as (Hsize & Hdead & Hsub).
  eexists. split; [exact (list_free_spec w l0 cs Hat)|]. simpl.
  rewrite length_fmap. done.
Qed.

Lemma list_free_releases_witness :
  is_list sample_world (Some 1%positive) [7; 8; 9]
  ∧ ∃ w', list_free (Some 1%positive) sample_world = Ok tt w'
          ∧ (size (heap w') + length [7; 8; 9] + 1 = size (heap sample_world))%nat
          ∧ heap w' !! 1%positive = None
          ∧ (∀ l o, heap w' !! l = Some o -> heap sample_world !! l = Some o)
          ∧ mallocs w' = mallocs sample_world ∧ stdout w' = stdout sample_world
          ∧ stderr w' = stderr sample_world.
Proof.
  split; [exact sample_world_is_list|].
  apply (list_free_releases sample_world 1%positive [7; 8; 9]).
  exact sample_world_is_list.
Defined.

(** X3: a list that is allocated, put through any calls of the six
    functions that change it and freed gives the heap back as it was: every
    node a call has created is released, by the call that removes its value
    or by list_free, and nothing that was there before is touched.  The
    calls return what the plain list gives.  The allocations are taken to
    succeed and the indices to be values of type [int]. *)
Theorem session_restores_heap (w : world) (os : Datatypes.list op) :
  never_fails w -> Forall op_int os ->
  ∃ w', session os w = Ok (apply_ops os []).1 w'
        ∧ heap w' = heap w ∧ stdout w' = stdout w ∧ stderr w' = stderr w.
Proof.
  intros Hnf Hints.
  destruct (owns_list_alloc w (never_fails_ok _ Hnf)) as (l & h1 & Hrun & Hown).
  destruct (owns_run_ops (heap w) os
              (World h1 (alloc_rest w) (stdout w) (stderr w))
              (Some l) [] Hown (never_fails_rest _ Hnf) Hints)
    as (w2 & cs & Hrun2 & Hown2 & _ & _ & Hout & Herr).
  unfold session.
  rewrite (bind_ok _ _ _ _ _ Hrun), (bind_ok _ _ _ _ _ Hrun2).
  rewrite (bind_ok _ _ _ _ _ (owns_list_free (heap w) w2 (Some l) cs Hown2)).
  eexists. split; [done|]. simpl. by rewrite Hout, Herr.
Qed.

Lemma session_restores_heap_witness :
  never_fails sample_world
  ∧ Forall op_int [AddToBack 3; AddToFront 1; AddAtIndex 4 2; RemoveFromBack;
                   RemoveAtIndex 5]
  ∧ ∃ w', session [AddToBack 3; AddToFront 1; AddAtIndex 4 2; RemoveFromBack;
                   RemoveAtIndex 5] sample_world
          = Ok (apply_ops [AddToBack 3; AddToFront 1; AddAtIndex 4 2;
                           RemoveFromBack; RemoveAtIndex 5] []).1 w'
          ∧ heap w' = heap sample_world ∧ stdout w' = stdout sample_world
          ∧ stderr w' = stderr sample_world.
Proof.
  assert (Hints : Forall op_int [AddToBack 3; AddToFront 1; AddAtIndex 4 2;
                                 RemoveFromBack; RemoveAtIndex 5])
    by (repeat constructor; by vm_compute).
  split; [constructor|]. split; [exact Hints|].
  apply (session_restores_heap sample_world
           [AddToBack 3; AddToFront 1; AddAtIndex 4 2; RemoveFromBack;
            RemoveAtIndex 5]);
    [constructor|exact Hints].
Defined.

(** X4: list_is_in returns true exactly when the value is one of the values
    of the list, and leaves the state as it is. *)
Theorem list_is_in_membership (w : world) (list : ptr)
    (vs : Datatypes.list elem) (v : elem) :
  is_list w list vs ->
  list_is_in list v w = Ok (bool_decide (v ∈ vs)) w.
Proof. intros (cs & Hat & <-). by apply list_is_in_spec. Qed.

Lemma list_is_in_membership_witness :
  is_list sample_world (Some 1%positive) [7; 8; 9]
  ∧ list_is_in (Some 1%positive) 8 sample_world
    = Ok (bool_decide (8 ∈ [7; 8; 9])) sample_world.
Proof.
  split; [exact sample_world_is_list|].
  apply (list_is_in_membership sample_world (Some 1%positive) [7; 8; 9] 8).
  exact sample_world_is_list.
Defined.

(** X5: list_get_index_of returns the position, counted from 1, of the
    first node holding the value, and -1 exactly when no node holds it; a
    position is never -1, so the two cases cannot be mistaken.  The list
    holds fewer than INT_MAX values, so that the position the search counts
    up to, the length and one more, is a value of type [int]. *)
Theorem list_get_index_of_first (w : world) (list : ptr)
    (vs : Datatypes.list elem) (v : elem) :
  is_list w list vs -> Z.of_nat (length vs) < INT_MAX ->
  ((v ∉ vs) ∧ list_get_index_of list v w = Ok (-1) w)
  ∨ (∃ k, vs !! k = Some v
          ∧ (∀ j, (j < k)%nat -> vs !! j ≠ Some v)
          ∧ list_get_index_of list v w = Ok (Z.of_nat k + 1) w).
Proof.
  intros (cs & Hat & <-) Hlen.
  destruct (decide (v ∈ cs.*2)) as [Hin|Hnot].
  - right. destruct (first_occurrence v cs.*2 Hin) as (k & Hk & Hfirst).
    exists k. split; [done|]. split; [done|].
    apply (list_get_index_of_found w list cs v k Hat Hk Hfirst).
    apply lookup_lt_Some in Hk. unfold is_int, INT_MIN, INT_MAX in *. lia.
  - left. split; [done|]. by apply (list_get_index_of_missing w list cs).
Qed.

Lemma list_get_index_of_first_witness :
  is_list sample_world (Some 1%positive) [7; 8; 9]
  ∧ Z.of_nat (length [7; 8; 9]) < INT_MAX
  ∧ (((8 ∉ [7; 8; 9])
      ∧ list_get_index_of (Some 1%positive) 8 sample_world
        = Ok (-1) sample_world)
     ∨ (∃ k, [7; 8; 9] !! k = Some 8
             ∧ (∀ j, (j < k)%nat -> [7; 8; 9] !! j ≠ Some 8)
             ∧ list_get_index_of (Some 1%positive) 8 sample_world
               = Ok (Z.of_nat k + 1) sample_world)).
Proof.
  split; [exact sample_world_is_list|]. split; [by vm_compute|].
  apply (list_get_index_of_first sample_world (Some 1%positive) [7; 8; 9] 8);
    [exact sample_world_is_list|by vm_compute].
Defined.

(** X6: the lookups agree: for a value the list holds, list_is_in returns
    true, list_get_index_of returns a position from 1 to the length, and
    list_get_elem_at at that position returns the value.  The length of the
    list is a value of type [int]. *)
Theorem index_of_then_elem_at (w : world) (list : ptr)
    (vs : Datatypes.list elem) (v : elem) :
  is_list w list vs -> Z.of_nat (length vs) <= INT_MAX -> v ∈ vs ->
  ∃ i, list_is_in list v w = Ok true w
       ∧ list_get_index_of list v w = Ok i w
       ∧ 1 <= i <= Z.of_nat (length vs)
       ∧ list_get_elem_at list i w = Ok v w.
Proof.
  intros Hl Hlen Hin. pose proof Hl as (cs & Hat & <-).
  destruct (first_occurrence v cs.*2 Hin) as (k & Hk & Hfirst).
  pose proof (lookup_lt_Some _ _ _ Hk) as Hlt.
  assert (Hint : is_int (Z.of_nat k + 1))
    by (unfold is_int, INT_MIN, INT_MAX in *; lia).
  exists (Z.of_nat k + 1). split; [|split; [|split]].
  - rewrite (list_is_in_spec w list cs v Hat).
    by rewrite bool_decide_eq_true_2.
  - by apply (list_get_index_of_found w list cs).
  - lia.
  - by apply (is_list_get_elem_at w list cs.*2 k v).
Qed.

Lemma index_of_then_elem_at_witness :
  is_list sample_world (Some 1%positive) [7; 8; 9]
  ∧ Z.of_nat (length [7; 8; 9]) <= INT_MAX ∧ 9 ∈ [7; 8; 9]
  ∧ ∃ i, list_is_in (Some 1%positive) 9 sample_world = Ok true sample_world
         ∧ list_get_index_of (Some 1%positive) 9 sample_world = Ok i sample_world
         ∧ 1 <= i <= Z.of_nat (length [7; 8; 9])
         ∧ list_get_elem_at (Some 1%positive) i sample_world = Ok 9 sample_world.
Proof.
  assert (Hin : 9 ∈ [7; 8; 9]) by (do 2 apply list_elem_of_further; apply list_elem_of_here).
  split; [exact sample_world_is_list|]. split; [by vm_compute|].
  split; [exact Hin|].
  apply (index_of_then_elem_at sample_world (Some 1%positive) [7; 8; 9] 9);
    [exact sample_world_is_list|by vm_compute|exact Hin].
Defined.

(** X7: list_get_elem_at with an index below 1 or above the length returns
    -1 and leaves the state as it is. *)
Theorem get_elem_at_out_of_range (w : world) (list : ptr)
    (vs : Datatypes.list elem) (index : Z) :
  is_list w list vs ->
  index < 1 ∨ index > Z.of_nat (length vs) ->
  list_get_elem_at list index w = Ok (-1) w.
Proof.
  intros (cs & Hat & <-) Hidx. rewrite length_fmap in Hidx.
  by apply (list_get_elem_at_out_of_range w list cs).
Qed.

Lemma get_elem_at_out_of_range_witness :
  is_list sample_world (Some 1%positive) [7; 8; 9]
  ∧ (4 < 1 ∨ 4 > Z.of_nat (length [7; 8; 9]))
  ∧ list_get_elem_at (Some 1%positive) 4 sample_world = Ok (-1) sample_world.
Proof.
  split; [exact sample_world_is_list|]. split; [right; by vm_compute|].
  apply (get_elem_at_out_of_range sample_world (Some 1%positive) [7; 8; 9] 4);
    [exact sample_world_is_list|right; by vm_compute].
Defined.

(** X8: the return value -1 of list_get_elem_at does not tell a failure from
    a value: at a position that holds -1 the call ends exactly as it does at
    a position that is not there, returning -1 in the same state. *)
Theorem get_elem_at_sentinel_is_ambiguous (w : world) (list : ptr)
    (vs : Datatypes.list elem) (i bad : Z) :
  is_list w list vs ->
  1 <= i <= INT_MAX -> vs !! Z.to_nat (i - 1) = Some (-1) ->
  bad < 1 ∨ bad > Z.of_nat (length vs) ->
  list_get_elem_at list i w = Ok (-1) w
  ∧ list_get_elem_at list i w = list_get_elem_at list bad w.
Proof.
  intros Hl Hi Hv Hbad.
  assert (Hfound : list_get_elem_at list i w = Ok (-1) w).
  { replace i with (Z.of_nat (Z.to_nat (i - 1)) + 1) by lia.
    apply (is_list_get_elem_at w list vs _ (-1) Hl Hv).
    unfold is_int, INT_MIN, INT_MAX in *. lia. }
  split; [done|]. rewrite Hfound. symmetry.
  destruct Hl as (cs & Hat & <-). rewrite length_fmap in Hbad.
  by apply (list_get_elem_at_out_of_range w list cs).
Qed.

Lemma get_elem_at_sentinel_is_ambiguous_witness :
  is_list sample_sentinel (Some 1%positive) [-1; 5]
  ∧ 1 <= 1 <= INT_MAX ∧ [-1; 5] !! Z.to_nat (1 - 1) = Some (-1)
  ∧ (3 < 1 ∨ 3 > Z.of_nat (length [-1; 5]))
  ∧ list_get_elem_at (Some 1%positive) 1 sample_sentinel = Ok (-1) sample_sentinel
  ∧ list_get_elem_at (Some 1%positive) 1 sample_sentinel
    = list_get_elem_at (Some 1%positive) 3 sample_sentinel.
Proof.
  split; [exact sample_sentinel_is_list|]. split; [by vm_compute|].
  split; [done|]. split; [right; by vm_compute|].
  apply (get_elem_at_sentinel_is_ambiguous sample_sentinel (Some 1%positive)
           [-1; 5] 1 3);
    [exact sample_sentinel_is_list|by vm_compute|done|right; by vm_compute].
Defined.

(** X9: list_add_to_front puts the value in front of the others: after it
    list_get_elem_at(1) returns the value and list_length returns one more
    than before.  The allocation is taken to succeed and the new length to
    be a value of type [int]. *)
Theorem add_to_front_then_first (w : world) (list : ptr)
    (vs : Datatypes.list elem) (v : elem) :
  is_list w list vs -> alloc_ok w = true -> Z.of_nat (length vs) < INT_MAX ->
  ∃ w', list_add_to_front list v w = Ok tt w'
        ∧ is_list w' list (v :: vs)
        ∧ list_get_elem_at list 1 w' = Ok v w'
        ∧ list_length list w = Ok (Z.of_nat (length vs)) w
        ∧ list_length list w' = Ok (Z.of_nat (length vs) + 1) w'.
Proof.
  intros Hl Hok Hlen.
  destruct (is_list_add_to_front w list vs v Hl Hok) as (h' & Hrun & Hl').
  eexists. split; [exact Hrun|]. split; [done|]. split; [|split].
  - by apply (is_list_get_elem_at _ list (v :: vs) 0%nat v Hl').
  - rewrite (is_list_length _ _ _ Hl). f_equal. apply int_wrap_id.
    unfold is_int, INT_MIN, INT_MAX in *. lia.
  - rewrite (is_list_length _ _ _ Hl'). f_equal. simpl length.
    rewrite int_wrap_id; [lia|]. unfold is_int, INT_MIN, INT_MAX in *. lia.
Qed.

Lemma add_to_front_then_first_witness :
  is_list sample_world (Some 1%positive) [7; 8; 9]
  ∧ alloc_ok sample_world = true ∧ Z.of_nat (length [7; 8; 9]) < INT_MAX
  ∧ ∃ w', list_add_to_front (Some 1%positive) 5 sample_world = Ok tt w'
          ∧ is_list w' (Some 1%positive) (5 :: [7; 8; 9])
          ∧ list_get_elem_at (Some 1%positive) 1 w' = Ok 5 w'
          ∧ list_length (Some 1%positive) sample_world
            = Ok (Z.of_nat (length [7; 8; 9])) sample_world
          ∧ list_length (Some 1%positive) w'
            = Ok (Z.of_nat (length [7; 8; 9]) + 1) w'.
Proof.
  split; [exact sample_world_is_list|]. split; [done|]. split; [by vm_compute|].
  apply (add_to_front_then_first sample_world (Some 1%positive) [7; 8; 9] 5);
    [exact sample_world_is_list|done|by vm_compute].
Defined.

(** X10: list_add_at_index at a position from 1 to length + 1 puts the
    value at that position: the values in front stay, the values from that
    position on move one place back, and list_get_elem_at at the position
    returns the value.  The allocation is taken to succeed and the position
    to be a value of type [int]. *)
Theorem add_at_index_in_range (w : world) (list : ptr)
    (vs : Datatypes.list elem) (v : elem) (index : Z) :
  is_list w list vs -> alloc_ok w = true ->
  1 <= index <= Z.of_nat (length vs) + 1 -> index <= INT_MAX ->
  ∃ w', list_add_at_index list v index w = Ok tt w'
        ∧ is_list w' list
            (take (Z.to_nat (index - 1)) vs ++ v :: drop (Z.to_nat (index - 1)) vs)
        ∧ list_get_elem_at list index w' = Ok v w'.
Proof.
  intros Hl Hok Hidx Hmax.
  destruct (is_list_add_at_index w list vs v index Hl Hok Hidx Hmax)
    as (h' & Hrun & Hl').
  eexists. split; [exact Hrun|]. split; [done|].
  destruct (put_then_skip vs v (Z.to_nat (index - 1))) as [Hv _]; [lia|].
  assert (Hint : is_int (Z.of_nat (Z.to_nat (index - 1)) + 1))
    by (unfold is_int, INT_MIN, INT_MAX in *; lia).
  pose proof (is_list_get_elem_at _ list _ _ v Hl' Hv Hint) as Hget.
  by replace (Z.of_nat (Z.to_nat (index - 1)) + 1) with index in Hget by lia.
Qed.

Lemma add_at_index_in_range_witness :
  is_list sample_world (Some 1%positive) [7; 8; 9]
  ∧ alloc_ok sample_world = true
  ∧ 1 <= 2 <= Z.of_nat (length [7; 8; 9]) + 1 ∧ 2 <= INT_MAX
  ∧ ∃ w', list_add_at_index (Some 1%positive) 5 2 sample_world = Ok tt w'
          ∧ is_list w' (Some 1%positive)
              (take (Z.to_nat (2 - 1)) [7; 8; 9]
               ++ 5 :: drop (Z.to_nat (2 - 1)) [7; 8; 9])
          ∧ list_get_elem_at (Some 1%positive) 2 w' = Ok 5 w'.
Proof.
  split; [exact sample_world_is_list|]. split; [done|].
  split; [by vm_compute|]. split; [by vm_compute|].
  apply (add_at_index_in_range sample_world (Some 1%positive) [7; 8; 9] 5 2);
    [exact sample_world_is_list|done|by vm_compute|by vm_compute].
Defined.

(** X11: on a list that is not empty list_remove_from_front returns the
    first value and leaves the others in their order; the node is freed, so
    the heap holds one object fewer; and list_remove_at_index at position 1
    ends exactly as it does. *)
Theorem remove_from_front_first (w : world) (list : ptr) (v : elem)
    (vs : Datatypes.list elem) :
  is_list w list (v :: vs) ->
  ∃ w', list_remove_from_front list w = Ok v w'
        ∧ is_list w' list vs
        ∧ S (size (heap w')) = size (heap w)
        ∧ list_remove_at_index list 1 w = Ok v w'.
Proof.
  intros (cs & Hat & Hvs). destruct cs as [|[l1 v1] cs]; [done|].
  simpl in Hvs. injection Hvs as -> <-.
  pose proof Hat as (l0 & -> & _).
  pose proof (list_at_owns _ _ _ Hat) as Hown.
  destruct (owns_remove_from_front _ w (Some l0) l1 v cs Hown)
    as (h' & Hrun & Hown').
  exists (set_heap h' w). split; [done|]. split.
  { destruct Hown' as (_ & _ & Hat' & _). by exists cs. }
  split.
  - apply owns_size in Hown, Hown'. simpl in *. lia.
  - by rewrite list_remove_at_index_first.
Qed.

Lemma remove_from_front_first_witness :
  is_list sample_world (Some 1%positive) (7 :: [8; 9])
  ∧ ∃ w', list_remove_from_front (Some 1%positive) sample_world = Ok 7 w'
          ∧ is_list w' (Some 1%positive) [8; 9]
          ∧ S (size (heap w')) = size (heap sample_world)
          ∧ list_remove_at_index (Some 1%positive) 1 sample_world = Ok 7 w'.
Proof.
  split; [exact sample_world_is_list|].
  apply (remove_from_front_first sample_world (Some 1%positive) 7 [8; 9]).
  exact sample_world_is_list.
Defined.

(** X12: list_remove_at_index with an index below 1 or above the length
    returns -1 and leaves the state as it is; nothing is unlinked or freed.
    The index is a value of type [int]. *)
Theorem remove_at_index_out_of_range (w : world) (list : ptr)
    (vs : Datatypes.list elem) (index : Z) :
  is_list w list vs ->
  index < 1 ∨ index > Z.of_nat (length vs) -> index <= INT_MAX ->
  list_remove_at_index list index w = Ok (-1) w.
Proof.
  intros (cs & Hat & <-) Hidx Hmax. rewrite length_fmap in Hidx.
  by apply (list_remove_at_index_out_of_range w list cs).
Qed.

Lemma remove_at_index_out_of_range_witness :
  is_list sample_world (Some 1%positive) [7; 8; 9]
  ∧ (4 < 1 ∨ 4 > Z.of_nat (length [7; 8; 9])) ∧ 4 <= INT_MAX
  ∧ list_remove_at_index (Some 1%positive) 4 sample_world = Ok (-1) sample_world.
Proof.
  split; [exact sample_world_is_list|]. split; [right; by vm_compute|].
  split; [by vm_compute|].
  apply (remove_at_index_out_of_range sample_world (Some 1%positive) [7; 8; 9] 4);
    [exact sample_world_is_list|right; by vm_compute|by vm_compute].
Defined.

(** X13: list_print writes, for an empty list, LIST IS EMPTY and a newline,
    and otherwise every value in decimal followed by a space and an arrow,
    then NULL and a newline; it changes neither the heap nor the error
    stream and asks for no memory. *)
Theorem list_print_output (w : world) (list : ptr) (vs : Datatypes.list elem) :
  is_list w list vs ->
  list_print list w
  = Ok tt (World (heap w) (mallocs w)
             (stdout w
              ++ match vs with
                 | [] => str "LIST IS EMPTY" ++ newline
                 | _ :: _ => chain_text (str " ->") vs ++ str "NULL" ++ newline
                 end)
             (stderr w)).
Proof.
  intros (cs & Hat & <-). destruct cs as [|c cs].
  - destruct Hat as (l0 & -> & Hl0 & _). simpl in Hl0. unfold list_print.
    by rewrite (bind_ok _ _ _ _ _ (load_list_eq _ _ _ Hl0)).
  - by rewrite (list_print_spec w list (c :: cs) Hat).
Qed.

Lemma list_print_output_witness :
  is_list sample_empty (Some 1%positive) []
  ∧ list_print (Some 1%positive) sample_empty
    = Ok tt (World (heap sample_empty) (mallocs sample_empty)
               (stdout sample_empty ++ str "LIST IS EMPTY" ++ newline)
               (stderr sample_empty)).
Proof.
  split; [exact sample_empty_is_list|].
  apply (list_print_output sample_empty (Some 1%positive) []).
  exact sample_empty_is_list.
Defined.

(** X14: whichever of its allocations fail, listToString returns either
    NULL or the whole text, never a part of it, and changes neither the heap
    nor the output streams; when the first allocation fails it returns
    NULL.  The values are of type [int] and the length of the text is a
    [size_t] that can be doubled. *)
Theorem listToString_null_or_whole (w : world) (list : ptr)
    (vs : Datatypes.list elem) :
  is_list w list vs -> Forall is_int vs -> text_fits vs ->
  ∃ r w',
    listToString list w = Ok r w'
    ∧ heap w' = heap w ∧ stdout w' = stdout w ∧ stderr w' = stderr w
    ∧ (r = None ∨ r = Some (chain_text (str "->") vs ++ str "NULL"))
    ∧ (alloc_ok w = false -> r = None).
Proof. intros (cs & Hat & <-). by apply listToString_any. Qed.

Lemma listToString_null_or_whole_witness :
  is_list sample_no_memory (Some 1%positive) [7; 8; 9]
  ∧ Forall is_int [7; 8; 9] ∧ text_fits [7; 8; 9]
  ∧ ∃ r w',
      listToString (Some 1%positive) sample_no_memory = Ok r w'
      ∧ heap w' = heap sample_no_memory ∧ stdout w' = stdout sample_no_memory
      ∧ stderr w' = stderr sample_no_memory
      ∧ (r = None ∨ r = Some (chain_text (str "->") [7; 8; 9] ++ str "NULL"))
      ∧ (alloc_ok sample_no_memory = false -> r = None).
Proof.
  assert (Hints : Forall is_int [7; 8; 9]) by (repeat constructor; by vm_compute).
  split; [exact sample_world_is_list|]. split; [exact Hints|].
  split; [by vm_compute|].
  apply (listToString_null_or_whole sample_no_memory (Some 1%positive) [7; 8; 9]);
    [exact sample_world_is_list|exact Hints|by vm_compute].
Defined.

(** X15: any sequence of calls of the six functions that change the list
    does to the list in the heap what the same sequence of insertions and
    removals does to a plain list of values: every call returns, the
    removals return the values (or -1) the plain list gives, and the list
    ends up holding the values the plain list ends up with, with
    list_length returning their number.  The allocations are taken to
    succeed, the indices to be values of type [int], and the number of
    values at the end to be one that list_length can count up to, at most
    INT_MAX. *)
Theorem run_ops_as_plain_list (w : world) (list : ptr)
    (vs : Datatypes.list elem) (os : Datatypes.list op) :
  is_list w list vs -> never_fails w -> Forall op_int os ->
  Z.of_nat (length (apply_ops os vs).2) <= INT_MAX ->
  ∃ w', run_ops list os w = Ok (apply_ops os vs).1 w'
        ∧ is_list w' list (apply_ops os vs).2
        ∧ list_length list w'
          = Ok (Z.of_nat (length (apply_ops os vs).2)) w'.
Proof.
  intros Hl Hnf Hints Hlen.
  destruct (run_ops_refines os w list vs Hl Hnf Hints) as (w' & Hrun & Hl' & _).
  exists w'. split; [done|]. split; [done|].
  rewrite (is_list_length _ _ _ Hl'). f_equal. apply int_wrap_id.
  unfold is_int, INT_MIN, INT_MAX in *. lia.
Qed.

Lemma run_ops_as_plain_list_witness :
  is_list sample_world (Some 1%positive) [7; 8; 9]
  ∧ never_fails sample_world
  ∧ Forall op_int [AddToFront 1; RemoveAtIndex 3; AddAtIndex 4 9;
                   RemoveFromBack; AddToBack 2; RemoveFromFront;
                   RemoveAtIndex 7]
  ∧ Z.of_nat (length (apply_ops [AddToFront 1; RemoveAtIndex 3; AddAtIndex 4 9;
                                 RemoveFromBack; AddToBack 2; RemoveFromFront;
                                 RemoveAtIndex 7] [7; 8; 9]).2) <= INT_MAX
  ∧ ∃ w', run_ops (Some 1%positive)
            [AddToFront 1; RemoveAtIndex 3; AddAtIndex 4 9; RemoveFromBack;
             AddToBack 2; RemoveFromFront; RemoveAtIndex 7] sample_world
          = Ok [None; Some 8; None; Some 9; None; Some 1; Some (-1)] w'
          ∧ is_list w' (Some 1%positive) [7; 2]
          ∧ list_length (Some 1%positive) w' = Ok 2 w'.
Proof.
  assert (Hints : Forall op_int [AddToFront 1; RemoveAtIndex 3; AddAtIndex 4 9;
                                 RemoveFromBack; AddToBack 2; RemoveFromFront;
                                 RemoveAtIndex 7])
    by (repeat constructor; by vm_compute).
  split; [exact sample_world_is_list|]. split; [constructor|].
  split; [exact Hints|]. split; [by vm_compute|].
  apply (run_ops_as_plain_list sample_world (Some 1%positive) [7; 8; 9]
           [AddToFront 1; RemoveAtIndex 3; AddAtIndex 4 9; RemoveFromBack;
            AddToBack 2; RemoveFromFront; RemoveAtIndex 7]);
    [exact sample_world_is_list|constructor|exact Hints|by vm_compute].
Defined.

(** X16: on a well-formed list list_length, list_is_in, list_get_elem_at
    and list_get_index_of return, for any value and any index, and change
    nothing: the heap, the allocations still to come and both streams are
    what they were.  list_length returns the number of values, list_is_in
    whether the value is one of them, list_get_elem_at the value at the
    index or -1 where there is none, list_get_index_of -1 or a position from
    1 to the length.  The list holds fewer than INT_MAX values, so that no
    counter leaves the type [int]. *)
Theorem lookups_change_nothing (w : world) (list : ptr)
    (vs : Datatypes.list elem) (v : elem) (index : Z) :
  is_list w list vs -> Z.of_nat (length vs) < INT_MAX ->
  list_length list w = Ok (Z.of_nat (length vs)) w
  ∧ list_is_in list v w = Ok (bool_decide (v ∈ vs)) w
  ∧ list_get_elem_at list index w
    = Ok (if 1 <=? index then default (-1) (vs !! Z.to_nat (index - 1))
          else -1) w
  ∧ ∃ i, list_get_index_of list v w = Ok i w
         ∧ (i = -1 ∨ 1 <= i <= Z.of_nat (length vs)).
Proof.
  intros Hl Hlen. split.
  { rewrite (is_list_length _ _ _ Hl). f_equal. apply int_wrap_id.
    unfold is_int, INT_MIN, INT_MAX in *. lia. }
  split.
  { destruct Hl as (cs & Hat & <-). by apply list_is_in_spec. }
  split; [apply (is_list_get_elem_at_any w list vs index Hl); lia|].
  by apply is_list_get_index_of_any.
Qed.

Lemma lookups_change_nothing_witness :
  is_list sample_world (Some 1%positive) [7; 8; 9]
  ∧ Z.of_nat (length [7; 8; 9]) < INT_MAX
  ∧ list_length (Some 1%positive) sample_world = Ok 3 sample_world
  ∧ list_is_in (Some 1%positive) 8 sample_world = Ok true sample_world
  ∧ list_get_elem_at (Some 1%positive) 4 sample_world = Ok (-1) sample_world
  ∧ ∃ i, list_get_index_of (Some 1%positive) 8 sample_world = Ok i sample_world
         ∧ (i = -1 ∨ 1 <= i <= Z.of_nat (length [7; 8; 9])).
Proof.
  split; [exact sample_world_is_list|]. split; [by vm_compute|].
  apply (lookups_change_nothing sample_world (Some 1%positive) [7; 8; 9] 8 4);
    [exact sample_world_is_list|by vm_compute].
Defined.

(** X17: putting a value in with list_add_at_index at a position from 1 to
    length + 1 and taking it out again with list_remove_at_index at the same
    position returns that value and leaves the list holding what it held
    before.  The allocation is taken to succeed and the position to be a
    value of type [int]. *)
Theorem add_then_remove_at_index (w : world) (list : ptr)
    (vs : Datatypes.list elem) (v : elem) (index : Z) :
  is_list w list vs -> alloc_ok w = true ->
  1 <= index <= Z.of_nat (length vs) + 1 -> index <= INT_MAX ->
  ∃ w1 w2, list_add_at_index list v index w = Ok tt w1
           ∧ list_remove_at_index list index w1 = Ok v w2
           ∧ is_list w2 list vs.
Proof.
  intros Hl Hok Hidx Hmax.
  destruct (is_list_add_at_index w list vs v index Hl Hok Hidx Hmax)
    as (h1 & Hrun1 & Hl1).
  destruct (put_then_skip vs v (Z.to_nat (index - 1))) as [Hv Hback]; [lia|].
  set (vs1 := take (Z.to_nat (index - 1)) vs
              ++ v :: drop (Z.to_nat (index - 1)) vs) in *.
  eexists _. destruct (Z.eq_dec index 1) as [->|Hne].
  - change (Z.to_nat (1 - 1)) with 0%nat in *.
    assert (Hvs1 : vs1 = v :: vs) by (unfold vs1; by rewrite take_0, drop_0).
    rewrite Hvs1 in Hl1.
    destruct (is_list_remove_from_front _ list v vs Hl1) as (h2 & Hrun2 & Hl2).
    eexists. split; [exact Hrun1|]. split; [|exact Hl2].
    by rewrite list_remove_at_index_first.
  - destruct (is_list_remove_at_index _ list vs1 index Hl1)
      as (v' & h2 & Hv' & Hrun2 & Hl2); [|done|].
    { unfold vs1. rewrite length_app. simpl. rewrite length_take, length_drop. lia. }
    rewrite Hv in Hv'. injection Hv' as <-.
    eexists. split; [exact Hrun1|]. split; [exact Hrun2|].
    replace (Z.to_nat index) with (S (Z.to_nat (index - 1))) in Hl2 by lia.
    by rewrite Hback in Hl2.
Qed.

Lemma add_then_remove_at_index_witness :
  is_list sample_world (Some 1%positive) [7; 8; 9]
  ∧ alloc_ok sample_world = true
  ∧ 1 <= 4 <= Z.of_nat (length [7; 8; 9]) + 1 ∧ 4 <= INT_MAX
  ∧ ∃ w1 w2, list_add_at_index (Some 1%positive) 5 4 sample_world = Ok tt w1
             ∧ list_remove_at_index (Some 1%positive) 4 w1 = Ok 5 w2
             ∧ is_list w2 (Some 1%positive) [7; 8; 9].
Proof.
  split; [exact sample_world_is_list|]. split; [done|].
  split; [by vm_compute|]. split; [by vm_compute|].
  apply (add_then_remove_at_index sample_world (Some 1%positive) [7; 8; 9] 5 4);
    [exact sample_world_is_list|done|by vm_compute|by vm_compute].
Defined.

(** X18: on any list that is not empty list_remove_from_back returns the
    last value and leaves the values in front of it in their order; the
    node is freed, so the heap holds one object fewer. *)
Theorem remove_from_back_last (w : world) (list : ptr)
    (vs : Datatypes.list elem) (v : elem) :
  is_list w list (vs ++ [v]) ->
  ∃ w', list_remove_from_back list w = Ok v w'
        ∧ is_list w' list vs
        ∧ S (size (heap w')) = size (heap w).
Proof.
  intros (cs & Hat & Hvs).
  destruct cs as [|[ll lv] cs _] using rev_ind.
  { by destruct vs. }
  rewrite fmap_app in Hvs. simpl in Hvs.
  apply app_inj_tail in Hvs as [<- ->].
  pose proof Hat as (l0 & -> & _).
  pose proof (list_at_owns _ _ _ Hat) as Hown.
  destruct (owns_remove_from_back _ w (Some l0) cs ll v Hown)
    as (h' & Hrun & Hown').
  exists (set_heap h' w). split; [done|]. split.
  - destruct Hown' as (_ & _ & Hat' & _). by exists cs.
  - apply owns_size in Hown, Hown'. rewrite length_app in Hown.
    simpl in *. lia.
Qed.

Lemma remove_from_back_last_witness :
  is_list sample_world (Some 1%positive) ([7; 8] ++ [9])
  ∧ ∃ w', list_remove_from_back (Some 1%positive) sample_world = Ok 9 w'
          ∧ is_list w' (Some 1%positive) [7; 8]
          ∧ S (size (heap w')) = size (heap sample_world).
Proof.
  split; [exact sample_world_is_list|].
  apply (remove_from_back_last sample_world (Some 1%positive) [7; 8] 9).
  exact sample_world_is_list.
Defined.

(** X19: on a well-formed list a call of one of the six functions that
    change the list never runs into undefined behaviour or an endless loop,
    whatever the allocations do: either it returns and leaves a well-formed
    list holding the values the plain list gives, or it is a call that has
    to create a node while malloc fails, and then it ends the process with
    exit(EXIT_FAILURE) before anything in the heap has changed.  The index
    is a value of type [int]. *)
Theorem mutators_return_or_exit (w : world) (list : ptr)
    (vs : Datatypes.list elem) (o : op) :
  is_list w list vs -> op_int o ->
  (∃ w', run_op list o w = Ok (apply_op o vs).1 w'
         ∧ is_list w' list (apply_op o vs).2)
  ∨ (needs_node o vs = true ∧ alloc_ok w = false
     ∧ ∃ w', run_op list o w = Exit EXIT_FAILURE w' ∧ heap w' = heap w).
Proof.
  intros Hl Hint.
  destruct (needs_node o vs && negb (alloc_ok w)) eqn:Hcase.
  - apply andb_true_iff in Hcase as [Hneed Hok].
    apply negb_true_iff in Hok. right. split; [done|]. split; [done|].
    eexists. split; [by apply (run_op_exits w list vs o)|done].
  - left.
    destruct (run_op_refines w list vs o Hl Hint) as (w' & Hrun & Hl' & _).
    + intros Hneed. rewrite Hneed in Hcase. simpl in Hcase.
      by apply negb_false_iff in Hcase.
    + by exists w'.
Qed.

Lemma mutators_return_or_exit_witness :
  is_list sample_no_memory (Some 1%positive) [7; 8; 9]
  ∧ op_int (AddAtIndex 5 2)
  ∧ ((∃ w', run_op (Some 1%positive) (AddAtIndex 5 2) sample_no_memory
            = Ok (apply_op (AddAtIndex 5 2) [7; 8; 9]).1 w'
            ∧ is_list w' (Some 1%positive) (apply_op (AddAtIndex 5 2) [7; 8; 9]).2)
     ∨ (needs_node (AddAtIndex 5 2) [7; 8; 9] = true
        ∧ alloc_ok sample_no_memory = false
        ∧ ∃ w', run_op (Some 1%positive) (AddAtIndex 5 2) sample_no_memory
                = Exit EXIT_FAILURE w'
                ∧ heap w' = heap sample_no_memory)).
Proof.
  split; [exact sample_world_is_list|]. split; [by vm_compute|].
  apply (mutators_return_or_exit sample_no_memory (Some 1%positive) [7; 8; 9]
           (AddAtIndex 5 2));
    [exact sample_world_is_list|by vm_compute].
Defined.

(** X20: a call of one of the six functions on one list leaves every other
    list that shares no object with it exactly as it was, node for node,
    whether the call returns or ends the process in create_node.  The index
    is a value of type [int]. *)
Theorem other_list_untouched (w : world) (la lb : loc) (ca cb : cells)
    (o : op) :
  list_at (heap w) (Some la) ca -> list_at (heap w) (Some lb) cb ->
  (∀ l, l ∈ la :: ca.*1 -> l ∉ lb :: cb.*1) -> op_int o ->
  ∃ w', (run_op (Some la) o w = Ok (apply_op o ca.*2).1 w'
         ∨ run_op (Some la) o w = Exit EXIT_FAILURE w')
        ∧ list_at (heap w') (Some lb) cb.
Proof.
  intros Ha Hb Hdisj Hint.
  destruct (needs_node o ca.*2 && negb (alloc_ok w)) eqn:Hcase.
  { apply andb_true_iff in Hcase as [Hneed Hok]. apply negb_true_iff in Hok.
    eexists. split; [right; apply (run_op_exits w (Some la) ca.*2 o)|done];
      [by exists ca|done..]. }
  destruct (owns_run_op _ w (Some la) ca o (list_at_owns _ _ _ Ha) Hint)
    as (w' & ca' & Hrun & Hown' & _).
  { intros Hneed. rewrite Hneed in Hcase. by apply negb_false_iff in Hcase. }
  exists w'. split; [by left|].
  destruct (list_at_owns _ _ _ Ha) as (? & [= <-] & _ & _ & Hsame).
  destruct Hown' as (? & [= <-] & _ & Hnone' & Hsame').
  destruct Hb as (? & [= <-] & Hlb & Hcb).
  assert (Hkept : ∀ l, l ∈ lb :: cb.*1 -> heap w' !! l = heap w !! l).
  { intros l Hl.
    assert (Hsome : is_Some (heap w !! l)).
    { apply elem_of_cons in Hl as [->|Hl]; [by eexists|].
      destruct (lseg_in_heap _ _ _ _ _ Hcb Hl) as [n Hn]. by eexists. }
    assert (Hout : l ∉ la :: ca.*1) by (intros Hin; by apply (Hdisj l)).
    rewrite (Hsame l Hout) in Hsome |- *. apply Hsame'. intros Hin.
    rewrite (Hnone' l Hin) in Hsome. by destruct Hsome. }
  exists lb. split; [done|]. split.
  - rewrite Hkept; [done|]. apply list_elem_of_here.
  - eapply lseg_agree; [exact Hcb|]. intros l Hl.
    by apply Hkept, list_elem_of_further.
Qed.

Lemma other_list_untouched_witness :
  list_at (heap sample_two_lists) (Some 1%positive) [(2%positive, 7)]
  ∧ list_at (heap sample_two_lists) (Some 3%positive)
      [(4%positive, 8); (5%positive, 9)]
  ∧ (∀ l, l ∈ 1%positive :: [(2%positive, 7)].*1
          -> l ∉ 3%positive :: [(4%positive, 8); (5%positive, 9)].*1)
  ∧ op_int RemoveFromBack
  ∧ ∃ w', (run_op (Some 1%positive) RemoveFromBack sample_two_lists
           = Ok (apply_op RemoveFromBack [(2%positive, 7)].*2).1 w'
           ∨ run_op (Some 1%positive) RemoveFromBack sample_two_lists
             = Exit EXIT_FAILURE w')
          ∧ list_at (heap w') (Some 3%positive)
              [(4%positive, 8); (5%positive, 9)].
Proof.
  assert (Ha : list_at (heap sample_two_lists) (Some 1%positive)
                 [(2%positive, 7)]).
  { exists 1%positive. split; [done|]. split; [done|].
    split; [done|]. exists NULL. split; done. }
  assert (Hb : list_at (heap sample_two_lists) (Some 3%positive)
                 [(4%positive, 8); (5%positive, 9)]).
  { exists 3%positive. split; [done|]. split; [done|].
    split; [done|]. exists (Some 5%positive). split; [done|].
    split; [done|]. exists NULL. split; done. }
  assert (Hdisj : ∀ l, l ∈ 1%positive :: [(2%positive, 7)].*1
                       -> l ∉ 3%positive :: [(4%positive, 8); (5%positive, 9)].*1).
  { intros l Hl Hl'. simpl in Hl, Hl'.
    repeat (apply elem_of_cons in Hl as [->|Hl]);
      [..|by apply elem_of_nil in Hl];
      repeat (apply elem_of_cons in Hl' as [Heq|Hl']; [discriminate Heq|]);
      by apply elem_of_nil in Hl'. }
  split; [exact Ha|]. split; [exact Hb|]. split; [exact Hdisj|].
  split; [exact I|].
  exact (other_list_untouched sample_two_lists 1%positive 3%positive
           [(2%positive, 7)] [(4%positive, 8); (5%positive, 9)] RemoveFromBack
           Ha Hb Hdisj I).
Defined.
